(** * mcp-chat: the tool-orchestration core

    A shallow embedding of the two modules that carry the engineering
    content of the repository:

    - [McpManager] (lib/mcp-manager.ts): the registry of connections to
      external tool servers, with [connectToServer], [disconnectServer],
      [disconnectAll] and [callTool];
    - [ApiService.sendMessage] (lib/api-service.ts): the loop that
      interleaves model responses with tool invocations, and the methods
      that set the key, the base URL and the model;
    - the route handlers that call the two (app/api/config, app/api/chat,
      app/api/mcp/connect and app/api/mcp/disconnect).

    Asynchronous methods are embedded in a state-and-exception monad over
    a [World] that holds the fields of the two singletons and a
    chronological trace of the calls made to the outside (child
    processes, the tool protocol client, the model API, timers).  What
    the outside answers is given by an [Env] of oracles, each of which
    sees the whole trace so far; an environment may thus answer
    differently every time it is asked.  Tasks are run one after the
    other: the interleaving of two calls on the same manager is not
    modelled.  A connection task that lost the race against its timer is
    followed for as long as the call that launched it is running; what it
    does after that call has ended is not modelled. *)

From Stdlib Require Import List String Ascii Bool Arith Lia.
From stdpp Require Import base option list strings gmap pretty.

Set Warnings "-register-all,-abstract-large-number".

Local Open Scope string_scope.
Local Open Scope list_scope.

(** ** Values exchanged with the outside *)

(** Values of TypeScript type [any] that travel as JSON: tool arguments,
    input schemas and tool results.  Numbers are restricted to the
    integers; nothing below inspects a number. *)
Inductive JSON : Type :=
| JNull
| JBool (b : bool)
| JNumber (n : Z)
| JString (s : string)
| JArray (items : list JSON)
| JObject (members : list (string * JSON)).

(** The double-quote character, for the messages that quote a name. *)
Definition dquote : string := String (ascii_of_nat 34) EmptyString.
Definition quoted (s : string) : string := dquote +:+ s +:+ dquote.

(** [a || b] on strings: the empty string is falsy. *)
Definition str_or (a b : string) : string :=
  if String.eqb a EmptyString then b else a.

Definition truthy (a : string) : bool := negb (String.eqb a EmptyString).

Definition is_Some_bool {A} (o : option A) : bool :=
  match o with Some _ => true | None => false end.

(** [s.includes(needle)] *)
Fixpoint includes (needle s : string) : bool :=
  String.prefix needle s ||
  match s with
  | EmptyString => false
  | String _ s' => includes needle s'
  end.

(** [xs.join(sep)] *)
Fixpoint join (sep : string) (xs : list string) : string :=
  match xs with
  | [] => EmptyString
  | [x] => x
  | x :: rest => x +:+ sep +:+ join sep rest
  end.

(** *** JSON.stringify

    [JSON.stringify] on the values above, without indentation.  A string
    is put between double quotes; the double quote, the backslash and the
    control characters are escaped, every other character (and every byte
    of a multi-byte character) is kept. *)
Definition backslash : string := String (ascii_of_nat 92) EmptyString.

Definition hex_digit (n : nat) : string :=
  String.substring n 1 "0123456789abcdef".

Definition escape_char (c : ascii) : string :=
  let n := nat_of_ascii c in
  if (n =? 8)%nat then backslash +:+ "b"
  else if (n =? 9)%nat then backslash +:+ "t"
  else if (n =? 10)%nat then backslash +:+ "n"
  else if (n =? 12)%nat then backslash +:+ "f"
  else if (n =? 13)%nat then backslash +:+ "r"
  else if (n =? 34)%nat then backslash +:+ dquote
  else if (n =? 92)%nat then backslash +:+ backslash
  else if (n <? 32)%nat
       then backslash +:+ "u00" +:+ hex_digit (n / 16)
            +:+ hex_digit (n mod 16)
       else String c EmptyString.

Fixpoint escape (s : string) : string :=
  match s with
  | EmptyString => EmptyString
  | String c s' => escape_char c +:+ escape s'
  end.

Definition quote_json (s : string) : string := dquote +:+ escape s +:+ dquote.

Fixpoint JSON_stringify (j : JSON) : string :=
  match j with
  | JNull => "null"
  | JBool b => if b then "true" else "false"
  | JNumber n => pretty n
  | JString s => quote_json s
  | JArray items => "[" +:+ join "," (map JSON_stringify items) +:+ "]"
  | JObject members =>
      "{" +:+ join ","
                (map (fun member =>
                        let (key, value) := member : string * JSON in
                        quote_json key +:+ ":" +:+ JSON_stringify value)
                   members)
      +:+ "}"
  end.

(** A value that is thrown, or that a promise is rejected with: an
    [Error] object, with its [name] and its [message]. *)
Module JsError.
Record t : Type := mk {
  name : string;
  message : string
}.
End JsError.

(** [new Error(message)]; a message stands for the plain error that
    carries it wherever an error is expected. *)
Definition Error (message : string) : JsError.t :=
  {| JsError.name := "Error"; JsError.message := message |}.
Coercion Error : string >-> JsError.t.

(** [`${error}`] and [String(error)]: [Error.prototype.toString]. *)
Definition Error_toString (error : JsError.t) : string :=
  if String.eqb (JsError.name error) EmptyString then JsError.message error
  else if String.eqb (JsError.message error) EmptyString
       then JsError.name error
       else JsError.name error +:+ ": " +:+ JsError.message error.

(** A promise that has settled. *)
Inductive Settled (A : Type) : Type :=
| Resolved (value : A)
| Rejected (error : JsError.t).
Arguments Resolved {A} value.
Arguments Rejected {A} error.

(** ** Data model of mcp-manager.ts *)

Module McpTool.
Record t : Type := mk {
  name : string;
  description : option string;
  input_schema : JSON;
  serverName : string
}.
End McpTool.

(** One entry of [McpServerConfig.mcpServers].  [args] is [None] when the
    field is absent or is not an array ([Array.isArray] fails). *)
Module ServerConfig.
Record t : Type := mk {
  command : string;
  args : option (list string);
  env : option (list (string * string))
}.
End ServerConfig.

Record McpServerConfig : Type := {
  mcpServers : gmap string ServerConfig.t
}.

(** Clients and transports are external objects; they are told apart by a
    handle. *)
Definition Handle : Type := nat.

Module McpServerConnection.
Record t : Type := mk {
  serverName : string;
  mcp : Handle;
  transport : option Handle;
  tools : list McpTool.t;
  isConnected : bool
}.
End McpServerConnection.

(** A tool as the server lists it in [client.listTools()]. *)
Module ListedTool.
Record t : Type := mk {
  name : string;
  description : option string;
  inputSchema : JSON
}.
End ListedTool.

(** What one connection attempt runs into, once the launch configuration
    has been found valid. *)
Inductive AttemptOutcome : Type :=
| TransportFails (message : option string)
    (* [new StdioClientTransport] throws *)
| ConnectThrows (error : JsError.t)
    (* [client.connect(transport)] throws *)
| ListToolsRejects (error : JsError.t)
    (* [client.listTools()] rejects before the timer fires *)
| ListToolsResolves (listed : list ListedTool.t)
    (* [client.listTools()] resolves before the timer fires *)
| TimerFirst.
    (* the timer rejects first *)

(** ** Data model of api-service.ts *)

Inductive MessageRole : Type := user | assistant | system.

Inductive ContentType : Type := text | tool_use | tool_result.

Module ToolCall.
Record t : Type := mk {
  name : string;
  args : JSON;
  result : option JSON
}.
End ToolCall.

Module MessageContent.
Record t : Type := mk {
  type : ContentType;
  text : option string;
  tool : option ToolCall.t
}.
End MessageContent.

Module Message.
Record t : Type := mk {
  id : string;
  role : MessageRole;
  content : list MessageContent.t;
  createdAt : nat
}.
End Message.

(** [MessageParam] of the model API: the content is a bare string or an
    array of text blocks. *)
Inductive ParamContent : Type :=
| Bare (s : string)
| TextBlocks (texts : list string).

Module MessageParam.
Record t : Type := mk {
  role : MessageRole;
  content : ParamContent
}.
End MessageParam.

Module ApiTool.
Record t : Type := mk {
  name : string;
  description : string;
  input_schema : JSON
}.
End ApiTool.

(** The argument of [anthropic.messages.create].  [tools] is [Some] exactly
    when the request carries [tools] and [tool_choice: auto]. *)
Module CreateParams.
Record t : Type := mk {
  model : string;
  max_tokens : nat;
  messages : list MessageParam.t;
  tools : option (list ApiTool.t)
}.
End CreateParams.

(** An item of [response.content]. *)
Inductive ContentBlock : Type :=
| TextBlock (text : string)
| ToolUseBlock (name : string) (input : JSON)
| OtherBlock.

(** ** The world *)

(** Calls to the outside, each with what came back: the timer of the
    backoff; a launch of a server process with the handshake and the
    discovery that follow; the report of a failed connection attempt on
    the console; the closing of a client and of a transport; a tool call
    handed to a client; a request to the model; a reading of the clock;
    and the discovery of a launch that settles after its timer has
    fired. *)
Inductive Event : Type :=
| EvSleep (ms : nat)
| EvLaunch (h : Handle) (serverName : string) (launch : ServerConfig.t)
    (timeoutMs : nat) (outcome : AttemptOutcome)
| EvConnectFailed (serverName : string) (attempt total : nat)
    (error : JsError.t)
| EvClientClose (h : Handle) (thrown : option JsError.t)
| EvTransportClose (h : Handle) (thrown : option JsError.t)
| EvCallTool (h : Handle) (name : string) (arguments : JSON)
    (outcome : Settled JSON)
| EvCreate (params : CreateParams.t) (outcome : Settled (list ContentBlock))
| EvNow (now : nat)
| EvLate (h : Handle) (outcome : Settled (list ListedTool.t)).

(** The outside: what a launch runs into, whether closing a client or a
    transport throws, how a tool call and a model request settle, and what
    the clock shows; each as a function of the trace so far and of the
    arguments of the call.  [late_answers] tells, for a wait of the retry
    loop, for which launches [client.listTools()] settles during that
    wait, and in which order; it matters only for a launch whose timer
    has fired first. *)
Record Env : Type := {
  launch_server :
    list Event -> string -> ServerConfig.t -> nat -> AttemptOutcome;
  late_answers :
    list Event -> list (Handle * Settled (list ListedTool.t));
  client_close : list Event -> Handle -> option JsError.t;
  transport_close : list Event -> Handle -> option JsError.t;
  client_callTool : list Event -> Handle -> string -> JSON -> Settled JSON;
  messages_create : list Event -> CreateParams.t -> Settled (list ContentBlock);
  Date_now : list Event -> nat
}.

(** The client of the model API, as [new Anthropic({ apiKey, baseURL })]
    builds it. *)
Module Anthropic.
Record t : Type := mk {
  apiKey : string;
  baseURL : string
}.
End Anthropic.

(** The fields of the [McpManager] singleton, those of the [ApiService]
    singleton, [process.env], and the trace.  [serverConnections] is a
    JavaScript [Map]: it iterates in insertion order, so it is kept as an
    association list with distinct keys. *)
Record World : Type := {
  serverConnections : list (string * McpServerConnection.t);
  config : option McpServerConfig;
  anthropic : option Anthropic.t;
  modelName : string;
  baseUrl : string;
  isInitialized : bool;
  process_env : gmap string string;
  trace : list Event
}.

Definition with_serverConnections
    (m : list (string * McpServerConnection.t)) (w : World) : World :=
  {| serverConnections := m; config := config w; anthropic := anthropic w;
     modelName := modelName w; baseUrl := baseUrl w;
     isInitialized := isInitialized w; process_env := process_env w;
     trace := trace w |}.

Definition with_config (c : option McpServerConfig) (w : World) : World :=
  {| serverConnections := serverConnections w; config := c;
     anthropic := anthropic w; modelName := modelName w;
     baseUrl := baseUrl w; isInitialized := isInitialized w;
     process_env := process_env w; trace := trace w |}.

(** [this.anthropic = ..; this.isInitialized = ..] *)
Definition with_client (client : option Anthropic.t) (initialized : bool)
    (w : World) : World :=
  {| serverConnections := serverConnections w; config := config w;
     anthropic := client; modelName := modelName w;
     baseUrl := baseUrl w; isInitialized := initialized;
     process_env := process_env w; trace := trace w |}.

Definition with_modelName (name : string) (w : World) : World :=
  {| serverConnections := serverConnections w; config := config w;
     anthropic := anthropic w; modelName := name;
     baseUrl := baseUrl w; isInitialized := isInitialized w;
     process_env := process_env w; trace := trace w |}.

Definition with_baseUrl (url : string) (w : World) : World :=
  {| serverConnections := serverConnections w; config := config w;
     anthropic := anthropic w; modelName := modelName w;
     baseUrl := url; isInitialized := isInitialized w;
     process_env := process_env w; trace := trace w |}.

Definition with_process_env (vars : gmap string string) (w : World)
  : World :=
  {| serverConnections := serverConnections w; config := config w;
     anthropic := anthropic w; modelName := modelName w;
     baseUrl := baseUrl w; isInitialized := isInitialized w;
     process_env := vars; trace := trace w |}.

Definition with_trace (t : list Event) (w : World) : World :=
  {| serverConnections := serverConnections w; config := config w;
     anthropic := anthropic w; modelName := modelName w;
     baseUrl := baseUrl w; isInitialized := isInitialized w;
     process_env := process_env w; trace := t |}.

(** ** The monad of asynchronous methods *)

(** A call returns a value or throws an error. *)
Inductive Outcome (A : Type) : Type :=
| Returns (a : A)
| Throws (error : JsError.t).
Arguments Returns {A} a.
Arguments Throws {A} error.

Definition M (A : Type) : Type := World -> Outcome A * World.

Definition ret {A} (a : A) : M A := fun w => (Returns a, w).

Definition bind {A B} (m : M A) (k : A -> M B) : M B :=
  fun w =>
    match m w with
    | (Returns a, w') => k a w'
    | (Throws e, w') => (Throws e, w')
    end.

Definition throw {A} (e : JsError.t) : M A := fun w => (Throws e, w).

(** [try { m } catch (e) { handler e }] *)
Definition try_catch {A} (m : M A) (handler : JsError.t -> M A) : M A :=
  fun w =>
    match m w with
    | (Returns a, w') => (Returns a, w')
    | (Throws e, w') => handler e w'
    end.

(** [try { m } finally { cleanup }] *)
Definition try_finally {A} (m : M A) (cleanup : M unit) : M A :=
  fun w =>
    match m w with
    | (r, w') =>
        match cleanup w' with
        | (Returns _, w'') => (r, w'')
        | (Throws e, w'') => (Throws e, w'')
        end
    end.

Definition get : M World := fun w => (Returns w, w).

Definition modify (f : World -> World) : M unit := fun w => (Returns tt, f w).

Definition emit (e : Event) : M unit :=
  modify (fun w => with_trace (trace w ++ [e]) w).

Declare Scope mcp_scope.
Delimit Scope mcp_scope with mcp.
Notation "x <- m ;; k" := (bind m (fun x => k))
  (at level 100, m at next level, right associativity) : mcp_scope.
Notation "m ;;; k" := (bind m (fun _ => k))
  (at level 100, right associativity) : mcp_scope.
Local Open Scope mcp_scope.

(** ** JavaScript [Map] operations *)

Section JsMap.
Context {V : Type}.

Fixpoint map_get (k : string) (m : list (string * V)) : option V :=
    match m with
    | [] => None
    | (k', v) :: rest => if String.eqb k k' then Some v else map_get k rest
    end.

Definition map_has (k : string) (m : list (string * V)) : bool :=
    match map_get k m with Some _ => true | None => false end.

  (** [m.set(k, v)]: an existing key keeps its place, a new key goes last. *)
Fixpoint map_set (k : string) (v : V) (m : list (string * V))
    : list (string * V) :=
    match m with
    | [] => [(k, v)]
    | (k', v') :: rest =>
        if String.eqb k k' then (k', v) :: rest
        else (k', v') :: map_set k v rest
    end.

Definition map_keys (m : list (string * V)) : list string := map fst m.
Definition map_values (m : list (string * V)) : list V := map snd m.
End JsMap.

(** ** McpManager (lib/mcp-manager.ts) *)

Import McpServerConnection.

Section McpManager.
Context (env : Env).

(** *** Calls to the outside: ask the oracle, record the answer *)

(** [new Client], [new StdioClientTransport], [client.connect],
    [client.listTools], raced against the timer.  The merge of
    [process.env] into the child's environment happens behind
    [launch_server]. *)
Definition launch (serverName : string) (serverConfig : ServerConfig.t)
    (timeoutMs : nat) : M (Handle * AttemptOutcome) :=
  w <- get;;
  let h := length (trace w) in
  let outcome :=
    launch_server env (trace w) serverName serverConfig timeoutMs in
  emit (EvLaunch h serverName serverConfig timeoutMs outcome);;;
  ret (h, outcome).

Definition close_client (h : Handle) : M unit :=
  w <- get;;
  let thrown := client_close env (trace w) h in
  emit (EvClientClose h thrown);;;
  match thrown with
  | Some e => throw e
  | None => ret tt
  end.

Definition close_transport (h : Handle) : M unit :=
  w <- get;;
  let thrown := transport_close env (trace w) h in
  emit (EvTransportClose h thrown);;;
  match thrown with
  | Some e => throw e
  | None => ret tt
  end.

(** [targetServer.mcp.callTool({ name, arguments })]; the result object is
    identified with its [content]. *)
Definition mcp_callTool (h : Handle) (name : string) (args : JSON) : M JSON :=
  w <- get;;
  let outcome := client_callTool env (trace w) h name args in
  emit (EvCallTool h name args outcome);;;
  match outcome with
  | Resolved r => ret r
  | Rejected e => throw e
  end.

Definition sleep (ms : nat) : M unit := emit (EvSleep ms).

(** *** Configuration and views *)

Definition loadConfigFromFile : M unit :=
  w <- get;;
  match config w with
  | Some _ => ret tt
  | None => modify (with_config (Some {| mcpServers := ∅ |}))
  end.

Definition setConfig (c : McpServerConfig) : M unit :=
  modify (with_config (Some c)).

Definition getConnectedServers (w : World) : list string :=
  map fst (List.filter (fun entry => isConnected (snd entry))
             (serverConnections w)).

Definition isSpecificServerConnected (serverName : string) (w : World)
  : bool :=
  match map_get serverName (serverConnections w) with
  | Some conn => isConnected conn
  | None => false
  end.

Definition getAllTools (w : World) : list McpTool.t :=
  flat_map (fun connection =>
              if isConnected connection then tools connection else [])
    (map_values (serverConnections w)).

Definition getTools (w : World) : list McpTool.t := getAllTools w.

Definition hasAnyServerConnected (w : World) : bool :=
  (0 <? length (getConnectedServers w))%nat.

Definition isServerConnected (w : World) : bool := hasAnyServerConnected w.

(** *** disconnectServer *)

Definition disconnected (connection : McpServerConnection.t)
  : McpServerConnection.t :=
  {| serverName := serverName connection;
     mcp := mcp connection;
     transport := None;
     tools := [];
     isConnected := false |}.

Definition disconnectServer (serverName : string) : M unit :=
  w <- get;;
  match map_get serverName (serverConnections w) with
  | None => ret tt
  | Some connection =>
      if negb (isConnected connection) then ret tt
      else
        try_catch
          (try_finally
             (try_catch (close_client (mcp connection)) (fun _ => ret tt))
             ((match transport connection with
               | Some t => try_catch (close_transport t) (fun _ => ret tt)
               | None => ret tt
               end);;;
              modify (fun w =>
                with_serverConnections
                  (map_set serverName (disconnected connection)
                     (serverConnections w)) w)))
          (fun error => throw error)
  end.

Fixpoint disconnect_each (serverNames : list string) : M unit :=
  match serverNames with
  | [] => ret tt
  | name :: rest =>
      try_catch (disconnectServer name) (fun _ => ret tt);;;
      disconnect_each rest
  end.

Definition disconnectAll : M unit :=
  w <- get;;
  disconnect_each (map_keys (serverConnections w)).

Definition cleanup : M unit := disconnectAll.

(** *** connectToServer *)

Definition config_missing : string := "MCP配置未设置或无法加载".

Definition server_not_found (serverName : string) : string :=
  "MCP server " +:+ quoted serverName +:+ " not found in config".

Definition config_invalid (serverName : string) : string :=
  "MCP server " +:+ quoted serverName
  +:+ " 配置无效: 必须提供command和args".

Definition connection_closed : string :=
  "MCP服务器连接失败: 连接被意外关闭，可能是服务器启动失败或命令不正确".

Definition timed_out (timeoutMs : nat) : string :=
  "连接到MCP服务器超时 (" +:+ pretty timeoutMs +:+ "ms)".

Definition tag_tools (serverName : string) (listed : list ListedTool.t)
  : list McpTool.t :=
  map (fun tool =>
         {| McpTool.name := ListedTool.name tool;
            McpTool.description :=
              Some (default EmptyString (ListedTool.description tool));
            McpTool.input_schema := ListedTool.inputSchema tool;
            McpTool.serverName := serverName |})
    listed.

(** The body of the [try] of one iteration of the retry loop.  When the
    timer wins the race, the attempt throws and the connection task is
    left running: what the task does when it settles is [settle_late],
    below. *)
Definition attempt_once (serverName : string) (timeoutMs : nat)
  : M (list McpTool.t) :=
  w <- get;;
  (match config w with
   | None => loadConfigFromFile
   | Some _ => ret tt
   end);;;
  w <- get;;
  match config w with
  | None => throw config_missing
  | Some cfg =>
      match mcpServers cfg !! serverName with
      | None => throw (server_not_found serverName)
      | Some serverConfig =>
          if negb (truthy (ServerConfig.command serverConfig))
             || negb (is_Some_bool (ServerConfig.args serverConfig))
          then throw (config_invalid serverName)
          else
            launched <- launch serverName serverConfig timeoutMs;;
            let h := fst launched in
            match snd launched with
            | TransportFails message =>
                throw ("无法创建MCP传输层: "
                       +:+ str_or (default EmptyString message) "未知错误")
            | ConnectThrows connectError =>
                if includes "Connection closed"
                     (JsError.message connectError)
                then throw connection_closed
                else throw connectError
            | ListToolsRejects error =>
                try_catch (close_transport h) (fun _ => ret tt);;;
                throw error
            | ListToolsResolves listed =>
                let serverTools := tag_tools serverName listed in
                modify (fun w =>
                  with_serverConnections
                    (map_set serverName
                       {| serverName := serverName;
                          mcp := h;
                          transport := Some h;
                          tools := serverTools;
                          isConnected := true |}
                       (serverConnections w)) w);;;
                ret serverTools
            | TimerFirst => throw (timed_out timeoutMs)
            end
      end
  end.

(** **** The connection task that lost its race

    [Promise.race] settles on the timer, but nothing cancels the
    connection task.  When its [client.listTools()] settles later, the
    task goes on as it would have in time: it files the connection under
    the name of the server, or it closes its transport; its own [resolve]
    or [reject] is without effect.  The model follows such a task while
    the call that launched it is running.  The registry is not read
    between the start of a wait and the end of the attempt that follows
    it, so a task that settles during that attempt is taken to settle
    during the wait. *)

Definition timed_out_launch (e : Event) : option Handle :=
  match e with
  | EvLaunch h _ _ _ TimerFirst => Some h
  | _ => None
  end.

Definition settled_late (e : Event) : option Handle :=
  match e with
  | EvLate h _ => Some h
  | _ => None
  end.

(** The launches among [evs] whose timer fired first and whose discovery
    has not settled since. *)
Definition pending (evs : list Event) : list Handle :=
  List.filter
    (fun h => negb (existsb (Nat.eqb h) (omap settled_late evs)))
    (omap timed_out_launch evs).

Definition settle_late (serverName : string) (h : Handle)
    (outcome : Settled (list ListedTool.t)) : M unit :=
  emit (EvLate h outcome);;;
  match outcome with
  | Resolved listed =>
      modify (fun w =>
        with_serverConnections
          (map_set serverName
             {| serverName := serverName;
                mcp := h;
                transport := Some h;
                tools := tag_tools serverName listed;
                isConnected := true |}
             (serverConnections w)) w)
  | Rejected _ => try_catch (close_transport h) (fun _ => ret tt)
  end.

(** [start] is the length the trace had when the call began: the
    launches of the call are those of the trace from there on. *)
Fixpoint settle_each (serverName : string) (start : nat)
    (answers : list (Handle * Settled (list ListedTool.t))) : M unit :=
  match answers with
  | [] => ret tt
  | (h, outcome) :: rest =>
      w <- get;;
      (if existsb (Nat.eqb h) (pending (skipn start (trace w)))
       then settle_late serverName h outcome
       else ret tt);;;
      settle_each serverName start rest
  end.

(** [await new Promise(r => setTimeout(r, 1000))] *)
Definition wait_before_retry (serverName : string) (start : nat) : M unit :=
  sleep 1000;;;
  w <- get;;
  settle_each serverName start (late_answers env (trace w)).

(** [for (let attempt = 0; attempt <= retryCount; attempt++)].  [fuel]
    counts the iterations the loop guard still allows,
    [retryCount + 1 - attempt]; when it is used up the statement after the
    loop runs. *)
Fixpoint attempts (serverName : string) (retryCount timeoutMs : nat)
    (start fuel attempt : nat) (lastError : option JsError.t) {struct fuel}
  : M (list McpTool.t) :=
  match fuel with
  | 0 => throw (default (Error "无法连接到MCP服务器") lastError)
  | S fuel' =>
      (if (0 <? attempt)%nat then wait_before_retry serverName start
       else ret tt);;;
      try_catch (attempt_once serverName timeoutMs)
        (fun error =>
           emit (EvConnectFailed serverName (attempt + 1) (retryCount + 1)
                   error);;;
           if (attempt =? retryCount)%nat then throw error
           else attempts serverName retryCount timeoutMs start fuel'
                  (S attempt) (Some error))
  end.

(** The source defaults are [retryCount = 2] and [timeoutMs = 10000]. *)
Definition connectToServer (serverName : string)
    (retryCount timeoutMs : nat) : M (list McpTool.t) :=
  w <- get;;
  (if map_has serverName (serverConnections w)
      && isSpecificServerConnected serverName w
   then try_catch (disconnectServer serverName) (fun _ => ret tt)
   else ret tt);;;
  attempts serverName retryCount timeoutMs (length (trace w))
    (S retryCount) 0 None.

(** *** callTool *)

Definition exposes (name : string) (conn : McpServerConnection.t) : bool :=
  isConnected conn
  && existsb (fun t => String.eqb (McpTool.name t) name) (tools conn).

Definition ToolNotFound (name : string) : string :=
  "未找到支持工具 " +:+ quoted name +:+ " 的已连接MCP服务器".

Definition callTool (name : string) (args : JSON) : M JSON :=
  w <- get;;
  match List.find (exposes name) (map_values (serverConnections w)) with
  | None => throw (ToolNotFound name)
  | Some targetServer =>
      try_catch (mcp_callTool (mcp targetServer) name args)
        (fun error => throw error)
  end.

End McpManager.

(** ** ApiService.sendMessage (lib/api-service.ts) *)

Definition text_block (t : string) : MessageContent.t :=
  {| MessageContent.type := text;
     MessageContent.text := Some t;
     MessageContent.tool := None |}.

Definition toolUse (name : string) (args : JSON) : MessageContent.t :=
  {| MessageContent.type := tool_use;
     MessageContent.text := None;
     MessageContent.tool :=
       Some {| ToolCall.name := name; ToolCall.args := args;
               ToolCall.result := None |} |}.

Definition toolResult (name : string) (args result : JSON)
  : MessageContent.t :=
  {| MessageContent.type := tool_result;
     MessageContent.text := None;
     MessageContent.tool :=
       Some {| ToolCall.name := name; ToolCall.args := args;
               ToolCall.result := Some result |} |}.

(** [c.type === 'text'] *)
Definition is_text (c : MessageContent.t) : bool :=
  match MessageContent.type c with
  | text => true
  | _ => false
  end.

Definition is_TextBlock (c : ContentBlock) : bool :=
  match c with
  | TextBlock _ => true
  | _ => false
  end.

(** The callback of [messages.map] that builds [anthropicMessages]. *)
Definition to_MessageParam (msg : Message.t) : MessageParam.t :=
  let content := Message.content msg in
  if (length content =? 0)%nat
     || ((length content =? 1)%nat
         && match content with c :: _ => is_text c | [] => false end)
  then
    {| MessageParam.role := Message.role msg;
       MessageParam.content :=
         Bare (match content with
               | [] => EmptyString
               | c :: _ => default EmptyString (MessageContent.text c)
               end) |}
  else
    {| MessageParam.role := Message.role msg;
       MessageParam.content :=
         TextBlocks
           (map (fun c => default EmptyString (MessageContent.text c))
              (List.filter is_text content)) |}.

Definition to_ApiTool (tool : McpTool.t) : ApiTool.t :=
  {| ApiTool.name := McpTool.name tool;
     ApiTool.description := default EmptyString (McpTool.description tool);
     ApiTool.input_schema := McpTool.input_schema tool |}.

(** The variables of [sendMessage].  The last three are declared inside the
    loop body and start afresh in every round.  [rounds] is not in the
    source: it keeps the [tempContent] of every finished round, so that
    properties can speak of all the blocks a call produced. *)
Record Vars : Type := {
  messageContent : list MessageContent.t;
  conversationHistory : list MessageParam.t;
  shouldContinue : bool;
  hasAnyToolCalls : bool;
  iterations : nat;
  calledTools : list (string * string);
  rounds : list (list MessageContent.t);
  hasToolCallsThisRound : bool;
  tempContent : list MessageContent.t;
  modelTextResponse : string
}.

Definition push_messageContent (c : MessageContent.t) (v : Vars) : Vars :=
  {| messageContent := messageContent v ++ [c];
     conversationHistory := conversationHistory v;
     shouldContinue := shouldContinue v;
     hasAnyToolCalls := hasAnyToolCalls v;
     iterations := iterations v;
     calledTools := calledTools v;
     rounds := rounds v;
     hasToolCallsThisRound := hasToolCallsThisRound v;
     tempContent := tempContent v;
     modelTextResponse := modelTextResponse v |}.

Definition push_conversationHistory (m : MessageParam.t) (v : Vars) : Vars :=
  {| messageContent := messageContent v;
     conversationHistory := conversationHistory v ++ [m];
     shouldContinue := shouldContinue v;
     hasAnyToolCalls := hasAnyToolCalls v;
     iterations := iterations v;
     calledTools := calledTools v;
     rounds := rounds v;
     hasToolCallsThisRound := hasToolCallsThisRound v;
     tempContent := tempContent v;
     modelTextResponse := modelTextResponse v |}.

Definition set_shouldContinue (b : bool) (v : Vars) : Vars :=
  {| messageContent := messageContent v;
     conversationHistory := conversationHistory v;
     shouldContinue := b;
     hasAnyToolCalls := hasAnyToolCalls v;
     iterations := iterations v;
     calledTools := calledTools v;
     rounds := rounds v;
     hasToolCallsThisRound := hasToolCallsThisRound v;
     tempContent := tempContent v;
     modelTextResponse := modelTextResponse v |}.

(** [calledTools.push(..); hasToolCallsThisRound = true;
    hasAnyToolCalls = true] *)
Definition record_call (name input : string) (v : Vars) : Vars :=
  {| messageContent := messageContent v;
     conversationHistory := conversationHistory v;
     shouldContinue := shouldContinue v;
     hasAnyToolCalls := true;
     iterations := iterations v;
     calledTools := calledTools v ++ [(name, input)];
     rounds := rounds v;
     hasToolCallsThisRound := true;
     tempContent := tempContent v;
     modelTextResponse := modelTextResponse v |}.

Definition push_tempContent (c : MessageContent.t) (v : Vars) : Vars :=
  {| messageContent := messageContent v;
     conversationHistory := conversationHistory v;
     shouldContinue := shouldContinue v;
     hasAnyToolCalls := hasAnyToolCalls v;
     iterations := iterations v;
     calledTools := calledTools v;
     rounds := rounds v;
     hasToolCallsThisRound := hasToolCallsThisRound v;
     tempContent := tempContent v ++ [c];
     modelTextResponse := modelTextResponse v |}.

Definition set_modelTextResponse (t : string) (v : Vars) : Vars :=
  {| messageContent := messageContent v;
     conversationHistory := conversationHistory v;
     shouldContinue := shouldContinue v;
     hasAnyToolCalls := hasAnyToolCalls v;
     iterations := iterations v;
     calledTools := calledTools v;
     rounds := rounds v;
     hasToolCallsThisRound := hasToolCallsThisRound v;
     tempContent := tempContent v;
     modelTextResponse := t |}.

(** [iterations++] and the declarations at the head of the loop body. *)
Definition begin_round (v : Vars) : Vars :=
  {| messageContent := messageContent v;
     conversationHistory := conversationHistory v;
     shouldContinue := shouldContinue v;
     hasAnyToolCalls := hasAnyToolCalls v;
     iterations := S (iterations v);
     calledTools := calledTools v;
     rounds := rounds v;
     hasToolCallsThisRound := false;
     tempContent := [];
     modelTextResponse := EmptyString |}.

(** Bookkeeping only: file the round's [tempContent] under [rounds]. *)
Definition file_round (v : Vars) : Vars :=
  {| messageContent := messageContent v;
     conversationHistory := conversationHistory v;
     shouldContinue := shouldContinue v;
     hasAnyToolCalls := hasAnyToolCalls v;
     iterations := iterations v;
     calledTools := calledTools v;
     rounds := rounds v ++ [tempContent v];
     hasToolCallsThisRound := hasToolCallsThisRound v;
     tempContent := tempContent v;
     modelTextResponse := modelTextResponse v |}.

Definition initial (anthropicMessages : list MessageParam.t) : Vars :=
  {| messageContent := [];
     conversationHistory := anthropicMessages;
     shouldContinue := true;
     hasAnyToolCalls := false;
     iterations := 0;
     calledTools := [];
     rounds := [];
     hasToolCallsThisRound := false;
     tempContent := [];
     modelTextResponse := EmptyString |}.

Definition maxIterations : nat := 20.
Arguments maxIterations : simpl never.

Definition assistant_says (s : string) : MessageParam.t :=
  {| MessageParam.role := assistant; MessageParam.content := Bare s |}.

Definition user_says (s : string) : MessageParam.t :=
  {| MessageParam.role := user; MessageParam.content := Bare s |}.

(** The test on a [tool_use] block.  An entry of [calledTools] holds the
    arguments already serialized, and the test serializes that string once
    more before comparing. *)
Definition isRepeatedCall (called : list (string * string))
    (name : string) (input : JSON) : bool :=
  let toolCallKey := name +:+ ":" +:+ JSON_stringify input in
  existsb (fun tool =>
             String.eqb
               (fst tool +:+ ":" +:+ JSON_stringify (JString (snd tool)))
               toolCallKey)
    called.

Definition explanation (name : string) : string :=
  "我正在尝试使用工具 " +:+ name
  +:+ "，但似乎已经调用过相同的工具。让我整理已获得的信息，为您提供答案。".

Definition placeholder (name : string) : string :=
  "我需要使用工具 " +:+ name +:+ " 来回答您的问题。".

Definition result_line (name : string) (result : JSON) : string :=
  "工具 " +:+ name +:+ " 的结果: " +:+ JSON_stringify result.

(** The template literal renders the thrown value itself. *)
Definition failure_line (name : string) (error : JsError.t) : string :=
  "工具 " +:+ name +:+ " 调用失败: " +:+ Error_toString error.

Definition error_result : JSON :=
  JObject [("error", JString "工具调用失败")].

Definition summary_prompt (question : string) : string :=
  "我提交了一个问题，你尝试使用了多种工具来回答，但似乎需要多次工具调用。请根据目前已获得的信息，总结一下你了解到的内容，并尽可能回答我的问题。原始问题是："
  +:+ question.

(** [messages[messages.length - 1].content.filter(..).map(c => c.text)
    .join(' ')]; [join] renders an absent text as the empty string. *)
Definition question_text (msg : Message.t) : string :=
  join " "
    (map (fun c => default EmptyString (MessageContent.text c))
       (List.filter is_text (Message.content msg))).

(** [initAnthropicClient]: the key, the base URL and the model name are
    read from [process.env]; an absent or empty variable changes nothing.
    The constructor of the client is taken not to throw. *)
Definition initAnthropicClient : M unit :=
  w <- get;;
  let apiKey := default EmptyString (process_env w !! "ANTHROPIC_API_KEY") in
  let envBaseUrl :=
    default EmptyString (process_env w !! "ANTHROPIC_BASE_URL") in
  let envModelName := default EmptyString (process_env w !! "MODEL_NAME") in
  (if truthy apiKey
   then modify (with_client
                  (Some {| Anthropic.apiKey := apiKey;
                           Anthropic.baseURL :=
                             str_or envBaseUrl (baseUrl w) |})
                  true)
   else ret tt);;;
  (if truthy envBaseUrl then modify (with_baseUrl envBaseUrl) else ret tt);;;
  (if truthy envModelName then modify (with_modelName envModelName)
   else ret tt).

Section ApiService.
Context (env : Env).

Definition create (params : CreateParams.t) : M (list ContentBlock) :=
  w <- get;;
  let outcome := messages_create env (trace w) params in
  emit (EvCreate params outcome);;;
  match outcome with
  | Resolved response => ret response
  | Rejected e => throw e
  end.

Definition now : M nat :=
  w <- get;;
  let t := Date_now env (trace w) in
  emit (EvNow t);;;
  ret t.

(** What is done after [mcpManager.callTool] for one fresh [tool_use]
    block, when it resolves and when it throws. *)
Definition on_success (name : string) (input result : JSON) (v : Vars)
  : Vars :=
  let v := push_tempContent (toolResult name input result) v in
  let v := push_messageContent (toolResult name input result) v in
  let v :=
    if truthy (modelTextResponse v) || (iterations v =? 1)%nat
    then push_conversationHistory
           (assistant_says (str_or (modelTextResponse v) (placeholder name)))
           v
    else v in
  push_conversationHistory (user_says (result_line name result)) v.

Definition on_failure (name : string) (input : JSON) (error : JsError.t)
    (v : Vars) : Vars :=
  let v := push_tempContent (toolResult name input error_result) v in
  let v := push_messageContent (toolResult name input error_result) v in
  let v :=
    if truthy (modelTextResponse v)
    then push_conversationHistory (assistant_says (modelTextResponse v)) v
    else v in
  push_conversationHistory (user_says (failure_line name error)) v.

(** The [try]/[catch] around [mcpManager.callTool] for one fresh
    [tool_use] block. *)
Definition execute (name : string) (input : JSON) (v : Vars) : M Vars :=
  try_catch
    (result <- callTool env name input;;
     ret (on_success name input result v))
    (fun error => ret (on_failure name input error v)).

(** [for (const content of response.content)]; the [break] is the branch
    that does not go on with [rest]. *)
Fixpoint process_content (blocks : list ContentBlock) (v : Vars)
  : M Vars :=
  match blocks with
  | [] => ret v
  | TextBlock t :: rest =>
      process_content rest
        (set_modelTextResponse t (push_tempContent (text_block t) v))
  | ToolUseBlock name input :: rest =>
      if isRepeatedCall (calledTools v) name input then
        let v := set_modelTextResponse (explanation name) v in
        let v := push_tempContent (text_block (modelTextResponse v)) v in
        ret (set_shouldContinue false v)
      else
        let v := record_call name (JSON_stringify input) v in
        let v := push_tempContent (toolUse name input) v in
        let v := push_messageContent (toolUse name input) v in
        v <- execute name input v;;
        process_content rest v
  | OtherBlock :: rest => process_content rest v
  end.

(** What follows the [for] in the loop body. *)
Definition end_round (v : Vars) : Vars :=
  file_round
    (if negb (hasToolCallsThisRound v) then
       let v :=
         fold_left (fun v c => push_messageContent c v)
           (List.filter is_text (tempContent v)) v in
       let v :=
         if truthy (modelTextResponse v)
         then push_conversationHistory
                (assistant_says (modelTextResponse v)) v
         else v in
       set_shouldContinue false v
     else v).

Definition round (tools : list ApiTool.t) (v : Vars) : M Vars :=
  let v := begin_round v in
  w <- get;;
  response <- create
    {| CreateParams.model := modelName w;
       CreateParams.max_tokens := 1000;
       CreateParams.messages := conversationHistory v;
       CreateParams.tools :=
         if (0 <? length tools)%nat then Some tools else None |};;
  v <- process_content response v;;
  ret (end_round v).

(** [while (shouldContinue && iterations < maxIterations)].  Every round
    increments [iterations], so [maxIterations] units of fuel are never
    used up before the guard fails (see [while_loop_fuel]). *)
Fixpoint while_loop (tools : list ApiTool.t) (fuel : nat) (v : Vars)
  : M Vars :=
  match fuel with
  | 0 => ret v
  | S fuel' =>
      if shouldContinue v && (iterations v <? maxIterations)%nat then
        v <- round tools v;;
        while_loop tools fuel' v
      else ret v
  end.

Definition no_last_message : JsError.t :=
  {| JsError.name := "TypeError";
     JsError.message :=
       "Cannot read properties of undefined (reading 'content')" |}.

(** After the loop, when it stopped at the cap with a tool call still to
    follow up: one more request, without tools, of which the first text
    block is kept. *)
Definition summarize (messages : list Message.t) (v : Vars) : M Vars :=
  if (maxIterations <=? iterations v)%nat && shouldContinue v then
    match last messages with
    | None => throw no_last_message
    | Some question =>
        w <- get;;
        finalResponse <- create
          {| CreateParams.model := modelName w;
             CreateParams.max_tokens := 1000;
             CreateParams.messages :=
               [user_says (summary_prompt (question_text question))];
             CreateParams.tools := None |};;
        ret (match List.find is_TextBlock finalResponse with
             | Some (TextBlock t) => push_messageContent (text_block t) v
             | _ => v
             end)
    end
  else ret v.

(** Then, when no tool was called and nothing was produced: the original
    messages are sent again, without tools. *)
Definition fall_back (anthropicMessages : list MessageParam.t) (v : Vars)
  : M Vars :=
  if negb (hasAnyToolCalls v) && (length (messageContent v) =? 0)%nat then
    w <- get;;
    originalResponse <- create
      {| CreateParams.model := modelName w;
         CreateParams.max_tokens := 1000;
         CreateParams.messages := anthropicMessages;
         CreateParams.tools := None |};;
    ret (fold_left
           (fun v content =>
              match content with
              | TextBlock t => push_messageContent (text_block t) v
              | _ => v
              end)
           originalResponse v)
  else ret v.

Definition conclude (messages : list Message.t)
    (anthropicMessages : list MessageParam.t) (v : Vars) : M Vars :=
  v <- summarize messages v;;
  fall_back anthropicMessages v.

(** [sendMessage] up to the construction of the returned message. *)
Definition sendMessage_vars (messages : list Message.t) : M Vars :=
  w <- get;;
  (if negb (isInitialized w) then initAnthropicClient else ret tt);;;
  w <- get;;
  match anthropic w with
  | None => throw "Anthropic API密钥未设置"
  | Some _ =>
      let anthropicMessages := map to_MessageParam messages in
      let tools := map to_ApiTool (getTools w) in
      v <- while_loop tools maxIterations (initial anthropicMessages);;
      conclude messages anthropicMessages v
  end.

(** The returned message; the clock is read for [id] and again for
    [createdAt]. *)
Definition build_message (v : Vars) : M Message.t :=
  id <- now;;
  createdAt <- now;;
  ret {| Message.id := pretty id;
         Message.role := assistant;
         Message.content := messageContent v;
         Message.createdAt := createdAt |}.

Definition sendMessage (messages : list Message.t) : M Message.t :=
  v <- sendMessage_vars messages;;
  build_message v.

(** The other methods of [ApiService]. *)
Definition connectToMcpServer (serverName : string)
    (retryCount timeoutMs : nat) : M (list McpTool.t) :=
  try_catch (connectToServer env serverName retryCount timeoutMs)
    (fun error =>
       throw ("MCP服务器连接失败: " +:+ JsError.message error)).

Definition disconnectMcpServer (serverName : string) : M unit :=
  try_catch (disconnectServer env serverName)
    (fun error =>
       throw ("MCP服务器断开连接失败: " +:+ JsError.message error)).

Definition isConnectedToMcpServer (w : World) : bool := isServerConnected w.

Definition getAvailableMcpTools (w : World) : list McpTool.t := getTools w.

Definition setApiKey (apiKey : string) : M unit :=
  if truthy apiKey then
    w <- get;;
    let url :=
      str_or (default EmptyString (process_env w !! "ANTHROPIC_BASE_URL"))
        (baseUrl w) in
    modify (with_client
              (Some {| Anthropic.apiKey := apiKey;
                       Anthropic.baseURL := url |}) true);;;
    modify (fun w =>
              with_process_env
                (<["ANTHROPIC_API_KEY" := apiKey]> (process_env w)) w)
  else modify (with_client None false).

Definition setBaseUrl (url : string) : M unit :=
  if truthy url then
    modify (with_baseUrl url);;;
    w <- get;;
    let apiKey :=
      default EmptyString (process_env w !! "ANTHROPIC_API_KEY") in
    (if truthy apiKey && negb (is_Some_bool (anthropic w))
     then modify (with_client
                    (Some {| Anthropic.apiKey := apiKey;
                             Anthropic.baseURL := url |}) true)
     else ret tt);;;
    modify (fun w =>
              with_process_env
                (<["ANTHROPIC_BASE_URL" := url]> (process_env w)) w)
  else ret tt.

Definition setModel (name : string) : M unit :=
  if truthy name then modify (with_modelName name) else ret tt.

End ApiService.

(** ** The route handlers (app/api)

    A handler is embedded as a function of what [await request.json()]
    settles to: the body, with the fields the handler looks at, or the
    error of a body that cannot be read; reading a field of a body that
    is [null] throws inside the [try] as well, and counts as such an
    error.  A field of the body is absent or holds a value of the type
    the handler uses it at, and so does what [JSON.parse] gives for the
    text of a configuration. *)

(** What [NextResponse.json(body, { status })] answers; the status is 200
    when none is given. *)
Module Response.
Record t (B : Type) : Type := mk {
  status : nat;
  body : B
}.
Arguments mk {B} status body.
Arguments status {B} t.
Arguments body {B} t.
End Response.

(** [xs.includes(x)] on an array of strings. *)
Definition Array_includes (xs : list string) (x : string) : bool :=
  existsb (String.eqb x) xs.

(** The body of a request to /api/config. *)
Module ConfigRequest.
Record t : Type := mk {
  apiKey : option string;
  baseUrl : option string;
  modelName : option string
}.
End ConfigRequest.

(** [{ success: true }] and [{ error }] *)
Inductive ConfigBody : Type :=
| ConfigUpdated
| ConfigFailed (error : string).

(** The body of a request to /api/mcp/connect. *)
Module ConnectRequest.
Record t : Type := mk {
  serverName : option string;
  mcpConfig : option string
}.
End ConnectRequest.


(** [{ success: true, message }], [{ error }] and
    [{ error, success: false }] *)
Inductive DisconnectBody : Type :=
| Disconnected (message : string)
| DisconnectRefused (error : string)
| DisconnectFailed (error : string).

(** [mcpState] in the body of a request to /api/chat. *)
Module McpState.
Record t : Type := mk {
  connected : bool;
  connectedServers : option (list string);
  mcpConfig : option string
}.
End McpState.

(** The body of a request to /api/chat; [messages] is [None] when the
    field is absent or is not an array. *)
Module ChatRequest.
Record t : Type := mk {
  messages : option (list Message.t);
  mcpState : option McpState.t
}.
End ChatRequest.

(** [{ error }] and [{ response }] *)
Inductive ChatBody : Type :=
| ChatFailed (error : string)
| ChatAnswered (response : Message.t).

(** POST /api/config (app/api/config/route.ts) *)
Definition POST_config (request : Settled ConfigRequest.t)
  : M (Response.t ConfigBody) :=
  try_catch
    (match request with
     | Rejected error => throw error
     | Resolved body =>
         (match ConfigRequest.apiKey body with
          | Some apiKey => setApiKey apiKey
          | None => ret tt
          end);;;
         (match ConfigRequest.baseUrl body with
          | Some baseUrl => setBaseUrl baseUrl
          | None => ret tt
          end);;;
         (match ConfigRequest.modelName body with
          | Some modelName => setModel modelName
          | None => ret tt
          end);;;
         ret (Response.mk 200 ConfigUpdated)
     end)
    (fun error =>
       ret (Response.mk 500
              (ConfigFailed
                 (str_or (JsError.message error) "配置更新失败")))).

(** The time limit [connectToMcpServer] takes when it is given none:
    10000 ms. *)
Definition default_timeoutMs : nat := 10 * 1000.

Section Routes.
Context (env : Env).

(** POST /api/mcp/disconnect (app/api/mcp/disconnect/route.ts);
    [request] is the [serverName] of the body, if the body has one. *)
Definition POST_mcp_disconnect (request : Settled (option string))
  : M (Response.t DisconnectBody) :=
  try_catch
    (match request with
     | Rejected error => throw error
     | Resolved body =>
         let serverName := default EmptyString body in
         if negb (truthy serverName)
         then ret (Response.mk 400 (DisconnectRefused "服务器名称不能为空"))
         else
           disconnectMcpServer env serverName;;;
           ret (Response.mk 200
                  (Disconnected
                     ("已断开MCP服务器: " +:+ serverName +:+ "连接")))
     end)
    (fun error =>
       ret (Response.mk 500
              (DisconnectFailed
                 (str_or (JsError.message error) "MCP服务器断开连接失败")))).

(** [JSON.parse] on the text of a configuration: it throws, or it gives a
    value, which the handlers pass to [setConfig] as a configuration. *)
Context (JSON_parse : string -> Settled McpServerConfig).



(** The two loops of the chat handler; an error is logged and the loop
    goes on. *)
Fixpoint disconnect_unwanted (shouldDisconnect : list string) : M unit :=
  match shouldDisconnect with
  | [] => ret tt
  | serverName :: rest =>
      try_catch (disconnectMcpServer env serverName) (fun _ => ret tt);;;
      disconnect_unwanted rest
  end.

Fixpoint connect_missing (shouldConnect : list string) : M unit :=
  match shouldConnect with
  | [] => ret tt
  | serverName :: rest =>
      try_catch
        (connectToMcpServer env serverName 2 default_timeoutMs;;; ret tt)
        (fun _ => ret tt);;;
      connect_missing rest
  end.

(** The chat handler brings the connections of the server in line with
    those the client reports, when it reports any. *)
Definition synchronize (mcpState : option McpState.t) : M unit :=
  match mcpState with
  | None => ret tt
  | Some state =>
      let reported := default [] (McpState.connectedServers state) in
      let mcpConfig := default EmptyString (McpState.mcpConfig state) in
      if McpState.connected state && (0 <? length reported)%nat then
        (if truthy mcpConfig then
           match JSON_parse mcpConfig with
           | Resolved parsed => setConfig parsed
           | Rejected _ => ret tt
           end
         else ret tt);;;
        w <- get;;
        let connectedServers := getConnectedServers w in
        let shouldConnect :=
          List.filter (fun server =>
                         negb (Array_includes connectedServers server))
            reported in
        let shouldDisconnect :=
          List.filter (fun server => negb (Array_includes reported server))
            connectedServers in
        if (0 <? length shouldConnect)%nat
           || (0 <? length shouldDisconnect)%nat
        then
          disconnect_unwanted shouldDisconnect;;;
          connect_missing shouldConnect
        else ret tt
      else ret tt
  end.

(** POST /api/chat (app/api/chat/route.ts) *)
Definition POST_chat (request : Settled ChatRequest.t)
  : M (Response.t ChatBody) :=
  try_catch
    (match request with
     | Rejected error => throw error
     | Resolved body =>
         match ChatRequest.messages body with
         | None => ret (Response.mk 400 (ChatFailed "无效的消息格式"))
         | Some messages =>
             synchronize (ChatRequest.mcpState body);;;
             response <- sendMessage env messages;;
             ret (Response.mk 200 (ChatAnswered response))
         end
     end)
    (fun error =>
       ret (Response.mk 500
              (ChatFailed
                 (str_or (JsError.message error) "请求处理失败")))).

End Routes.

(** * Properties *)

(** ** The monad, unfolded *)

Ltac unfold_monad :=
  unfold bind, ret, throw, try_catch, try_finally, get, modify, emit in *.

Lemma bind_returns {A B} (m : M A) (k : A -> M B) w a w' :
  m w = (Returns a, w') -> bind m k w = k a w'.
Proof. intros H. unfold bind. now rewrite H. Qed.

Lemma bind_throws {A B} (m : M A) (k : A -> M B) w e w' :
  m w = (Throws e, w') -> bind m k w = (Throws e, w').
Proof. intros H. unfold bind. now rewrite H. Qed.

(** ** The JavaScript [Map] *)

Section JsMapFacts.
Context {V : Type}.
Implicit Types (m : list (string * V)) (k : string) (v : V).

Lemma map_get_set_eq k v m : map_get k (map_set k v m) = Some v.
Proof.
  induction m as [|[k' v'] m IH]; simpl.
  - now rewrite String.eqb_refl.
  - destruct (String.eqb k k') eqn:E; simpl; rewrite E; auto.
Qed.

Lemma map_get_set_ne k k' v m :
  k <> k' -> map_get k' (map_set k v m) = map_get k' m.
Proof.
  intros Hne. induction m as [|[k0 v0] m IH]; simpl.
  - destruct (String.eqb k' k) eqn:E; auto.
    apply String.eqb_eq in E. congruence.
  - destruct (String.eqb k k0) eqn:E; simpl.
    + apply String.eqb_eq in E. subst k0.
      destruct (String.eqb k' k) eqn:E'; auto.
      apply String.eqb_eq in E'. congruence.
    + now rewrite IH.
Qed.

(** Setting a key that is present neither adds nor moves an entry. *)
Lemma map_keys_set_present k v v0 m :
  map_get k m = Some v0 -> map_keys (map_set k v m) = map_keys m.
Proof.
  unfold map_keys. induction m as [|[k' v'] m IH]; simpl; [discriminate|].
  destruct (String.eqb k k') eqn:E; simpl; intros H; auto.
  now rewrite IH.
Qed.

(** A present key splits the map around its first entry. *)
Lemma map_get_split k v m :
  map_get k m = Some v ->
  exists before after,
    m = before ++ (k, v) :: after /\ map_get k before = None.
Proof.
  induction m as [|[k' v'] m IH]; simpl; [discriminate|].
  destruct (String.eqb k k') eqn:E.
  - intros [= ->]. apply String.eqb_eq in E. subst k'.
    now exists [], m.
  - intros H. destruct (IH H) as (before & after & -> & Hb).
    exists ((k', v') :: before), after. split; [reflexivity|].
    simpl. now rewrite E.
Qed.

Lemma map_set_split k v v' before after :
  map_get k before = None ->
  map_set k v' (before ++ (k, v) :: after) = before ++ (k, v') :: after.
Proof.
  induction before as [|[k0 v0] before IH]; simpl.
  - now rewrite String.eqb_refl.
  - destruct (String.eqb k k0) eqn:E; [discriminate|].
    intros H. now rewrite IH.
Qed.

End JsMapFacts.

(** ** More on the JavaScript [Map] *)

Section JsMapOrder.
Context {V : Type}.
Implicit Types (m : list (string * V)) (k : string) (v : V).

Lemma map_set_set k v v' m : map_set k v (map_set k v' m) = map_set k v m.
Proof.
  induction m as [|[k0 v0] m IH]; simpl.
  - now rewrite String.eqb_refl.
  - destruct (String.eqb k k0) eqn:E; simpl; rewrite E; [reflexivity|].
    now rewrite IH.
Qed.

Lemma map_get_None_keys k m : map_get k m = None <-> ~ In k (map_keys m).
Proof.
  unfold map_keys. induction m as [|[k0 v0] m IH]; simpl.
  - split; auto.
  - destruct (String.eqb k k0) eqn:E.
    + apply String.eqb_eq in E. subst k0. split; [discriminate|].
      intros H. exfalso. apply H. now left.
    + apply String.eqb_neq in E. rewrite IH. split.
      * intros H [H1|H1]; [congruence|auto].
      * intros H H1. apply H. now right.
Qed.

(** Setting a key that is absent adds it at the end. *)
Lemma map_keys_set_absent k v m :
  map_get k m = None -> map_keys (map_set k v m) = map_keys m ++ [k].
Proof.
  unfold map_keys. induction m as [|[k0 v0] m IH]; simpl; [reflexivity|].
  destruct (String.eqb k k0) eqn:E; [discriminate|].
  intros H. simpl. now rewrite IH.
Qed.

Lemma map_keys_set k v m :
  map_keys (map_set k v m)
  = if map_has k m then map_keys m else map_keys m ++ [k].
Proof.
  unfold map_has. destruct (map_get k m) as [v0|] eqn:Hget.
  - now apply map_keys_set_present with (v0 := v0).
  - now apply map_keys_set_absent.
Qed.

Lemma NoDup_map_set k v m :
  NoDup (map_keys m) -> NoDup (map_keys (map_set k v m)).
Proof.
  intros Hnd. rewrite map_keys_set. unfold map_has.
  destruct (map_get k m) as [v0|] eqn:Hget; [exact Hnd|].
  apply map_get_None_keys in Hget.
  apply NoDup_app. split; [exact Hnd|]. split.
  - intros x Hx Hk. apply list_elem_of_In in Hx, Hk.
    destruct Hk as [<-|[]]. contradiction.
  - apply NoDup_singleton.
Qed.

Lemma map_set_in_key k v m k' v' :
  In (k', v') (map_set k v m) -> In (k', v') m \/ (k' = k /\ v' = v).
Proof.
  induction m as [|[k0 v0] m IH]; simpl.
  - intros [[= <- <-]|[]]. now right.
  - destruct (String.eqb k k0) eqn:E; simpl.
    + apply String.eqb_eq in E. subst k0.
      intros [[= <- <-]|H]; auto.
    + intros [H|H]; auto. destruct (IH H); auto.
Qed.

(** With distinct keys, an entry is what [get] finds under its key. *)
Lemma map_get_nodup k v m :
  NoDup (map_keys m) -> In (k, v) m -> map_get k m = Some v.
Proof.
  unfold map_keys. induction m as [|[k0 v0] m IH]; simpl; [intros _ []|].
  intros Hnd [[= -> ->]|Hin].
  - now rewrite String.eqb_refl.
  - apply NoDup_cons in Hnd as [Hnotin Hnd].
    destruct (String.eqb k k0) eqn:E.
    + apply String.eqb_eq in E. subst k0. exfalso. apply Hnotin.
      apply list_elem_of_In. change k with (fst (k, v)). now apply in_map.
    + now apply IH.
Qed.

Lemma map_get_Some_in k v m : map_get k m = Some v -> In (k, v) m.
Proof.
  induction m as [|[k0 v0] m IH]; simpl; [discriminate|].
  destruct (String.eqb k k0) eqn:E.
  - apply String.eqb_eq in E. subst k0. intros [= ->]. now left.
  - intros H. right. now apply IH.
Qed.

End JsMapOrder.

(** ** callTool *)

Import McpServerConnection.

(** [conn] is connected and lists a tool called [name]. *)
Definition Exposes (name : string) (conn : McpServerConnection.t) : Prop :=
  isConnected conn = true /\
  exists tool, In tool (tools conn) /\ McpTool.name tool = name.

Lemma exposes_iff name conn : exposes name conn = true <-> Exposes name conn.
Proof.
  unfold exposes, Exposes. rewrite andb_true_iff, existsb_exists.
  split; intros [Hc (tool & Hin & Hn)]; (split; [exact Hc|]); exists tool;
    (split; [exact Hin|]).
  - now apply String.eqb_eq.
  - now apply String.eqb_eq.
Qed.

Lemma exposes_false_iff name conn :
  exposes name conn = false <-> ~ Exposes name conn.
Proof.
  rewrite <- exposes_iff. destruct (exposes name conn); split; intros; auto;
    try discriminate; exfalso; auto.
Qed.

(** What [callTool] does once the call is handed to the client [h]. *)
Definition delegated (env : Env) (h : Handle) (name : string) (args : JSON)
    (w : World) : Outcome JSON * World :=
  let outcome := client_callTool env (trace w) h name args in
  (match outcome with
   | Resolved r => Returns r
   | Rejected e => Throws e
   end,
   with_trace (trace w ++ [EvCallTool h name args outcome]) w).

Lemma callTool_found env name args w target :
  List.find (exposes name) (map_values (serverConnections w)) = Some target ->
  callTool env name args w = delegated env (mcp target) name args w.
Proof.
  intros Hfind. unfold callTool, delegated, mcp_callTool.
  unfold_monad. rewrite Hfind. simpl.
  destruct (client_callTool env (trace w) (mcp target) name args);
    reflexivity.
Qed.

Lemma callTool_not_found env name args w :
  List.find (exposes name) (map_values (serverConnections w)) = None ->
  callTool env name args w = (Throws (ToolNotFound name), w).
Proof.
  intros Hfind. unfold callTool. unfold_monad. now rewrite Hfind.
Qed.

Lemma find_first {A} (f : A -> bool) before x after :
  (forall y, In y before -> f y = false) -> f x = true ->
  List.find f (before ++ x :: after) = Some x.
Proof.
  intros Hb Hx. induction before as [|y before IH]; simpl.
  - now rewrite Hx.
  - rewrite (Hb y) by now left. apply IH. intros z Hz. apply Hb. now right.
Qed.

Lemma find_none_all {A} (f : A -> bool) l :
  (forall y, In y l -> f y = false) -> List.find f l = None.
Proof.
  induction l as [|y l IH]; simpl; intros H; [reflexivity|].
  rewrite (H y) by now left. apply IH. intros z Hz. apply H. now right.
Qed.

(** C8.  [callTool] hands the call to the first connection, in the
    insertion order of [serverConnections], that is connected and lists a
    tool called [name]: when the connections are [before ++ target ::
    after], [target] exposes the tool and no connection of [before] does,
    the call goes to the client of [target], whatever [after] holds.  When
    no connection exposes the tool, it throws the tool-not-found error and
    calls nothing. *)
Theorem callTool_routes_to_first_exposing env name args w :
  (forall before target after,
      map_values (serverConnections w) = before ++ target :: after ->
      (forall c, In c before -> ~ Exposes name c) ->
      Exposes name target ->
      callTool env name args w = delegated env (mcp target) name args w)
  /\
  ((forall c, In c (map_values (serverConnections w)) -> ~ Exposes name c) ->
   callTool env name args w = (Throws (ToolNotFound name), w)).
Proof.
  split.
  - intros before target after Hsplit Hbefore Htarget.
    apply callTool_found. rewrite Hsplit. apply find_first.
    + intros c Hc. apply exposes_false_iff. now apply Hbefore.
    + now apply exposes_iff.
  - intros Hnone. apply callTool_not_found. apply find_none_all.
    intros c Hc. apply exposes_false_iff. now apply Hnone.
Qed.

(** C10.  [callTool] leaves the registry as it found it, whether the tool
    is found or not and whether the downstream call resolves or rejects:
    the same entries in the same order, with the same flags and tool
    lists; the configuration is untouched as well. *)
Theorem callTool_leaves_registry env name args w :
  serverConnections (snd (callTool env name args w)) = serverConnections w
  /\ config (snd (callTool env name args w)) = config w
  /\ getConnectedServers (snd (callTool env name args w))
     = getConnectedServers w
  /\ getAllTools (snd (callTool env name args w)) = getAllTools w.
Proof.
  assert (H : serverConnections (snd (callTool env name args w))
              = serverConnections w
              /\ config (snd (callTool env name args w)) = config w).
  { destruct (List.find (exposes name) (map_values (serverConnections w)))
      as [target|] eqn:Hfind.
    - rewrite (callTool_found _ _ _ _ _ Hfind). now split.
    - rewrite (callTool_not_found _ _ _ _ Hfind). now split. }
  destruct H as [Hreg Hcfg]. repeat split; auto.
  - unfold getConnectedServers. now rewrite Hreg.
  - unfold getAllTools. now rewrite Hreg.
Qed.

(** ** An invariant of the registry *)

(** An entry that is not connected has neither tools nor transport. *)
Definition tidy (connection : McpServerConnection.t) : Prop :=
  isConnected connection = false ->
  tools connection = [] /\ transport connection = None.

Definition registry_tidy (w : World) : Prop :=
  forall name connection,
    In (name, connection) (serverConnections w) -> tidy connection.

Lemma map_set_in {V} (k : string) (v : V) m k' v' :
  In (k', v') (map_set k v m) -> In (k', v') m \/ v' = v.
Proof.
  induction m as [|[k0 v0] m IH]; simpl.
  - intros [[= <- <-]|[]]. now right.
  - destruct (String.eqb k k0); simpl.
    + intros [[= <- <-]|H]; auto.
    + intros [H|H]; auto. destruct (IH H); auto.
Qed.

Lemma map_get_in {V} (k : string) (v : V) m :
  map_get k m = Some v -> exists k', In (k', v) m.
Proof.
  induction m as [|[k0 v0] m IH]; simpl; [discriminate|].
  destruct (String.eqb k k0).
  - intros [= ->]. exists k0. now left.
  - intros H. destruct (IH H) as (k' & Hin). exists k'. now right.
Qed.

Lemma registry_tidy_set w w' name connection :
  registry_tidy w ->
  tidy connection ->
  serverConnections w'
  = map_set name connection (serverConnections w) ->
  registry_tidy w'.
Proof.
  intros Hw Hc Hset n c Hin. rewrite Hset in Hin.
  apply map_set_in in Hin as [Hin| ->]; [now apply (Hw n)|exact Hc].
Qed.

Lemma registry_tidy_same w w' :
  registry_tidy w ->
  serverConnections w' = serverConnections w ->
  registry_tidy w'.
Proof. intros Hw Hsame n c Hin. rewrite Hsame in Hin. now apply (Hw n). Qed.

(** ** disconnectServer *)

(** The calls a teardown of [connection] makes, in order: the client is
    closed, then the transport if there is one. *)
Definition teardown_events (env : Env) (connection : McpServerConnection.t)
    (tr : list Event) : list Event :=
  let closing :=
    EvClientClose (mcp connection) (client_close env tr (mcp connection)) in
  closing ::
  match transport connection with
  | Some t => [EvTransportClose t (transport_close env (tr ++ [closing]) t)]
  | None => []
  end.

Lemma disconnectServer_live env serverName w connection :
  map_get serverName (serverConnections w) = Some connection ->
  isConnected connection = true ->
  disconnectServer env serverName w
  = (Returns tt,
     with_serverConnections
       (map_set serverName (disconnected connection) (serverConnections w))
       (with_trace (trace w ++ teardown_events env connection (trace w)) w)).
Proof.
  intros Hget Hlive. unfold disconnectServer, teardown_events.
  unfold bind at 1. unfold get at 1. rewrite Hget, Hlive. simpl.
  unfold close_client, close_transport. unfold_monad. simpl.
  destruct (client_close env (trace w) (mcp connection)) as [e1|];
    destruct (transport connection) as [t|]; simpl;
    try destruct (transport_close env _ t) as [e2|]; simpl;
    unfold with_serverConnections, with_trace; simpl;
    rewrite <- ?app_assoc; reflexivity.
Qed.

Lemma disconnectServer_idle env serverName w :
  isSpecificServerConnected serverName w = false ->
  disconnectServer env serverName w = (Returns tt, w).
Proof.
  unfold isSpecificServerConnected, disconnectServer. unfold_monad.
  destruct (map_get serverName (serverConnections w)) as [connection|];
    [|reflexivity].
  intros ->. reflexivity.
Qed.

Lemma isSpecificServerConnected_after_set serverName connection w w' :
  serverConnections w'
  = map_set serverName connection (serverConnections w) ->
  isSpecificServerConnected serverName w' = isConnected connection.
Proof.
  intros H. unfold isSpecificServerConnected.
  now rewrite H, map_get_set_eq.
Qed.

(** C9.  [disconnectServer] never throws; run a second time in a row it
    returns at once without any effect, so the state after two calls is
    the state after one.  A connection that was live is afterwards stored
    under the same name as not connected, with no tools and no transport,
    and both of its handles have been asked to close; for a name that is
    absent or not connected the first call is already without effect. *)
Theorem disconnectServer_idempotent env serverName w :
  let first := disconnectServer env serverName w in
  let second := disconnectServer env serverName (snd first) in
  fst first = Returns tt
  /\ second = (Returns tt, snd first)
  /\ isSpecificServerConnected serverName (snd first) = false
  /\ (forall connection,
        map_get serverName (serverConnections w) = Some connection ->
        isConnected connection = true ->
        exists stored,
          map_get serverName (serverConnections (snd first)) = Some stored
          /\ isConnected stored = false
          /\ tools stored = []
          /\ transport stored = None
          /\ trace (snd first)
             = trace w ++ teardown_events env connection (trace w))
  /\ (isSpecificServerConnected serverName w = false ->
      first = (Returns tt, w))
  /\ (registry_tidy w ->
      registry_tidy (snd first)
      /\ forall stored,
           map_get serverName (serverConnections (snd first)) = Some stored ->
           isConnected stored = false
           /\ tools stored = []
           /\ transport stored = None).
Proof.
  cbv zeta.
  destruct (isSpecificServerConnected serverName w) eqn:Hlive.
  - unfold isSpecificServerConnected in Hlive.
    destruct (map_get serverName (serverConnections w)) as [connection|]
      eqn:Hget; [|discriminate].
    rewrite (disconnectServer_live env _ _ _ Hget Hlive). simpl.
    assert (Hidle : isSpecificServerConnected serverName
              (with_serverConnections
                 (map_set serverName (disconnected connection)
                    (serverConnections w))
                 (with_trace
                    (trace w ++ teardown_events env connection (trace w)) w))
            = false).
    { now rewrite (isSpecificServerConnected_after_set serverName
                     (disconnected connection) w). }
    split; [reflexivity|].
    split; [now apply disconnectServer_idle|].
    split; [exact Hidle|].
    split.
    { intros c [= <-] _. exists (disconnected connection).
      rewrite map_get_set_eq. now repeat split. }
    split; [discriminate|].
    intros Htidy. split.
    + eapply registry_tidy_set; [exact Htidy| |reflexivity].
      intros _. now split.
    + intros stored. rewrite map_get_set_eq. intros [= <-]. now repeat split.
  - rewrite (disconnectServer_idle env _ _ Hlive). simpl.
    split; [reflexivity|].
    split; [now apply disconnectServer_idle|].
    split; [exact Hlive|].
    split.
    { intros c Hget Hc. unfold isSpecificServerConnected in Hlive.
      rewrite Hget in Hlive. congruence. }
    split; [reflexivity|].
    intros Htidy. split; [exact Htidy|].
    intros stored Hget. unfold isSpecificServerConnected in Hlive.
    rewrite Hget in Hlive. split; [exact Hlive|].
    destruct (map_get_in _ _ _ Hget) as (k & Hin).
    now apply (Htidy k stored Hin).
Qed.

(** The invariant holds of the empty registry and is kept by
    [disconnectServer]. *)
Lemma registry_tidy_empty w : serverConnections w = [] -> registry_tidy w.
Proof. intros H n c Hin. rewrite H in Hin. destruct Hin. Qed.

Lemma disconnectServer_tidy env serverName w :
  registry_tidy w -> registry_tidy (snd (disconnectServer env serverName w)).
Proof.
  intros Htidy.
  destruct (isSpecificServerConnected serverName w) eqn:Hlive.
  - unfold isSpecificServerConnected in Hlive.
    destruct (map_get serverName (serverConnections w)) as [connection|]
      eqn:Hget; [|discriminate].
    rewrite (disconnectServer_live env _ _ _ Hget Hlive). simpl.
    eapply registry_tidy_set; [exact Htidy| |reflexivity].
    intros _. now split.
  - now rewrite (disconnectServer_idle env _ _ Hlive).
Qed.

(** ** connectToServer *)

(** The launch configuration on file for a server, if any. *)
Definition entry_of (serverName : string) (w : World)
  : option ServerConfig.t :=
  match config w with
  | Some cfg => mcpServers cfg !! serverName
  | None => None
  end.

(** The configuration is missing, or it is there and invalid: the command
    is empty or the arguments are not an array. *)
Definition ConfigProblem (serverName : string) (w : World) : Prop :=
  match entry_of serverName w with
  | None => True
  | Some serverConfig =>
      ServerConfig.command serverConfig = EmptyString
      \/ ServerConfig.args serverConfig = None
  end.

Definition config_error (serverName : string) (w : World) : JsError.t :=
  match entry_of serverName w with
  | None => Error (server_not_found serverName)
  | Some _ => Error (config_invalid serverName)
  end.

(** The events of the retry loop itself: a failed attempt as it is
    reported, and the wait before the next. *)
Definition is_retry_event (e : Event) : bool :=
  match e with
  | EvSleep _ | EvConnectFailed _ _ _ _ => true
  | _ => false
  end.

Definition is_launch (e : Event) : bool :=
  match e with
  | EvLaunch _ _ _ _ _ => true
  | _ => false
  end.

(** The retry events of a run of failed attempts numbered from [attempt],
    given the error of each: every attempt but the very first one waits
    1000 ms before it starts. *)
Fixpoint retry_log (serverName : string) (total attempt : nat)
    (errors : list JsError.t) : list Event :=
  match errors with
  | [] => []
  | error :: rest =>
      (if (0 <? attempt)%nat then [EvSleep 1000] else [])
      ++ EvConnectFailed serverName (attempt + 1) total error
         :: retry_log serverName total (S attempt) rest
  end.

Example retry_log_three :
  retry_log "s" 3 0 [Error "e1"; Error "e2"; Error "e3"]
  = [EvConnectFailed "s" 1 3 "e1"; EvSleep 1000;
     EvConnectFailed "s" 2 3 "e2"; EvSleep 1000;
     EvConnectFailed "s" 3 3 "e3"].
Proof. reflexivity. Qed.

Lemma retry_log_failures serverName total attempt errors :
  length (List.filter (fun e => match e with
                                | EvConnectFailed _ _ _ _ => true
                                | _ => false
                                end)
            (retry_log serverName total attempt errors))
  = length errors.
Proof.
  revert attempt. induction errors as [|error rest IH]; intros attempt;
    simpl; [reflexivity|].
  destruct (0 <? attempt)%nat; simpl; now rewrite IH.
Qed.

Lemma retry_log_sleeps serverName total errors :
  length (List.filter (fun e => match e with
                                | EvSleep _ => true
                                | _ => false
                                end)
            (retry_log serverName total 0 errors))
  = length errors - 1.
Proof.
  assert (H : forall errs attempt,
             length (List.filter (fun e => match e with
                                           | EvSleep _ => true
                                           | _ => false
                                           end)
                       (retry_log serverName total (S attempt) errs))
             = length errs).
  { induction errs as [|error rest IH]; intros attempt; simpl;
      [reflexivity|]. now rewrite IH. }
  destruct errors as [|error rest]; simpl; [reflexivity|].
  rewrite H. lia.
Qed.

Lemma retry_log_retry_events serverName total attempt errors :
  List.filter is_retry_event (retry_log serverName total attempt errors)
  = retry_log serverName total attempt errors.
Proof.
  revert attempt. induction errors as [|error rest IH]; intros attempt;
    simpl; [reflexivity|].
  destruct (0 <? attempt)%nat; simpl; now rewrite IH.
Qed.

Lemma retry_log_no_launch serverName total attempt errors :
  List.filter is_launch (retry_log serverName total attempt errors) = [].
Proof.
  revert attempt. induction errors as [|error rest IH]; intros attempt;
    simpl; [reflexivity|].
  destruct (0 <? attempt)%nat; simpl; now rewrite IH.
Qed.

(** The events a computation added between [w] and [w']. *)
Definition since (w w' : World) : list Event :=
  drop (length (trace w)) (trace w').

Lemma since_trace w w' evs : trace w' = trace w ++ evs -> since w w' = evs.
Proof. intros H. unfold since. rewrite H. apply drop_app_length. Qed.

Lemma drop_trace_app start (tr evs : list Event) :
  start <= length tr -> drop start (tr ++ evs) = drop start tr ++ evs.
Proof.
  intros H. rewrite skipn_app.
  replace (start - length tr) with 0 by lia. reflexivity.
Qed.

(** ** Connection tasks that settle late *)

(** What a task that settles late adds to the trace. *)
Definition is_late_event (e : Event) : bool :=
  match e with
  | EvLate _ _ | EvTransportClose _ _ => true
  | _ => false
  end.


(** The entry a connection task files when the tools of its server are
    listed only after its timer has fired: among [evs] the launch runs
    out of time and is answered later. *)
Definition late_entry (serverName : string) (evs : list Event)
    (connection : McpServerConnection.t) : Prop :=
  exists h listed name serverConfig timeoutMs,
    In (EvLaunch h name serverConfig timeoutMs TimerFirst) evs
    /\ In (EvLate h (Resolved listed)) evs
    /\ connection
       = McpServerConnection.mk serverName h (Some h)
           (tag_tools serverName listed) true.

(** The registry [m'] is [m], but for an entry filed late under
    [serverName]. *)
Definition Rewritten (serverName : string) (evs : list Event)
    (m m' : list (string * McpServerConnection.t)) : Prop :=
  m' = m
  \/ exists connection,
       late_entry serverName evs connection
       /\ m' = map_set serverName connection m.

Lemma late_entry_mono serverName evs evs' connection :
  incl evs evs' ->
  late_entry serverName evs connection ->
  late_entry serverName evs' connection.
Proof.
  intros Hincl (h & listed & name & serverConfig & t & Hl & Hr & ->).
  exists h, listed, name, serverConfig, t. auto.
Qed.

Lemma Rewritten_refl serverName evs m : Rewritten serverName evs m m.
Proof. now left. Qed.

Lemma Rewritten_mono serverName evs evs' m m' :
  incl evs evs' ->
  Rewritten serverName evs m m' -> Rewritten serverName evs' m m'.
Proof.
  intros Hincl [->|(c & Hc & ->)]; [now left|right].
  exists c. split; [|reflexivity]. now apply (late_entry_mono _ evs).
Qed.

Lemma Rewritten_trans serverName evs m1 m2 m3 :
  Rewritten serverName evs m1 m2 ->
  Rewritten serverName evs m2 m3 ->
  Rewritten serverName evs m1 m3.
Proof.
  intros [->|(c1 & Hc1 & ->)] [->|(c2 & Hc2 & ->)].
  - now left.
  - right. eauto.
  - right. eauto.
  - right. exists c2. split; [exact Hc2|]. apply map_set_set.
Qed.

Lemma Rewritten_set serverName evs m m' connection :
  Rewritten serverName evs m m' ->
  map_set serverName connection m' = map_set serverName connection m.
Proof.
  intros [->|(c & _ & ->)]; [reflexivity|]. apply map_set_set.
Qed.

Lemma Rewritten_others serverName evs m m' other :
  Rewritten serverName evs m m' ->
  other <> serverName ->
  map_get other m' = map_get other m.
Proof.
  intros [->|(c & _ & ->)] Hne; [reflexivity|].
  now apply map_get_set_ne.
Qed.


Lemma pending_launched evs h :
  In h (pending evs) ->
  exists name serverConfig timeoutMs,
    In (EvLaunch h name serverConfig timeoutMs TimerFirst) evs.
Proof.
  unfold pending. intros H. apply filter_In in H as [H _].
  induction evs as [|e evs IH]; [destruct H|].
  destruct e as [ms|h0 name serverConfig t outcome| | | | | | |];
    try (destruct (IH H) as (n & c & t0 & Hin); exists n, c, t0;
         now right).
  destruct outcome;
    try (destruct (IH H) as (n & c & t0 & Hin); exists n, c, t0;
         now right).
  destruct H as [<-|H].
  - exists name, serverConfig, t. now left.
  - destruct (IH H) as (n & c & t0 & Hin). exists n, c, t0. now right.
Qed.

Lemma pending_none evs : omap timed_out_launch evs = [] -> pending evs = [].
Proof. unfold pending. now intros ->. Qed.

Lemma forallb_late_no_retry late :
  forallb is_late_event late = true ->
  List.filter is_retry_event late = []
  /\ List.filter is_launch late = []
  /\ omap timed_out_launch late = [].
Proof.
  induction late as [|e late IH]; simpl; [auto|].
  intros H. apply andb_true_iff in H as [He Hl].
  destruct (IH Hl) as (H1 & H2 & H3).
  destruct e; simpl in *; try discriminate; auto.
Qed.

Section Connect.
Context (env : Env) (serverName : string) (retryCount timeoutMs : nat).

Lemma loadConfig_entry w :
  exists w',
    (match config w with
     | None => loadConfigFromFile
     | Some _ => ret tt
     end) w = (Returns tt, w')
    /\ serverConnections w' = serverConnections w
    /\ trace w' = trace w
    /\ entry_of serverName w' = entry_of serverName w
    /\ config w' <> None.
Proof.
  unfold loadConfigFromFile, entry_of. unfold_monad.
  destruct (config w) as [cfg|] eqn:Hc; simpl.
  - exists w. rewrite Hc. repeat split; auto.
  - rewrite Hc. eexists. split; [reflexivity|]. simpl.
    repeat split; auto.
Qed.

(** With a missing or invalid configuration an attempt fails before
    anything is launched. *)
Lemma attempt_once_config_problem w :
  ConfigProblem serverName w ->
  exists w',
    attempt_once env serverName timeoutMs w
    = (Throws (config_error serverName w), w')
    /\ serverConnections w' = serverConnections w
    /\ trace w' = trace w
    /\ entry_of serverName w' = entry_of serverName w.
Proof.
  unfold ConfigProblem, config_error, attempt_once, entry_of.
  unfold loadConfigFromFile. unfold_monad.
  destruct (config w) as [cfg|] eqn:Hc; simpl.
  - rewrite Hc.
    destruct (mcpServers cfg !! serverName) as [serverConfig|] eqn:He.
    + intros Hbad. exists w. rewrite Hc, He.
      assert (Hguard : negb (truthy (ServerConfig.command serverConfig))
                       || negb (is_Some_bool (ServerConfig.args serverConfig))
                       = true).
      { destruct Hbad as [-> | ->]; simpl; [reflexivity|].
        apply orb_true_r. }
      rewrite Hguard. auto.
    + intros _. exists w. rewrite Hc, He. auto.
  - intros _. eexists. rewrite Hc. simpl. rewrite lookup_empty.
    repeat split; reflexivity.
Qed.

(** A failed attempt leaves the registry alone, and whatever it logs is
    not a retry event. *)
Lemma attempt_once_throws w e w' :
  attempt_once env serverName timeoutMs w = (Throws e, w') ->
  serverConnections w' = serverConnections w
  /\ entry_of serverName w' = entry_of serverName w
  /\ exists evs,
       trace w' = trace w ++ evs
       /\ List.filter is_retry_event evs = [].
Proof.
  unfold attempt_once.
  destruct (loadConfig_entry w) as (w1 & Hl & Hload).
  unfold bind at 1. unfold get at 1.
  unfold bind at 1. rewrite Hl.
  destruct Hload as (Hsc & Htr & Hent & Hcfg).
  unfold bind at 1. unfold get at 1.
  unfold entry_of in Hent.
  destruct (config w1) as [cfg|] eqn:Hc1; [|congruence].
  destruct (mcpServers cfg !! serverName) as [serverConfig|] eqn:He.
  2:{ unfold throw. intros [= <- <-]. repeat split; auto.
      - unfold entry_of. now rewrite Hc1, He.
      - exists []. now rewrite app_nil_r. }
  destruct (negb (truthy (ServerConfig.command serverConfig))
            || negb (is_Some_bool (ServerConfig.args serverConfig))).
  { unfold throw. intros [= <- <-]. repeat split; auto.
    - unfold entry_of. now rewrite Hc1, He.
    - exists []. now rewrite app_nil_r. }
  unfold launch, close_transport. unfold_monad. simpl.
  set (h := length (trace w1)).
  set (outcome := launch_server env (trace w1) serverName serverConfig
                    timeoutMs).
  destruct outcome as [message|message|error|listed|]; simpl.
  - intros [= <- <-]. simpl. repeat split; auto.
    + unfold entry_of. simpl. now rewrite Hc1, He.
    + eexists. rewrite Htr. split; reflexivity.
  - destruct (includes "Connection closed" (JsError.message message));
      intros [= <- <-]; simpl; repeat split; auto;
      try (unfold entry_of; simpl; now rewrite Hc1, He);
      eexists; rewrite Htr; split; reflexivity.
  - destruct (transport_close env _ h) as [ce|]; simpl;
      intros [= <- <-]; simpl; repeat split; auto;
      try (unfold entry_of; simpl; now rewrite Hc1, He);
      eexists; rewrite Htr, <- app_assoc; split; reflexivity.
  - discriminate.
  - intros [= <- <-]. simpl. repeat split; auto.
    + unfold entry_of. simpl. now rewrite Hc1, He.
    + eexists. rewrite Htr. split; reflexivity.
Qed.

Lemma last_cons_cons {A} (x y : A) l : last (x :: y :: l) = last (y :: l).
Proof. reflexivity. Qed.

Lemma entry_of_config w w' :
  config w' = config w -> entry_of serverName w' = entry_of serverName w.
Proof. unfold entry_of. now intros ->. Qed.

(** A task that settles late, one at a time. *)
Lemma settle_late_run start h outcome w :
  start <= length (trace w) ->
  In h (pending (drop start (trace w))) ->
  exists w' closing,
    settle_late env serverName h outcome w = (Returns tt, w')
    /\ trace w' = trace w ++ EvLate h outcome :: closing
    /\ forallb is_late_event closing = true
    /\ config w' = config w
    /\ Rewritten serverName (drop start (trace w'))
         (serverConnections w) (serverConnections w').
Proof.
  intros Hstart Hin. unfold settle_late, close_transport. unfold_monad.
  destruct outcome as [listed|error]; simpl.
  - eexists _, []. split; [reflexivity|]. simpl.
    split; [reflexivity|]. split; [reflexivity|]. split; [reflexivity|].
    right. eexists. split; [|reflexivity].
    apply pending_launched in Hin as (name & serverConfig & t & Hin).
    exists h, listed, name, serverConfig, t.
    rewrite drop_trace_app by exact Hstart.
    split; [apply in_or_app; now left|].
    split; [apply in_or_app; right; now left|reflexivity].
  - destruct (transport_close env _ h) as [thrown|]; simpl;
      eexists _, [_]; (split; [reflexivity|]); simpl;
      rewrite <- app_assoc; (split; [reflexivity|]);
      (split; [reflexivity|]); (split; [reflexivity|]); now left.
Qed.

Lemma settle_each_run start answers :
  forall w,
    start <= length (trace w) ->
    exists w' late,
      settle_each env serverName start answers w = (Returns tt, w')
      /\ trace w' = trace w ++ late
      /\ forallb is_late_event late = true
      /\ config w' = config w
      /\ Rewritten serverName (drop start (trace w'))
           (serverConnections w) (serverConnections w')
      /\ (pending (drop start (trace w)) = [] -> w' = w).
Proof.
  induction answers as [|[h outcome] rest IH]; intros w Hstart.
  - exists w, []. rewrite app_nil_r. simpl. unfold ret.
    repeat split; auto. apply Rewritten_refl.
  - cbn [settle_each]. unfold bind at 1. unfold get at 1. cbv beta iota.
    unfold bind at 1.
    destruct (existsb (Nat.eqb h) (pending (drop start (trace w))))
      eqn:Hpending.
    + apply existsb_exists in Hpending as (h' & Hin & Heq).
      apply Nat.eqb_eq in Heq. subst h'.
      destruct (settle_late_run start h outcome w Hstart Hin)
        as (w1 & closing & -> & Htr1 & Hlate1 & Hcfg1 & Hreg1).
      assert (Hstart1 : start <= length (trace w1))
        by (rewrite Htr1, length_app; lia).
      destruct (IH w1 Hstart1)
        as (w' & late & Hrun & Htr & Hlate & Hcfg & Hreg & _).
      exists w', (EvLate h outcome :: closing ++ late).
      split; [exact Hrun|].
      split; [rewrite Htr, Htr1, <- app_assoc; reflexivity|].
      split; [simpl; rewrite forallb_app, Hlate1, Hlate; reflexivity|].
      split; [congruence|].
      split.
      * eapply Rewritten_trans; [|exact Hreg].
        eapply Rewritten_mono; [|exact Hreg1].
        rewrite Htr, drop_trace_app by exact Hstart1.
        apply incl_appl, incl_refl.
      * intros Hnone. rewrite Hnone in Hin. destruct Hin.
    + unfold ret at 1. cbv beta iota. apply IH. exact Hstart.
Qed.

(** The wait before an attempt, with the tasks that settle during it. *)
Lemma wait_run start attempt w :
  start <= length (trace w) ->
  exists w0 late,
    (if (0 <? attempt)%nat then wait_before_retry env serverName start
     else ret tt) w = (Returns tt, w0)
    /\ trace w0
       = trace w ++ (if (0 <? attempt)%nat then [EvSleep 1000] else [])
         ++ late
    /\ forallb is_late_event late = true
    /\ config w0 = config w
    /\ Rewritten serverName (drop start (trace w0))
         (serverConnections w) (serverConnections w0)
    /\ (omap timed_out_launch (drop start (trace w)) = [] ->
        late = [] /\ serverConnections w0 = serverConnections w).
Proof.
  intros Hstart. destruct (0 <? attempt)%nat.
  - unfold wait_before_retry, sleep, emit, modify.
    unfold bind at 1. cbv beta iota.
    unfold bind at 1. unfold get at 1. cbv beta iota.
    set (w1 := with_trace (trace w ++ [EvSleep 1000]) w).
    assert (Hstart1 : start <= length (trace w1))
      by (subst w1; simpl; rewrite length_app; lia).
    destruct (settle_each_run start (late_answers env (trace w1)) w1 Hstart1)
      as (w0 & late & Hrun & Htr & Hlate & Hcfg & Hreg & Hnone).
    exists w0, late. split; [exact Hrun|].
    split; [rewrite Htr; subst w1; simpl; now rewrite <- app_assoc|].
    split; [exact Hlate|]. split; [exact Hcfg|]. split; [exact Hreg|].
    intros Hno.
    assert (Hw0 : w0 = w1).
    { apply Hnone, pending_none. subst w1. simpl.
      rewrite drop_trace_app by exact Hstart.
      rewrite omap_app, Hno. reflexivity. }
    subst w0. split; [|reflexivity].
    rewrite <- (app_nil_r (trace w1)) in Htr at 1.
    now apply app_inv_head in Htr.
  - exists w, []. unfold ret. rewrite !app_nil_r.
    repeat split; auto. apply Rewritten_refl.
Qed.

(** The retry loop, when it ends in an error.  The registry is as it was
    but for the entries that late tasks have filed under [serverName]. *)
Lemma attempts_throws start fuel :
  forall attempt lastError w e w',
    attempt + fuel = S retryCount ->
    start <= length (trace w) ->
    attempts env serverName retryCount timeoutMs start fuel attempt
      lastError w
    = (Throws e, w') ->
    Rewritten serverName (drop start (trace w'))
      (serverConnections w) (serverConnections w')
    /\ entry_of serverName w' = entry_of serverName w
    /\ exists evs errors,
         trace w' = trace w ++ evs
         /\ List.filter is_retry_event evs
            = retry_log serverName (retryCount + 1) attempt errors
         /\ length errors = fuel
         /\ (0 < fuel -> last errors = Some e).
Proof.
  induction fuel as [|fuel IH];
    intros attempt lastError w e w' Hsum Hstart.
  - simpl. unfold throw. intros [= <- <-].
    split; [apply Rewritten_refl|]. split; [reflexivity|].
    exists [], []. rewrite app_nil_r. repeat split; auto. lia.
  - cbn [attempts]. unfold bind at 1.
    destruct (wait_run start attempt w Hstart)
      as (w0 & late & -> & Htr0 & Hlate & Hcfg0 & Hreg0 & _).
    destruct (forallb_late_no_retry late Hlate) as (Hlate_retry & _).
    assert (Hstart0 : start <= length (trace w0))
      by (rewrite Htr0, length_app; lia).
    unfold try_catch.
    destruct (attempt_once env serverName timeoutMs w0) as [[ts|err] w1]
      eqn:Hatt; [discriminate|].
    destruct (attempt_once_throws _ _ _ Hatt)
      as (Hsc1 & Hent1 & evs1 & Htr1 & Hfil1).
    assert (Hstart1 : start <= length (trace w1))
      by (rewrite Htr1, length_app; lia).
    unfold bind at 1. unfold emit, modify. cbv beta iota.
    set (w2 := with_trace
                 (trace w1
                  ++ [EvConnectFailed serverName (attempt + 1)
                        (retryCount + 1) err]) w1).
    assert (Hreg2 : Rewritten serverName (drop start (trace w2))
                      (serverConnections w) (serverConnections w2)).
    { subst w2. simpl. rewrite Hsc1.
      eapply Rewritten_mono; [|exact Hreg0].
      rewrite Htr1, <- app_assoc, drop_trace_app by exact Hstart0.
      apply incl_appl, incl_refl. }
    assert (Hent2 : entry_of serverName w2 = entry_of serverName w).
    { transitivity (entry_of serverName w1); [reflexivity|].
      rewrite Hent1. now apply entry_of_config. }
    assert (Htr2 : trace w2
                   = trace w
                     ++ (if (0 <? attempt)%nat then [EvSleep 1000] else [])
                     ++ late ++ evs1
                     ++ [EvConnectFailed serverName (attempt + 1)
                           (retryCount + 1) err]).
    { subst w2. simpl. rewrite Htr1, Htr0, <- !app_assoc. reflexivity. }
    destruct (attempt =? retryCount)%nat eqn:Hlast.
    + unfold throw. intros [= <- <-].
      split; [exact Hreg2|]. split; [exact Hent2|].
      apply Nat.eqb_eq in Hlast.
      eexists _, [err]. split; [exact Htr2|].
      repeat split.
      * rewrite !List.filter_app, Hfil1, Hlate_retry. simpl.
        destruct (0 <? attempt)%nat; reflexivity.
      * simpl. lia.
    + intros Hrest. apply Nat.eqb_neq in Hlast.
      assert (Hstart2 : start <= length (trace w2))
        by (rewrite Htr2, length_app; lia).
      apply IH in Hrest; [|lia|exact Hstart2].
      destruct Hrest as (Hreg3 & Hent3 & evs2 & errors & Htr3 & Hfil3
                         & Hlen & Hlasterr).
      split.
      { eapply Rewritten_trans; [|exact Hreg3].
        eapply Rewritten_mono; [|exact Hreg2].
        rewrite Htr3, drop_trace_app by exact Hstart2.
        apply incl_appl, incl_refl. }
      split; [congruence|].
      eexists _, (err :: errors).
      split; [rewrite Htr3, Htr2, <- !app_assoc; reflexivity|].
      repeat split.
      * rewrite !List.filter_app, Hfil1, Hfil3, Hlate_retry. simpl.
        destruct (0 <? attempt)%nat; reflexivity.
      * simpl. lia.
      * intros _. destruct errors as [|e2 errors]; [simpl in Hlen; lia|].
        rewrite last_cons_cons. apply Hlasterr. lia.
Qed.

(** An attempt returns only when the server has listed its tools in
    time; the new connection is then on file, connected. *)
Lemma attempt_once_returns w serverTools w' :
  attempt_once env serverName timeoutMs w = (Returns serverTools, w') ->
  exists tr serverConfig listed h,
    launch_server env tr serverName serverConfig timeoutMs
    = ListToolsResolves listed
    /\ serverTools = tag_tools serverName listed
    /\ serverConnections w'
       = map_set serverName
           (McpServerConnection.mk serverName h (Some h) serverTools true)
           (serverConnections w).
Proof.
  unfold attempt_once.
  destruct (loadConfig_entry w) as (w1 & Hl & Hsc & Htr & Hent & Hcfg).
  unfold bind at 1. unfold get at 1.
  unfold bind at 1. rewrite Hl.
  unfold bind at 1. unfold get at 1.
  destruct (config w1) as [cfg|]; [|discriminate].
  destruct (mcpServers cfg !! serverName) as [serverConfig|];
    [|discriminate].
  destruct (negb (truthy (ServerConfig.command serverConfig))
            || negb (is_Some_bool (ServerConfig.args serverConfig)));
    [discriminate|].
  unfold launch, close_transport. unfold_monad. simpl.
  destruct (launch_server env (trace w1) serverName serverConfig timeoutMs)
    as [message|message|error|listed|] eqn:Hlaunch; simpl;
    try discriminate.
  - destruct (includes "Connection closed" (JsError.message message));
      discriminate.
  - destruct (transport_close env _ _); discriminate.
  - intros [= <- <-]. simpl.
    exists (trace w1), serverConfig, listed, (length (trace w1)).
    rewrite Hsc. auto.
Qed.

Definition resolves (outcome : AttemptOutcome) : bool :=
  match outcome with
  | ListToolsResolves _ => true
  | _ => false
  end.

(** When the server never lists its tools in time, the retry loop ends in
    an error. *)
Lemma attempts_unresolved start fuel :
  (forall tr serverConfig,
      resolves (launch_server env tr serverName serverConfig timeoutMs)
      = false) ->
  forall attempt lastError w,
  start <= length (trace w) ->
  exists e w',
    attempts env serverName retryCount timeoutMs start fuel attempt
      lastError w
    = (Throws e, w').
Proof.
  intros Hnever.
  induction fuel as [|fuel IH]; intros attempt lastError w Hstart.
  - eexists _, _. reflexivity.
  - cbn [attempts]. unfold bind at 1.
    destruct (wait_run start attempt w Hstart)
      as (w0 & late & -> & Htr0 & _).
    unfold try_catch.
    destruct (attempt_once env serverName timeoutMs w0) as [[ts|err] w1]
      eqn:Hatt.
    + exfalso. apply attempt_once_returns in Hatt
        as (tr & serverConfig & listed & h & Hlaunch & _).
      specialize (Hnever tr serverConfig). rewrite Hlaunch in Hnever.
      discriminate.
    + destruct (attempt_once_throws _ _ _ Hatt)
        as (_ & _ & evs1 & Htr1 & _).
      unfold bind at 1. unfold emit, modify. cbv beta iota.
      destruct (attempt =? retryCount)%nat.
      * eexists _, _. reflexivity.
      * apply IH. simpl. rewrite Htr1, Htr0, !length_app. lia.
Qed.

Lemma registry_tidy_Rewritten evs w w' :
  registry_tidy w ->
  Rewritten serverName evs (serverConnections w) (serverConnections w') ->
  registry_tidy w'.
Proof.
  intros Hw [Hsame|(c & Hc & Hset)].
  - now apply (registry_tidy_same w).
  - eapply registry_tidy_set; [exact Hw| |exact Hset].
    destruct Hc as (h & listed & _ & _ & _ & _ & _ & ->). discriminate.
Qed.

Lemma attempts_tidy start fuel :
  forall attempt lastError w,
    start <= length (trace w) ->
    registry_tidy w ->
    registry_tidy
      (snd (attempts env serverName retryCount timeoutMs start fuel attempt
              lastError w)).
Proof.
  induction fuel as [|fuel IH]; intros attempt lastError w Hstart Hw;
    [exact Hw|].
  cbn [attempts]. unfold bind at 1.
  destruct (wait_run start attempt w Hstart)
    as (w0 & late & -> & Htr0 & _ & _ & Hreg0 & _).
  assert (Hw0 : registry_tidy w0)
    by (eapply registry_tidy_Rewritten; eassumption).
  unfold try_catch.
  destruct (attempt_once env serverName timeoutMs w0) as [[ts|err] w1]
    eqn:Hatt.
  - simpl. apply attempt_once_returns in Hatt
      as (tr & serverConfig & listed & h & _ & _ & Hset).
    eapply registry_tidy_set; [exact Hw0| |exact Hset].
    intros Hc. discriminate.
  - apply attempt_once_throws in Hatt as (Hsc & _ & evs1 & Htr1 & _).
    assert (Hw1 : registry_tidy w1) by (now apply (registry_tidy_same w0)).
    unfold bind at 1. unfold emit, modify. cbv beta iota.
    destruct (attempt =? retryCount)%nat; simpl.
    + now apply (registry_tidy_same w1).
    + apply IH.
      * simpl. rewrite Htr1, Htr0, !length_app. lia.
      * now apply (registry_tidy_same w1).
Qed.

End Connect.

Section ConnectOutcome.
Context (env : Env) (serverName : string) (retryCount timeoutMs : nat).

(** The teardown that opens [connectToServer]. *)
Lemma connect_teardown w :
  exists w1 pre,
    (if map_has serverName (serverConnections w)
        && isSpecificServerConnected serverName w
     then try_catch (disconnectServer env serverName) (fun _ => ret tt)
     else ret tt) w = (Returns tt, w1)
    /\ serverConnections w1
       = match map_get serverName (serverConnections w) with
         | Some connection =>
             if isConnected connection
             then map_set serverName (disconnected connection)
                    (serverConnections w)
             else serverConnections w
         | None => serverConnections w
         end
    /\ entry_of serverName w1 = entry_of serverName w
    /\ trace w1 = trace w ++ pre
    /\ List.filter is_retry_event pre = []
    /\ List.filter is_launch pre = [].
Proof.
  unfold map_has, isSpecificServerConnected.
  destruct (map_get serverName (serverConnections w)) as [connection|]
    eqn:Hget; simpl.
  - destruct (isConnected connection) eqn:Hlive.
    + unfold try_catch.
      rewrite (disconnectServer_live env _ _ _ Hget Hlive).
      eexists. exists (teardown_events env connection (trace w)).
      split; [reflexivity|]. simpl. repeat split.
      * unfold teardown_events. simpl.
        now destruct (transport connection).
      * unfold teardown_events. simpl.
        now destruct (transport connection).
    + exists w, []. rewrite app_nil_r. now repeat split.
  - exists w, []. rewrite app_nil_r. now repeat split.
Qed.

Lemma filter_filter_implied {A} (p q : A -> bool) l :
  (forall x, p x = true -> q x = true) ->
  List.filter p (List.filter q l) = List.filter p l.
Proof.
  intros Hpq. induction l as [|x l IH]; simpl; [reflexivity|].
  destruct (q x) eqn:Hq; simpl.
  - now rewrite IH.
  - destruct (p x) eqn:Hp; [|exact IH].
    apply Hpq in Hp. congruence.
Qed.

Definition is_failure (e : Event) : bool :=
  match e with
  | EvConnectFailed _ _ _ _ => true
  | _ => false
  end.

Definition is_sleep (e : Event) : bool :=
  match e with
  | EvSleep _ => true
  | _ => false
  end.

(** C7.  When no attempt can succeed, because the server never lists its
    tools within the time allowed, [connectToServer] fails.  And a call of
    [connectToServer] that fails has made exactly [retryCount + 1]
    attempts, every one of which failed: they are reported as attempts 1
    to [retryCount + 1], a wait of 1000 ms separates each from the next
    ([retryCount] waits in all, none before the first attempt and none
    after the last), and the error thrown to the caller is the error of
    the last attempt. *)
Theorem connectToServer_retry_ceiling w :
  ((forall tr serverConfig,
       resolves (launch_server env tr serverName serverConfig timeoutMs)
       = false) ->
   exists e w',
     connectToServer env serverName retryCount timeoutMs w = (Throws e, w'))
  /\
  (forall e w',
     connectToServer env serverName retryCount timeoutMs w = (Throws e, w') ->
     exists evs errors,
       trace w' = trace w ++ evs
       /\ List.filter is_retry_event evs
          = retry_log serverName (retryCount + 1) 0 errors
       /\ length errors = retryCount + 1
       /\ last errors = Some e
       /\ length (List.filter is_failure evs) = retryCount + 1
       /\ length (List.filter is_sleep evs) = retryCount).
Proof.
  unfold connectToServer. unfold bind at 1 3. unfold get.
  cbv beta iota.
  destruct (connect_teardown w) as (w1 & pre & Hpre & _ & _ & Htr1 & Hfil1 & _).
  unfold bind. rewrite Hpre.
  assert (Hstart : length (trace w) <= length (trace w1))
    by (rewrite Htr1, length_app; lia).
  split.
  - intros Hnever. now apply attempts_unresolved.
  - intros e w' Hatt.
    apply attempts_throws in Hatt; [|lia|exact Hstart].
    destruct Hatt as (_ & _ & evs & errors & Htr & Hfil & Hlen & Hlast).
    assert (Hall : List.filter is_retry_event (pre ++ evs)
                   = retry_log serverName (retryCount + 1) 0 errors).
    { now rewrite List.filter_app, Hfil1, Hfil. }
    exists (pre ++ evs), errors. repeat split.
    + now rewrite Htr, Htr1, app_assoc.
    + exact Hall.
    + lia.
    + apply Hlast. lia.
    + rewrite <- (filter_filter_implied is_failure is_retry_event)
        by (now intros []).
      rewrite Hall. unfold is_failure.
      rewrite retry_log_failures. lia.
    + rewrite <- (filter_filter_implied is_sleep is_retry_event)
        by (now intros []).
      rewrite Hall. unfold is_sleep.
      rewrite retry_log_sleeps. lia.
Qed.

Lemma no_launch_no_timeout evs :
  List.filter is_launch evs = [] -> omap timed_out_launch evs = [].
Proof.
  induction evs as [|e evs IH]; [reflexivity|].
  destruct e; simpl; try exact IH. discriminate.
Qed.

(** The retry loop under a missing or invalid configuration: nothing
    happens but failures and waits. *)
Lemma attempts_config_problem start fuel :
  forall attempt lastError w,
    ConfigProblem serverName w ->
    attempt + fuel = S retryCount ->
    0 < fuel ->
    start <= length (trace w) ->
    omap timed_out_launch (drop start (trace w)) = [] ->
    exists w',
      attempts env serverName retryCount timeoutMs start fuel attempt
        lastError w
      = (Throws (config_error serverName w), w')
      /\ serverConnections w' = serverConnections w
      /\ trace w'
         = trace w
           ++ retry_log serverName (retryCount + 1) attempt
                (repeat (config_error serverName w) fuel).
Proof.
  induction fuel as [|fuel IH];
    intros attempt lastError w Hbad Hsum Hpos Hstart Hnone; [lia|].
  cbn [attempts]. unfold bind at 1.
  destruct (wait_run env serverName start attempt w Hstart)
    as (w0 & late & -> & Htr0 & _ & Hcfg0 & _ & Hquiet).
  destruct (Hquiet Hnone) as (-> & Hsc0). rewrite app_nil_r in Htr0.
  assert (Hent0 : entry_of serverName w0 = entry_of serverName w)
    by now apply entry_of_config.
  assert (Hbad0 : ConfigProblem serverName w0).
  { unfold ConfigProblem in *. now rewrite Hent0. }
  assert (Herr0 : config_error serverName w0 = config_error serverName w).
  { unfold config_error. now rewrite Hent0. }
  destruct (attempt_once_config_problem env serverName timeoutMs w0 Hbad0)
    as (w1 & Hatt & Hsc1 & Htr1 & Hent1).
  unfold try_catch. rewrite Hatt, Herr0.
  unfold bind at 1. unfold emit, modify. cbv beta iota.
  destruct (attempt =? retryCount)%nat eqn:Hlast.
  - apply Nat.eqb_eq in Hlast. assert (fuel = 0) as -> by lia.
    unfold throw. eexists. split; [reflexivity|]. simpl.
    split; [congruence|].
    rewrite Htr1, Htr0, <- app_assoc. reflexivity.
  - apply Nat.eqb_neq in Hlast.
    set (w2 := with_trace _ w1).
    assert (Hbad2 : ConfigProblem serverName w2).
    { unfold ConfigProblem in *.
      replace (entry_of serverName w2) with (entry_of serverName w1)
        by reflexivity.
      now rewrite Hent1. }
    assert (Herr2 : config_error serverName w2 = config_error serverName w).
    { unfold config_error.
      replace (entry_of serverName w2) with (entry_of serverName w1)
        by reflexivity.
      now rewrite Hent1, Hent0. }
    assert (Htr2 : trace w2
                   = trace w
                     ++ ((if (0 <? attempt)%nat then [EvSleep 1000] else [])
                         ++ [EvConnectFailed serverName (attempt + 1)
                               (retryCount + 1)
                               (config_error serverName w)])).
    { subst w2. simpl. rewrite Htr1, Htr0, <- app_assoc. reflexivity. }
    assert (Hstart2 : start <= length (trace w2))
      by (rewrite Htr2, length_app; lia).
    assert (Hnone2 : omap timed_out_launch (drop start (trace w2)) = []).
    { rewrite Htr2, drop_trace_app by exact Hstart.
      rewrite omap_app, Hnone. now destruct (0 <? attempt)%nat. }
    destruct (IH (S attempt) (Some (config_error serverName w)) w2 Hbad2)
      as (w' & Hrun & Hsc' & Htr'); [lia|lia|exact Hstart2|exact Hnone2|].
    exists w'. rewrite Hrun, Herr2. split; [reflexivity|].
    split; [subst w2; simpl in Hsc'; congruence|].
    rewrite Htr', Herr2, Htr2, <- !app_assoc. reflexivity.
Qed.

(** C3, as the code has it.  When the launch configuration of the server
    is missing or invalid, every attempt fails on the configuration check
    before anything is launched, so the whole call launches nothing; but
    the configuration error goes through the retry loop like any other
    failure: [retryCount + 1] attempts with the wait between them, after
    which the configuration error is thrown. *)
Theorem connectToServer_config_problem w :
  ConfigProblem serverName w ->
  exists w' evs,
    connectToServer env serverName retryCount timeoutMs w
    = (Throws (config_error serverName w), w')
    /\ trace w' = trace w ++ evs
    /\ List.filter is_launch evs = []
    /\ List.filter is_retry_event evs
       = retry_log serverName (retryCount + 1) 0
           (repeat (config_error serverName w) (retryCount + 1))
    /\ length (List.filter is_failure evs) = retryCount + 1
    /\ length (List.filter is_sleep evs) = retryCount.
Proof.
  intros Hbad.
  unfold connectToServer. unfold bind at 1. unfold get at 1.
  destruct (connect_teardown w)
    as (w1 & pre & Hpre & _ & Hent1 & Htr1 & Hfil1 & Hlaunch1).
  unfold bind at 1. rewrite Hpre.
  assert (Hbad1 : ConfigProblem serverName w1).
  { unfold ConfigProblem in *. now rewrite Hent1. }
  assert (Herr1 : config_error serverName w1 = config_error serverName w).
  { unfold config_error. now rewrite Hent1. }
  destruct (attempts_config_problem (length (trace w)) (S retryCount) 0
              None w1 Hbad1)
    as (w' & Hrun & _ & Htr'); [lia|lia| | |].
  { rewrite Htr1, length_app. lia. }
  { rewrite Htr1, drop_app_length. now apply no_launch_no_timeout. }
  rewrite Herr1 in Hrun, Htr'.
  set (log := retry_log serverName (retryCount + 1) 0
                (repeat (config_error serverName w) (S retryCount))) in *.
  assert (Hlog : List.filter is_retry_event log = log)
    by apply retry_log_retry_events.
  assert (Hnolaunch : List.filter is_launch log = [])
    by apply retry_log_no_launch.
  assert (Hall : List.filter is_retry_event (pre ++ log) = log).
  { now rewrite List.filter_app, Hfil1, Hlog. }
  replace (retryCount + 1) with (S retryCount) by lia.
  exists w', (pre ++ log). repeat split.
  - exact Hrun.
  - now rewrite Htr', Htr1, app_assoc.
  - now rewrite List.filter_app, Hlaunch1, Hnolaunch.
  - rewrite Hall. subst log.
    now replace (retryCount + 1) with (S retryCount) by lia.
  - rewrite <- (filter_filter_implied is_failure is_retry_event)
      by (now intros []).
    rewrite Hall. subst log. unfold is_failure.
    now rewrite retry_log_failures, repeat_length.
  - rewrite <- (filter_filter_implied is_sleep is_retry_event)
      by (now intros []).
    rewrite Hall. subst log. unfold is_sleep.
    rewrite retry_log_sleeps, repeat_length. lia.
Qed.







(** [connectToServer] keeps the invariant of the registry, whether it
    succeeds or fails. *)
Lemma connectToServer_tidy w :
  registry_tidy w ->
  registry_tidy
    (snd (connectToServer env serverName retryCount timeoutMs w)).
Proof.
  intros Htidy. unfold connectToServer. unfold bind at 1. unfold get.
  cbv beta iota.
  destruct (connect_teardown w) as (w1 & pre & Hpre & Hsc1 & _ & Htr1 & _).
  unfold bind. rewrite Hpre. apply attempts_tidy.
  { rewrite Htr1, length_app. lia. }
  destruct (map_get serverName (serverConnections w)) as [connection|];
    [|now apply (registry_tidy_same w)].
  destruct (isConnected connection); [|now apply (registry_tidy_same w)].
  eapply registry_tidy_set; [exact Htidy| |exact Hsc1].
  intros _. now split.
Qed.

(** When [connectToServer] returns, it returns the tools the server
    listed, tagged with the server's name, and they are on file under
    that name in a connected entry: the one entry of that name. *)
Lemma connectToServer_returns w serverTools w' :
  connectToServer env serverName retryCount timeoutMs w
  = (Returns serverTools, w') ->
  exists connection,
    map_get serverName (serverConnections w') = Some connection
    /\ isConnected connection = true
    /\ tools connection = serverTools
    /\ Forall (fun tool => McpTool.serverName tool = serverName) serverTools.
Proof.
  unfold connectToServer. unfold bind at 1. unfold get. cbv beta iota.
  destruct (connect_teardown w) as (w1 & pre & Hpre & _ & _ & Htr1 & _).
  unfold bind. rewrite Hpre.
  assert (Hstart : length (trace w) <= length (trace w1))
    by (rewrite Htr1, length_app; lia).
  revert Hstart.
  generalize (length (trace w)) (S retryCount) 0 (@None JsError.t) w1.
  intros start fuel.
  induction fuel as [|fuel IH]; intros attempt lastError w0 Hstart;
    [discriminate|].
  cbn [attempts]. unfold bind at 1.
  destruct (wait_run env serverName start attempt w0 Hstart)
    as (w2 & late & -> & Htr2 & _).
  unfold try_catch.
  destruct (attempt_once env serverName timeoutMs w2) as [[ts|err] w3]
    eqn:Hatt.
  - intros [= <- <-].
    apply attempt_once_returns in Hatt
      as (tr & serverConfig & listed & h & _ & Htools & Hset).
    eexists. rewrite Hset, map_get_set_eq. split; [reflexivity|].
    simpl. split; [reflexivity|]. split; [reflexivity|].
    rewrite Htools. unfold tag_tools.
    clear. induction listed; simpl; constructor; auto.
  - apply attempt_once_throws in Hatt as (_ & _ & evs3 & Htr3 & _).
    unfold bind at 1. unfold emit, modify. cbv beta iota.
    destruct (attempt =? retryCount)%nat; [discriminate|]. apply IH.
    simpl. rewrite Htr3, Htr2, !length_app. lia.
Qed.

End ConnectOutcome.

(** ** The trace of a call *)

(** The requests made to the model, each with its outcome, and the tool
    calls handed to a client. *)
Definition creates (evs : list Event)
  : list (CreateParams.t * Settled (list ContentBlock)) :=
  flat_map (fun e => match e with
                     | EvCreate params outcome => [(params, outcome)]
                     | _ => []
                     end) evs.

Definition tool_calls (evs : list Event) : list (string * JSON) :=
  flat_map (fun e => match e with
                     | EvCallTool _ name args _ => [(name, args)]
                     | _ => []
                     end) evs.

(** [w'] is [w] with [evs] added to the trace and nothing else changed. *)
Definition extends (w w' : World) (evs : list Event) : Prop :=
  w' = with_trace (trace w ++ evs) w.

Lemma extends_refl w : extends w w [].
Proof. unfold extends. rewrite app_nil_r. now destruct w. Qed.

Lemma extends_trans w1 w2 w3 evs1 evs2 :
  extends w1 w2 evs1 -> extends w2 w3 evs2 -> extends w1 w3 (evs1 ++ evs2).
Proof.
  unfold extends. intros -> ->. unfold with_trace. simpl.
  now rewrite app_assoc.
Qed.

Lemma extends_event w e : extends w (with_trace (trace w ++ [e]) w) [e].
Proof. reflexivity. Qed.

Lemma extends_trace w w' evs : extends w w' evs -> trace w' = trace w ++ evs.
Proof. now intros ->. Qed.

Lemma extends_serverConnections w w' evs :
  extends w w' evs -> serverConnections w' = serverConnections w.
Proof. now intros ->. Qed.

Lemma extends_modelName w w' evs :
  extends w w' evs -> modelName w' = modelName w.
Proof. now intros ->. Qed.


Lemma extends_since w w' evs : extends w w' evs -> since w w' = evs.
Proof. intros H. apply since_trace. now apply extends_trace. Qed.

Lemma creates_app evs1 evs2 :
  creates (evs1 ++ evs2) = creates evs1 ++ creates evs2.
Proof. unfold creates. apply flat_map_app. Qed.

Lemma tool_calls_app evs1 evs2 :
  tool_calls (evs1 ++ evs2) = tool_calls evs1 ++ tool_calls evs2.
Proof. unfold tool_calls. apply flat_map_app. Qed.

Lemma callTool_extends env name args w :
  exists evs,
    extends w (snd (callTool env name args w)) evs
    /\ creates evs = []
    /\ length (tool_calls evs) <= 1.
Proof.
  destruct (List.find (exposes name) (map_values (serverConnections w)))
    as [target|] eqn:Hfind.
  - rewrite (callTool_found _ _ _ _ _ Hfind). unfold delegated. simpl.
    eexists. split; [|split]; [unfold extends; simpl; eauto 6| |];
      simpl; auto.
  - rewrite (callTool_not_found _ _ _ _ Hfind). simpl.
    exists []. split; [apply extends_refl|]. simpl. auto.
Qed.

Lemma create_run env params w :
  create env params w
  = (match messages_create env (trace w) params with
     | Resolved response => Returns response
     | Rejected e => Throws e
     end,
     with_trace
       (trace w ++ [EvCreate params (messages_create env (trace w) params)])
       w).
Proof.
  unfold create. unfold_monad. simpl.
  now destruct (messages_create env (trace w) params).
Qed.

Lemma create_extends env params w :
  extends w (snd (create env params w))
    [EvCreate params (messages_create env (trace w) params)].
Proof. rewrite create_run. unfold extends. simpl. auto. Qed.

(** ** What a round adds *)

Definition non_text (c : MessageContent.t) : bool := negb (is_text c).

Definition is_tool_use (c : MessageContent.t) : bool :=
  match MessageContent.type c with
  | tool_use => true
  | _ => false
  end.


(** From [v] to [v'] within one round, [added] being what was pushed on
    [tempContent]: the output accumulator took exactly the blocks of
    [added] that are not text, and the flags record whether a tool was
    used. *)
Record Progress (v v' : Vars) (added : list MessageContent.t) : Prop := {
  progress_tempContent : tempContent v' = tempContent v ++ added;
  progress_messageContent :
    messageContent v' = messageContent v ++ List.filter non_text added;
  progress_hasToolCallsThisRound :
    hasToolCallsThisRound v'
    = hasToolCallsThisRound v || existsb is_tool_use added;
  progress_hasAnyToolCalls :
    hasAnyToolCalls v' = hasAnyToolCalls v || existsb is_tool_use added;
  progress_rounds : rounds v' = rounds v;
  progress_iterations : iterations v' = iterations v;
  progress_only_text :
    existsb is_tool_use added = false -> List.filter non_text added = []
}.

Lemma Progress_refl v : Progress v v [].
Proof.
  constructor; simpl; rewrite ?app_nil_r, ?orb_false_r; auto.
Qed.

Lemma Progress_trans v1 v2 v3 added1 added2 :
  Progress v1 v2 added1 -> Progress v2 v3 added2 ->
  Progress v1 v3 (added1 ++ added2).
Proof.
  intros [] []. constructor.
  - rewrite progress_tempContent1, progress_tempContent0.
    now rewrite app_assoc.
  - rewrite progress_messageContent1, progress_messageContent0.
    now rewrite List.filter_app, app_assoc.
  - rewrite progress_hasToolCallsThisRound1,
      progress_hasToolCallsThisRound0.
    now rewrite existsb_app, orb_assoc.
  - rewrite progress_hasAnyToolCalls1, progress_hasAnyToolCalls0.
    now rewrite existsb_app, orb_assoc.
  - congruence.
  - congruence.
  - rewrite existsb_app, List.filter_app. intros H.
    apply orb_false_iff in H as [H1 H2].
    now rewrite progress_only_text0, progress_only_text1.
Qed.

Lemma Progress_text v t :
  Progress v (set_modelTextResponse t (push_tempContent (text_block t) v))
    [text_block t].
Proof.
  constructor; simpl; rewrite ?app_nil_r, ?orb_false_r; auto.
Qed.

Lemma Progress_repeated v name :
  Progress v
    (set_shouldContinue false
       (push_tempContent (text_block (explanation name))
          (set_modelTextResponse (explanation name) v)))
    [text_block (explanation name)].
Proof.
  constructor; simpl; rewrite ?app_nil_r, ?orb_false_r; auto.
Qed.

Lemma Progress_on_success v name input result :
  Progress v
    (on_success name input result
       (push_messageContent (toolUse name input)
          (push_tempContent (toolUse name input)
             (record_call name (JSON_stringify input) v))))
    [toolUse name input; toolResult name input result].
Proof.
  unfold on_success. cbv zeta.
  match goal with
  | |- context [if ?b then _ else _] => destruct b
  end; constructor; simpl; rewrite <- ?app_assoc, ?orb_true_r; auto;
    discriminate.
Qed.

Lemma Progress_on_failure v name input error :
  Progress v
    (on_failure name input error
       (push_messageContent (toolUse name input)
          (push_tempContent (toolUse name input)
             (record_call name (JSON_stringify input) v))))
    [toolUse name input; toolResult name input error_result].
Proof.
  unfold on_failure. cbv zeta.
  match goal with
  | |- context [if ?b then _ else _] => destruct b
  end; constructor; simpl; rewrite <- ?app_assoc, ?orb_true_r; auto;
    discriminate.
Qed.

Section Rounds.
Context (env : Env).

Lemma execute_run name input v w :
  execute env name input v w
  = (Returns
       match fst (callTool env name input w) with
       | Returns result => on_success name input result v
       | Throws error => on_failure name input error v
       end,
     snd (callTool env name input w)).
Proof.
  unfold execute. unfold_monad.
  now destruct (callTool env name input w) as [[result|error] w1].
Qed.

(** The [for] over a response never throws, adds no request to the model,
    and progresses as [Progress] says. *)
Lemma process_content_progress blocks :
  forall v w,
  exists v' w' evs added,
    process_content env blocks v w = (Returns v', w')
    /\ extends w w' evs
    /\ creates evs = []
    /\ Progress v v' added.
Proof.
  induction blocks as [|block rest IH]; intros v w.
  - exists v, w, [], []. simpl. unfold ret.
    split; [reflexivity|]. split; [apply extends_refl|].
    split; [reflexivity|]. apply Progress_refl.
  - destruct block as [t|name input|]; simpl.
    + destruct (IH (set_modelTextResponse t
                      (push_tempContent (text_block t) v)) w)
        as (v' & w' & evs & added & Hrun & Hext & Hcr & Hprog).
      exists v', w', evs, ([text_block t] ++ added).
      split; [exact Hrun|]. split; [exact Hext|]. split; [exact Hcr|].
      eapply Progress_trans; [apply Progress_text|exact Hprog].
    + destruct (isRepeatedCall (calledTools v) name input).
      * eexists _, w, [], _. unfold ret.
        split; [reflexivity|]. split; [apply extends_refl|].
        split; [reflexivity|]. apply Progress_repeated.
      * unfold bind at 1. rewrite execute_run.
        destruct (callTool_extends env name input w)
          as (evs1 & Hext1 & Hcr1 & _).
        match goal with
        | |- context [process_content env rest ?v1 ?w1] =>
            destruct (IH v1 w1)
              as (v' & w' & evs & added & Hrun & Hext & Hcr & Hprog)
        end.
        destruct (fst (callTool env name input w)) as [result|error].
        -- exists v', w', (evs1 ++ evs),
             ([toolUse name input; toolResult name input result] ++ added).
           split; [exact Hrun|].
           split; [eapply extends_trans; eassumption|].
           split; [now rewrite creates_app, Hcr1, Hcr|].
           eapply Progress_trans; [apply Progress_on_success|exact Hprog].
        -- exists v', w', (evs1 ++ evs),
             ([toolUse name input; toolResult name input error_result]
              ++ added).
           split; [exact Hrun|].
           split; [eapply extends_trans; eassumption|].
           split; [now rewrite creates_app, Hcr1, Hcr|].
           eapply Progress_trans; [apply Progress_on_failure|exact Hprog].
    + apply IH.
Qed.

End Rounds.

(** ** What reaches the returned message *)

(** The part of a round's blocks that the loop puts into the returned
    message: from a round that used a tool, the blocks that are not text;
    from a round that used none, its text blocks. *)
Definition shown (round : list MessageContent.t) : list MessageContent.t :=
  if existsb is_tool_use round then List.filter non_text round
  else List.filter is_text round.

(** The text taken from the request made at the iteration cap, the first
    text block of the answer if it has one, and from the fallback
    request, all its text blocks. *)
Fixpoint first_text (response : list ContentBlock)
  : list MessageContent.t :=
  match response with
  | [] => []
  | TextBlock t :: _ => [text_block t]
  | _ :: rest => first_text rest
  end.

Definition all_texts (response : list ContentBlock)
  : list MessageContent.t :=
  flat_map (fun c => match c with
                     | TextBlock t => [text_block t]
                     | _ => []
                     end) response.



Lemma flush_texts texts v :
  let v' := fold_left (fun v c => push_messageContent c v) texts v in
  messageContent v' = messageContent v ++ texts
  /\ conversationHistory v' = conversationHistory v
  /\ shouldContinue v' = shouldContinue v
  /\ hasAnyToolCalls v' = hasAnyToolCalls v
  /\ iterations v' = iterations v
  /\ calledTools v' = calledTools v
  /\ rounds v' = rounds v
  /\ hasToolCallsThisRound v' = hasToolCallsThisRound v
  /\ tempContent v' = tempContent v
  /\ modelTextResponse v' = modelTextResponse v.
Proof.
  cbv zeta. revert v. induction texts as [|c texts IH]; intros v; simpl.
  - rewrite app_nil_r. repeat split.
  - destruct (IH (push_messageContent c v))
      as (H1 & H2 & H3 & H4 & H5 & H6 & H7 & H8 & H9 & H10).
    rewrite H1, H2, H3, H4, H5, H6, H7, H8, H9, H10. simpl.
    rewrite <- app_assoc. repeat split.
Qed.

Lemma fallback_texts response v :
  messageContent
    (fold_left
       (fun v content =>
          match content with
          | TextBlock t => push_messageContent (text_block t) v
          | _ => v
          end)
       response v)
  = messageContent v ++ all_texts response.
Proof.
  revert v. induction response as [|c response IH]; intros v; simpl.
  - now rewrite app_nil_r.
  - rewrite IH. destruct c; simpl; rewrite <- ?app_assoc; reflexivity.
Qed.

Lemma end_round_shown v0 v added :
  Progress (begin_round v0) v added ->
  rounds (end_round v) = rounds v0 ++ [added]
  /\ messageContent (end_round v) = messageContent v0 ++ shown added
  /\ iterations (end_round v) = S (iterations v0)
  /\ (shouldContinue (end_round v) = true ->
      hasAnyToolCalls (end_round v) = true).
Proof.
  intros [Htemp Hcontent Hround Hany Hrounds Hiter Honly].
  simpl in Htemp, Hcontent, Hround, Hany, Hrounds, Hiter.
  unfold end_round, shown. rewrite Hround.
  destruct (existsb is_tool_use added) eqn:Hused; simpl.
  - rewrite Hrounds, Htemp, Hcontent, Hiter, Hany, orb_true_r. auto.
  - rewrite Honly in Hcontent by reflexivity. rewrite app_nil_r in Hcontent.
    pose proof (flush_texts (List.filter is_text (tempContent v)) v) as F.
    cbv zeta in F.
    destruct F as (F1 & F2 & F3 & F4 & F5 & F6 & F7 & F8 & F9 & F10).
    destruct (truthy _); simpl;
      rewrite ?F1, ?F5, ?F7, ?F9, Hrounds, Htemp, Hcontent, Hiter;
      repeat split; auto; discriminate.
Qed.

Section Loop.
Context (env : Env) (tools : list ApiTool.t).

Lemma round_shown v w v1 w1 :
  round env tools v w = (Returns v1, w1) ->
  exists evs added response,
    extends w w1 evs
    /\ map snd (creates evs) = [Resolved response]
    /\ rounds v1 = rounds v ++ [added]
    /\ messageContent v1 = messageContent v ++ shown added
    /\ iterations v1 = S (iterations v)
    /\ (shouldContinue v1 = true -> hasAnyToolCalls v1 = true).
Proof.
  unfold round. cbv zeta. unfold bind at 1. unfold get at 1.
  cbv beta iota. unfold bind at 1. rewrite create_run.
  match goal with
  | |- context [messages_create env (trace w) ?p] => set (params := p)
  end.
  assert (Hext0 : forall outcome,
             extends w
               (with_trace (trace w ++ [EvCreate params outcome]) w)
               [EvCreate params outcome])
    by (intros; unfold extends; simpl; auto).
  destruct (messages_create env (trace w) params) as [response|e];
    [|discriminate].
  specialize (Hext0 (Resolved response)).
  cbv beta iota. unfold bind at 1.
  match goal with
  | |- context [process_content env response ?v0 ?w0] =>
      destruct (process_content_progress env response v0 w0)
        as (v2 & w2 & evs & added & Hrun & Hext & Hcr & Hprog)
  end.
  rewrite Hrun. unfold ret. intros [= <- <-].
  destruct (end_round_shown _ _ _ Hprog) as (H1 & H2 & H3 & H4).
  exists ([EvCreate params (Resolved response)] ++ evs), added, response.
  split; [eapply extends_trans; eassumption|].
  split; [rewrite creates_app, Hcr; reflexivity|].
  auto.
Qed.

(** While the loop is to go on, a tool has been used. *)
Definition going_on_after_tool (v : Vars) : Prop :=
  shouldContinue v = true -> hasAnyToolCalls v = true.

Lemma while_loop_shown fuel :
  forall v w v' w',
    while_loop env tools fuel v w = (Returns v', w') ->
    exists evs new,
      extends w w' evs
      /\ length (creates evs) = length new
      /\ rounds v' = rounds v ++ new
      /\ messageContent v' = messageContent v ++ flat_map shown new
      /\ iterations v' = iterations v + length new
      /\ (new <> [] \/ going_on_after_tool v -> going_on_after_tool v').
Proof.
  induction fuel as [|fuel IH]; intros v w v' w'.
  - simpl. unfold ret. intros [= <- <-]. exists [], [].
    rewrite !app_nil_r. simpl.
    split; [apply extends_refl|]. repeat split; auto.
    intros [H|H]; [congruence|exact H].
  - simpl.
    destruct (shouldContinue v && (iterations v <? maxIterations)%nat).
    + unfold bind at 1.
      destruct (round env tools v w) as [[v1|e] w1] eqn:Hround;
        [|discriminate].
      intros Hrest.
      destruct (round_shown _ _ _ _ Hround)
        as (evs1 & added & response & Hext1 & Hcr1 & Hr1 & Hm1 & Hi1 & Ha1).
      destruct (IH _ _ _ _ Hrest)
        as (evs2 & new & Hext2 & Hcr2 & Hr2 & Hm2 & Hi2 & Ha2).
      exists (evs1 ++ evs2), (added :: new).
      split; [eapply extends_trans; eassumption|].
      split.
      { rewrite creates_app, length_app, Hcr2.
        rewrite <- (length_map snd (creates evs1)), Hcr1. reflexivity. }
      split; [rewrite Hr2, Hr1, <- app_assoc; reflexivity|].
      split; [rewrite Hm2, Hm1, <- app_assoc; reflexivity|].
      split; [rewrite Hi2, Hi1; simpl; lia|].
      intros _. apply Ha2. right. exact Ha1.
    + unfold ret. intros [= <- <-]. exists [], [].
      rewrite !app_nil_r. simpl.
      split; [apply extends_refl|]. repeat split; auto.
      intros [H|H]; [congruence|exact H].
Qed.

End Loop.

Section Closing.
Context (env : Env).

Lemma summary_pushed response v :
  let v' := match List.find is_TextBlock response with
            | Some (TextBlock t) => push_messageContent (text_block t) v
            | _ => v
            end in
  messageContent v' = messageContent v ++ first_text response
  /\ rounds v' = rounds v
  /\ hasAnyToolCalls v' = hasAnyToolCalls v.
Proof.
  cbv zeta. induction response as [|block rest IH]; simpl.
  - rewrite app_nil_r. auto.
  - destruct block as [t|name input|]; simpl; auto.
Qed.

(** The request made when the loop stops at the iteration cap. *)
Definition summary_request (w : World) (question : Message.t)
  : CreateParams.t :=
  {| CreateParams.model := modelName w;
     CreateParams.max_tokens := 1000;
     CreateParams.messages :=
       [user_says (summary_prompt (question_text question))];
     CreateParams.tools := None |}.

(** The fallback request. *)
Definition plain_request (w : World) (messages : list Message.t)
  : CreateParams.t :=
  {| CreateParams.model := modelName w;
     CreateParams.max_tokens := 1000;
     CreateParams.messages := map to_MessageParam messages;
     CreateParams.tools := None |}.

(** The world after the client has been looked up, and initialized again
    when it was not: the trace and the fields of the manager are
    untouched. *)
Definition after_init (w : World) : World :=
  snd ((if negb (isInitialized w) then initAnthropicClient else ret tt) w).

Lemma init_run w :
  (if negb (isInitialized w) then initAnthropicClient else ret tt) w
  = (Returns tt, after_init w).
Proof.
  unfold after_init, initAnthropicClient. unfold_monad.
  destruct (isInitialized w); simpl; [reflexivity|].
  repeat match goal with
         | |- context [if ?b then _ else _] => destruct b
         end; reflexivity.
Qed.

Lemma after_init_frame w :
  trace (after_init w) = trace w
  /\ serverConnections (after_init w) = serverConnections w
  /\ config (after_init w) = config w.
Proof.
  unfold after_init, initAnthropicClient. unfold_monad.
  destruct (isInitialized w); simpl; [auto|].
  repeat match goal with
         | |- context [if ?b then _ else _] => destruct b
         end; simpl; auto.
Qed.

Lemma after_init_ready w :
  isInitialized w = true -> after_init w = w.
Proof. intros H. unfold after_init. now rewrite H. Qed.

Lemma sendMessage_vars_run messages w :
  sendMessage_vars env messages w
  = match anthropic (after_init w) with
    | None => (Throws "Anthropic API密钥未设置", after_init w)
    | Some _ =>
        (v <- while_loop env (map to_ApiTool (getTools (after_init w)))
                maxIterations (initial (map to_MessageParam messages));;
         conclude env messages (map to_MessageParam messages) v)
          (after_init w)
    end.
Proof.
  unfold sendMessage_vars. unfold bind at 1. unfold get at 1.
  cbv beta iota. unfold bind at 1. rewrite init_run.
  unfold bind at 1. unfold get at 1. cbv beta iota zeta.
  now destruct (anthropic (after_init w)).
Qed.

Lemma build_message_run v w :
  exists id createdAt,
    build_message env v w
    = (Returns {| Message.id := id;
                  Message.role := assistant;
                  Message.content := messageContent v;
                  Message.createdAt := createdAt |},
       with_trace
         (trace w
          ++ [EvNow (Date_now env (trace w));
              EvNow (Date_now env
                       (trace w ++ [EvNow (Date_now env (trace w))]))])
         w).
Proof.
  eexists _, _. unfold build_message, now. unfold_monad. simpl.
  unfold with_trace. simpl. rewrite <- app_assoc. reflexivity.
Qed.

Lemma build_message_extends v w :
  exists evs,
    extends w (snd (build_message env v w)) evs /\ creates evs = [].
Proof.
  destruct (build_message_run v w) as (id & createdAt & ->).
  eexists. split; [unfold extends; simpl; eauto 6|reflexivity].
Qed.

End Closing.

(** ** The test for a repeated call *)

Fixpoint last_char (s : string) : option ascii :=
  match s with
  | EmptyString => None
  | String c s' =>
      match s' with
      | EmptyString => Some c
      | String _ _ => last_char s'
      end
  end.

Lemma last_char_append s t :
  t <> EmptyString -> last_char (s +:+ t) = last_char t.
Proof.
  intros Ht. induction s as [|c s IH]; [reflexivity|].
  change (String c s +:+ t) with (String c (s +:+ t)).
  simpl. destruct (s +:+ t) eqn:E; [|exact IH].
  destruct s; simpl in E; [contradiction|discriminate].
Qed.

Lemma quote_json_last s :
  last_char (quote_json s) = Some (ascii_of_nat 34).
Proof.
  unfold quote_json.
  rewrite last_char_append by (destruct (escape s); discriminate).
  rewrite last_char_append by discriminate. reflexivity.
Qed.

Lemma stringify_object_last members :
  last_char (JSON_stringify (JObject members)) = Some "}"%char.
Proof.
  change (JSON_stringify (JObject members))
    with ("{" +:+ join ","
                    (map (fun member =>
                            let (key, value) := member : string * JSON in
                            quote_json key +:+ ":" +:+ JSON_stringify value)
                       members) +:+ "}").
  rewrite last_char_append.
  - rewrite last_char_append by discriminate. reflexivity.
  - destruct (join _ _); discriminate.
Qed.

Lemma String_length_append s t :
  String.length (s +:+ t) = String.length s + String.length t.
Proof. induction s as [|c s IH]; simpl; [reflexivity|]. now rewrite IH. Qed.

Lemma escape_length s : String.length s <= String.length (escape s).
Proof.
  induction s as [|c s IH]; simpl; [lia|].
  rewrite String_length_append.
  assert (1 <= String.length (escape_char c)); [|lia].
  unfold escape_char.
  repeat match goal with
         | |- context [if ?b then _ else _] => destruct b
         end; simpl; lia.
Qed.

Lemma append_inv_head s t1 t2 : s +:+ t1 = s +:+ t2 -> t1 = t2.
Proof.
  induction s as [|c s IH]; simpl; [auto|]. intros [= H]. now apply IH.
Qed.

(** Serializing a serialized value once more never gives it back. *)
Lemma quote_json_differs s : quote_json s <> s.
Proof.
  intros H. apply (f_equal String.length) in H.
  unfold quote_json in H. rewrite !String_length_append in H. simpl in H.
  pose proof (escape_length s). lia.
Qed.

(** The entry recorded for a call never matches that same call. *)
Lemma isRepeatedCall_same_call name input :
  isRepeatedCall [(name, JSON_stringify input)] name input = false.
Proof.
  unfold isRepeatedCall. simpl. rewrite orb_false_r.
  apply String.eqb_neq. intros H.
  apply append_inv_head in H. apply append_inv_head in H.
  now apply quote_json_differs in H.
Qed.

(** No entry matches a call whose arguments are an object. *)
Lemma isRepeatedCall_object called name members :
  isRepeatedCall called name (JObject members) = false.
Proof.
  unfold isRepeatedCall.
  induction called as [|[n s] called IH]; [reflexivity|].
  cbn [existsb fst snd]. rewrite IH, orb_false_r.
  apply String.eqb_neq. intros H.
  apply (f_equal last_char) in H.
  rewrite !last_char_append in H by discriminate.
  change (JSON_stringify (JString s)) with (quote_json s) in H.
  rewrite quote_json_last, stringify_object_last in H. discriminate.
Qed.

(** ** The iteration cap *)



Lemma on_success_flags name input result v :
  shouldContinue (on_success name input result v) = shouldContinue v
  /\ hasToolCallsThisRound (on_success name input result v)
     = hasToolCallsThisRound v.
Proof.
  unfold on_success. cbv zeta.
  match goal with
  | |- context [if ?b then _ else _] => destruct b
  end; auto.
Qed.

Lemma on_failure_flags name input error v :
  shouldContinue (on_failure name input error v) = shouldContinue v
  /\ hasToolCallsThisRound (on_failure name input error v)
     = hasToolCallsThisRound v.
Proof.
  unfold on_failure. cbv zeta.
  match goal with
  | |- context [if ?b then _ else _] => destruct b
  end; auto.
Qed.

Section Cap.
Context (env : Env) (tools : list ApiTool.t).


Definition round_request (v : Vars) (w : World) : CreateParams.t :=
  {| CreateParams.model := modelName w;
     CreateParams.max_tokens := 1000;
     CreateParams.messages := conversationHistory v;
     CreateParams.tools :=
       if (0 <? length tools)%nat then Some tools else None |}.

Lemma round_run v w :
  round env tools v w
  = match messages_create env (trace w) (round_request v w) with
    | Resolved response =>
        let (r, w2) :=
          process_content env response (begin_round v)
            (with_trace
               (trace w
                ++ [EvCreate (round_request v w) (Resolved response)]) w) in
        (match r with
         | Returns v2 => Returns (end_round v2)
         | Throws e => Throws e
         end, w2)
    | Rejected e =>
        (Throws e,
         with_trace
           (trace w ++ [EvCreate (round_request v w) (Rejected e)]) w)
    end.
Proof.
  unfold round, round_request. cbv zeta. unfold bind at 1. unfold get.
  cbv beta iota. unfold bind at 1. rewrite create_run.
  change (conversationHistory (begin_round v)) with (conversationHistory v).
  destruct (messages_create env (trace w) _) as [response|e];
    cbv beta iota; [|reflexivity].
  unfold bind.
  destruct (process_content env response (begin_round v) _)
    as [[v2|e] w2]; reflexivity.
Qed.

(** One round: a request, then the [for] over the answer if there is
    one. *)
Lemma round_cases v w :
  exists outcome evs,
    extends w (snd (round env tools v w))
      (EvCreate (round_request v w) outcome :: evs)
    /\ creates evs = []
    /\ match outcome with
       | Rejected e => fst (round env tools v w) = Throws e
       | Resolved response =>
           exists v2 added,
             fst (round env tools v w) = Returns (end_round v2)
             /\ Progress (begin_round v) v2 added
             /\ fst (process_content env response (begin_round v)
                       (with_trace
                          (trace w
                           ++ [EvCreate (round_request v w)
                                 (Resolved response)]) w))
                = Returns v2
       end.
Proof.
  rewrite round_run.
  destruct (messages_create env (trace w) (round_request v w))
    as [response|e].
  - destruct (process_content_progress env response (begin_round v)
                (with_trace
                   (trace w
                    ++ [EvCreate (round_request v w) (Resolved response)])
                   w))
      as (v2 & w2 & evs & added & Hrun & Hext & Hcr & Hprog).
    rewrite Hrun. simpl.
    exists (Resolved response), evs.
    split.
    { change (EvCreate (round_request v w) (Resolved response) :: evs)
        with ([EvCreate (round_request v w) (Resolved response)] ++ evs).
      eapply extends_trans; [|exact Hext].
      unfold extends. simpl. auto. }
    split; [exact Hcr|].
    exists v2, added. rewrite Hrun. auto.
  - exists (Rejected e), []. simpl. unfold extends. simpl. auto 6.
Qed.

Lemma while_loop_extends fuel :
  forall v w,
  exists evs, extends w (snd (while_loop env tools fuel v w)) evs.
Proof.
  induction fuel as [|fuel IH]; intros v w.
  - exists []. apply extends_refl.
  - simpl.
    destruct (shouldContinue v && (iterations v <? maxIterations)%nat).
    + unfold bind.
      destruct (round_cases v w) as (outcome & evs1 & Hext1 & _).
      destruct (round env tools v w) as [[v1|e] w1]; simpl in Hext1.
      * destruct (IH v1 w1) as (evs2 & Hext2).
        eexists. eapply extends_trans; eassumption.
      * eexists. exact Hext1.
    + exists []. apply extends_refl.
Qed.

Lemma round_iterations v w v1 w1 :
  round env tools v w = (Returns v1, w1) ->
  iterations v1 = S (iterations v).
Proof.
  intros Hround. destruct (round_cases v w) as (outcome & evs & _ & _ & Hout).
  rewrite Hround in Hout. simpl in Hout.
  destruct outcome as [response|e]; [|discriminate].
  destruct Hout as (v2 & added & [= ->] & Hprog & _).
  destruct (end_round_shown _ _ _ Hprog) as (_ & _ & Hiter & _).
  exact Hiter.
Qed.

(** The loop never stops for want of fuel: once the fuel covers the rounds
    the guard still allows, more fuel changes nothing. *)
Lemma while_loop_fuel fuel :
  forall v w,
    maxIterations <= iterations v + fuel ->
    while_loop env tools (S fuel) v w = while_loop env tools fuel v w.
Proof.
  induction fuel as [|fuel IH]; intros v w Hfuel.
  - simpl. assert (Hguard : (iterations v <? maxIterations)%nat = false)
      by (apply Nat.ltb_ge; lia).
    now rewrite Hguard, andb_false_r.
  - change (while_loop env tools (S (S fuel)) v w)
      with ((if shouldContinue v && (iterations v <? maxIterations)%nat
             then v1 <- round env tools v;;
                  while_loop env tools (S fuel) v1
             else ret v) w).
    change (while_loop env tools (S fuel) v w)
      with ((if shouldContinue v && (iterations v <? maxIterations)%nat
             then v1 <- round env tools v;; while_loop env tools fuel v1
             else ret v) w).
    destruct (shouldContinue v && (iterations v <? maxIterations)%nat);
      [|reflexivity].
    unfold bind.
    destruct (round env tools v w) as [[v1|e] w1] eqn:Hround;
      [|reflexivity].
    apply IH. rewrite (round_iterations _ _ _ _ Hround). lia.
Qed.




End Cap.

Section IterationCap.
Context (env : Env).

Lemma summarize_run messages v w :
  summarize env messages v w
  = if (maxIterations <=? iterations v)%nat && shouldContinue v then
      match last messages with
      | None => (Throws no_last_message, w)
      | Some question =>
          (match messages_create env (trace w) (summary_request w question)
           with
           | Resolved response =>
               Returns
                 match List.find is_TextBlock response with
                 | Some (TextBlock t) => push_messageContent (text_block t) v
                 | _ => v
                 end
           | Rejected e => Throws e
           end,
           with_trace
             (trace w
              ++ [EvCreate (summary_request w question)
                    (messages_create env (trace w)
                       (summary_request w question))]) w)
      end
    else (Returns v, w).
Proof.
  unfold summarize, summary_request.
  destruct ((maxIterations <=? iterations v)%nat && shouldContinue v);
    [|reflexivity].
  destruct (last messages) as [question|]; [|reflexivity].
  unfold bind at 1. unfold get. cbv beta iota.
  unfold bind. rewrite create_run.
  now destruct (messages_create env (trace w) _).
Qed.

Lemma fall_back_run anthropicMessages v w :
  fall_back env anthropicMessages v w
  = if negb (hasAnyToolCalls v) && (length (messageContent v) =? 0)%nat then
      let params :=
        {| CreateParams.model := modelName w;
           CreateParams.max_tokens := 1000;
           CreateParams.messages := anthropicMessages;
           CreateParams.tools := None |} in
      (match messages_create env (trace w) params with
       | Resolved response =>
           Returns
             (fold_left
                (fun v content =>
                   match content with
                   | TextBlock t => push_messageContent (text_block t) v
                   | _ => v
                   end)
                response v)
       | Rejected e => Throws e
       end,
       with_trace
         (trace w ++ [EvCreate params (messages_create env (trace w) params)])
         w)
    else (Returns v, w).
Proof.
  unfold fall_back.
  destruct (negb (hasAnyToolCalls v)
            && (length (messageContent v) =? 0)%nat); [|reflexivity].
  unfold bind at 1. unfold get. cbv beta iota zeta.
  unfold bind. rewrite create_run.
  now destruct (messages_create env (trace w) _).
Qed.

Lemma summarize_extends messages v w :
  exists evs, extends w (snd (summarize env messages v w)) evs.
Proof.
  rewrite summarize_run.
  destruct ((maxIterations <=? iterations v)%nat && shouldContinue v);
    [|exists []; apply extends_refl].
  destruct (last messages) as [question|];
    [|exists []; apply extends_refl].
  eexists. unfold extends. simpl. eauto 6.
Qed.

Lemma fall_back_extends anthropicMessages v w :
  exists evs, extends w (snd (fall_back env anthropicMessages v w)) evs.
Proof.
  rewrite fall_back_run.
  destruct (negb (hasAnyToolCalls v)
            && (length (messageContent v) =? 0)%nat);
    [|exists []; apply extends_refl].
  eexists. unfold extends. simpl. eauto 6.
Qed.

(** Whatever happens after the loop only adds to the trace. *)
Lemma after_loop_extends messages anthropicMessages v w :
  exists evs,
    extends w
      (snd ((v <- conclude env messages anthropicMessages v;;
             build_message env v) w)) evs.
Proof.
  unfold conclude. unfold bind at 1. unfold bind at 1.
  destruct (summarize_extends messages v w) as (evs1 & Hext1).
  destruct (summarize env messages v w) as [[v1|e] w1]; simpl in Hext1;
    [|exists evs1; exact Hext1].
  destruct (fall_back_extends anthropicMessages v1 w1) as (evs2 & Hext2).
  destruct (fall_back env anthropicMessages v1 w1) as [[v2|e] w2];
    simpl in Hext2.
  - destruct (build_message_extends env v2 w2) as (evs3 & Hext3 & _).
    eexists. eapply extends_trans; [|exact Hext3].
    eapply extends_trans; eassumption.
  - eexists. eapply extends_trans; eassumption.
Qed.

Lemma sendMessage_run messages w :
  sendMessage env messages w
  = match anthropic (after_init w) with
    | None => (Throws "Anthropic API密钥未设置", after_init w)
    | Some _ =>
        let (r0, w0) :=
          while_loop env (map to_ApiTool (getTools (after_init w)))
            maxIterations (initial (map to_MessageParam messages))
            (after_init w) in
        match r0 with
        | Returns v0 =>
            (v <- conclude env messages (map to_MessageParam messages) v0;;
             build_message env v) w0
        | Throws e => (Throws e, w0)
        end
    end.
Proof.
  unfold sendMessage. unfold bind at 1.
  rewrite sendMessage_vars_run.
  destruct (anthropic (after_init w)); [|reflexivity].
  unfold bind.
  destruct (while_loop env _ _ _ (after_init w)) as [[v0|e] w0];
    [|reflexivity].
  destruct (conclude env messages _ v0 w0) as [[v1|e] w1]; reflexivity.
Qed.

Lemma sendMessage_cases messages w client :
  isInitialized w = true ->
  anthropic w = Some client ->
  sendMessage env messages w
  = let (r0, w0) :=
      while_loop env (map to_ApiTool (getTools w)) maxIterations
        (initial (map to_MessageParam messages)) w in
    match r0 with
    | Returns v0 =>
        (v <- conclude env messages (map to_MessageParam messages) v0;;
         build_message env v) w0
    | Throws e => (Throws e, w0)
    end.
Proof.
  intros Hinit Hclient.
  now rewrite sendMessage_run, (after_init_ready w Hinit), Hclient.
Qed.

(** Whatever [sendMessage] does, tool calls included, the registry and
    the configuration of the manager are afterwards what they were. *)
Lemma sendMessage_leaves_registry messages w :
  serverConnections (snd (sendMessage env messages w)) = serverConnections w
  /\ config (snd (sendMessage env messages w)) = config w.
Proof.
  rewrite sendMessage_run.
  destruct (after_init_frame w) as (_ & Hsc & Hcfg).
  destruct (anthropic (after_init w)); [|simpl; auto].
  destruct (while_loop_extends env
              (map to_ApiTool (getTools (after_init w))) maxIterations
              (initial (map to_MessageParam messages)) (after_init w))
    as (evs0 & Hext0).
  destruct (while_loop env _ _ _ (after_init w)) as [[v0|e] w0];
    simpl in Hext0.
  - destruct (after_loop_extends messages (map to_MessageParam messages)
                v0 w0) as (evs1 & Hext1).
    rewrite Hext1, Hext0. simpl. auto.
  - rewrite Hext0. simpl. auto.
Qed.





End IterationCap.

(** ** The transcript of the loop *)

(** What the [for] of a round makes of an answer [blocks] of the model,
    block by block.  [m] is the registry and [called] the calls recorded
    so far in the conversation.  [calls] are the calls handed to clients
    for this answer, in order, each with what came back; [temp] is what
    the round puts on [tempContent]; [called'] are the calls recorded
    when the [for] is left.  A text block is kept as it is.  A tool-use
    block that the test takes for a repetition ends the reading, with an
    explanation in place of the call.  Any other tool-use block is
    followed by the result of its call: what the client answered, or the
    fixed error object when the client rejected the call or when no
    connected server lists the tool, in which case nothing is called. *)
Inductive Transcript (m : list (string * McpServerConnection.t)) :
  list (string * string) -> list ContentBlock -> list Event ->
  list MessageContent.t -> list (string * string) -> Prop :=
| transcript_end called : Transcript m called [] [] [] called
| transcript_text called t rest calls temp called' :
    Transcript m called rest calls temp called' ->
    Transcript m called (TextBlock t :: rest) calls (text_block t :: temp)
      called'
| transcript_other called rest calls temp called' :
    Transcript m called rest calls temp called' ->
    Transcript m called (OtherBlock :: rest) calls temp called'
| transcript_repeated called name input rest :
    isRepeatedCall called name input = true ->
    Transcript m called (ToolUseBlock name input :: rest) []
      [text_block (explanation name)] called
| transcript_resolved called name input rest target result calls temp
    called' :
    isRepeatedCall called name input = false ->
    List.find (exposes name) (map_values m) = Some target ->
    Transcript m (called ++ [(name, JSON_stringify input)]) rest calls temp
      called' ->
    Transcript m called (ToolUseBlock name input :: rest)
      (EvCallTool (mcp target) name input (Resolved result) :: calls)
      (toolUse name input :: toolResult name input result :: temp) called'
| transcript_rejected called name input rest target error calls temp
    called' :
    isRepeatedCall called name input = false ->
    List.find (exposes name) (map_values m) = Some target ->
    Transcript m (called ++ [(name, JSON_stringify input)]) rest calls temp
      called' ->
    Transcript m called (ToolUseBlock name input :: rest)
      (EvCallTool (mcp target) name input (Rejected error) :: calls)
      (toolUse name input :: toolResult name input error_result :: temp)
      called'
| transcript_unserved called name input rest calls temp called' :
    isRepeatedCall called name input = false ->
    List.find (exposes name) (map_values m) = None ->
    Transcript m (called ++ [(name, JSON_stringify input)]) rest calls temp
      called' ->
    Transcript m called (ToolUseBlock name input :: rest) calls
      (toolUse name input :: toolResult name input error_result :: temp)
      called'.

(** The rounds of the loop as the trace shows them: a request to the
    model that is answered, the calls handed to clients for the answer,
    and so on; with what each round puts on [tempContent]. *)
Inductive Rounds (m : list (string * McpServerConnection.t)) :
  list (string * string) -> list Event -> list (list MessageContent.t) ->
  Prop :=
| rounds_none called : Rounds m called [] []
| rounds_next called params blocks calls temp called' rest temps :
    Transcript m called blocks calls temp called' ->
    Rounds m called' rest temps ->
    Rounds m called (EvCreate params (Resolved blocks) :: calls ++ rest)
      (temp :: temps).

Lemma on_success_calledTools name input result v :
  calledTools (on_success name input result v) = calledTools v.
Proof.
  unfold on_success. cbv zeta.
  now destruct (truthy (modelTextResponse _) || _).
Qed.

Lemma on_failure_calledTools name input error v :
  calledTools (on_failure name input error v) = calledTools v.
Proof.
  unfold on_failure. cbv zeta. now destruct (truthy (modelTextResponse _)).
Qed.

Lemma end_round_calledTools v : calledTools (end_round v) = calledTools v.
Proof.
  unfold end_round. destruct (negb (hasToolCallsThisRound v)); simpl;
    [|reflexivity].
  pose proof (flush_texts (List.filter is_text (tempContent v)) v) as F.
  cbv zeta in F. destruct F as (_ & _ & _ & _ & _ & F & _).
  now destruct (truthy _); simpl; rewrite F.
Qed.

Section Transcripts.
Context (env : Env).

(** The [for] over an answer, exactly. *)
Lemma process_content_transcript blocks :
  forall v w,
  exists v' calls added,
    process_content env blocks v w
    = (Returns v', with_trace (trace w ++ calls) w)
    /\ Transcript (serverConnections w) (calledTools v) blocks calls added
         (calledTools v')
    /\ Progress v v' added.
Proof.
  induction blocks as [|block rest IH]; intros v w.
  - exists v, [], []. simpl. unfold ret. rewrite app_nil_r.
    split; [now destruct w|]. split; [constructor|apply Progress_refl].
  - destruct block as [t|name input|]; simpl.
    + destruct (IH (set_modelTextResponse t
                      (push_tempContent (text_block t) v)) w)
        as (v' & calls & added & Hrun & Htr & Hprog).
      exists v', calls, ([text_block t] ++ added).
      split; [exact Hrun|]. split; [now constructor|].
      eapply Progress_trans; [apply Progress_text|exact Hprog].
    + destruct (isRepeatedCall (calledTools v) name input) eqn:Hrep.
      * eexists _, [], _. unfold ret. rewrite app_nil_r.
        split; [now destruct w|].
        split; [now constructor|apply Progress_repeated].
      * unfold bind at 1. rewrite execute_run.
        destruct (List.find (exposes name)
                    (map_values (serverConnections w)))
          as [target|] eqn:Hfind.
        -- rewrite (callTool_found env name input w target Hfind).
           unfold delegated. cbn [fst snd].
           set (outcome := client_callTool env (trace w) (mcp target) name
                             input).
           set (w1 := with_trace
                        (trace w ++ [EvCallTool (mcp target) name input
                                       outcome]) w).
           match goal with
           | |- context [process_content env rest ?v1 w1] =>
               destruct (IH v1 w1)
                 as (v' & calls & added & Hrun & Htr & Hprog)
           end.
           assert (Hw1 : forall calls,
                      with_trace (trace w1 ++ calls) w1
                      = with_trace
                          (trace w
                           ++ EvCallTool (mcp target) name input outcome
                              :: calls) w).
           { intros cs. subst w1. unfold with_trace. simpl.
             now rewrite <- app_assoc. }
           destruct outcome as [result|error] eqn:Hout.
           ++ exists v', (EvCallTool (mcp target) name input
                            (Resolved result) :: calls),
                ([toolUse name input; toolResult name input result]
                 ++ added).
              split; [rewrite Hrun; now rewrite Hw1|].
              split.
              { rewrite on_success_calledTools in Htr. simpl in Htr.
                now apply transcript_resolved. }
              eapply Progress_trans; [apply Progress_on_success|exact Hprog].
           ++ exists v', (EvCallTool (mcp target) name input
                            (Rejected error) :: calls),
                ([toolUse name input; toolResult name input error_result]
                 ++ added).
              split; [rewrite Hrun; now rewrite Hw1|].
              split.
              { rewrite on_failure_calledTools in Htr. simpl in Htr.
                now apply transcript_rejected. }
              eapply Progress_trans; [apply Progress_on_failure|exact Hprog].
        -- rewrite (callTool_not_found env name input w Hfind).
           cbn [fst snd].
           match goal with
           | |- context [process_content env rest ?v1 w] =>
               destruct (IH v1 w)
                 as (v' & calls & added & Hrun & Htr & Hprog)
           end.
           exists v', calls,
             ([toolUse name input; toolResult name input error_result]
              ++ added).
           split; [exact Hrun|].
           split.
           { rewrite on_failure_calledTools in Htr. simpl in Htr.
             now apply transcript_unserved. }
           eapply Progress_trans; [apply Progress_on_failure|exact Hprog].
    + destruct (IH v w) as (v' & calls & added & Hrun & Htr & Hprog).
      exists v', calls, added. split; [exact Hrun|].
      split; [now constructor|exact Hprog].
Qed.


Context (tools : list ApiTool.t).

(** One round, exactly. *)
Lemma round_transcript v w v1 w1 :
  round env tools v w = (Returns v1, w1) ->
  exists response calls added,
    w1 = with_trace
           (trace w
            ++ EvCreate (round_request tools v w) (Resolved response)
               :: calls) w
    /\ Transcript (serverConnections w) (calledTools v) response calls added
         (calledTools v1)
    /\ rounds v1 = rounds v ++ [added]
    /\ messageContent v1 = messageContent v ++ shown added
    /\ iterations v1 = S (iterations v)
    /\ (shouldContinue v1 = true -> hasAnyToolCalls v1 = true).
Proof.
  rewrite round_run.
  destruct (messages_create env (trace w) (round_request tools v w))
    as [response|e]; [|discriminate].
  set (w0 := with_trace
               (trace w
                ++ [EvCreate (round_request tools v w) (Resolved response)])
               w).
  destruct (process_content_transcript response (begin_round v) w0)
    as (v2 & calls & added & Hrun & Htr & Hprog).
  rewrite Hrun. intros [= <- <-].
  destruct (end_round_shown _ _ _ Hprog) as (H1 & H2 & H3 & H4).
  exists response, calls, added.
  split.
  { subst w0. unfold with_trace. simpl. now rewrite <- app_assoc. }
  split; [rewrite end_round_calledTools; exact Htr|]. auto.
Qed.

(** The loop, exactly. *)
Lemma while_loop_rounds fuel :
  forall v w v' w',
    while_loop env tools fuel v w = (Returns v', w') ->
    exists loop temps,
      w' = with_trace (trace w ++ loop) w
      /\ Rounds (serverConnections w) (calledTools v) loop temps
      /\ rounds v' = rounds v ++ temps
      /\ messageContent v' = messageContent v ++ flat_map shown temps
      /\ iterations v' = iterations v + length temps
      /\ (iterations v <= maxIterations -> iterations v' <= maxIterations)
      /\ (temps <> [] \/ going_on_after_tool v -> going_on_after_tool v').
Proof.
  assert (Hstop : forall v w,
             exists loop temps,
               w = with_trace (trace w ++ loop) w
               /\ Rounds (serverConnections w) (calledTools v) loop temps
               /\ rounds v = rounds v ++ temps
               /\ messageContent v = messageContent v ++ flat_map shown temps
               /\ iterations v = iterations v + length temps
               /\ (iterations v <= maxIterations ->
                   iterations v <= maxIterations)
               /\ (temps <> [] \/ going_on_after_tool v ->
                   going_on_after_tool v)).
  { intros v w. exists [], []. rewrite !app_nil_r. simpl.
    split; [now destruct w|]. split; [constructor|].
    repeat split; auto. intros [H|H]; [congruence|exact H]. }
  induction fuel as [|fuel IH]; intros v w v' w'.
  - simpl. unfold ret. intros [= <- <-]. apply Hstop.
  - simpl.
    destruct (shouldContinue v && (iterations v <? maxIterations)%nat)
      eqn:Hguard.
    + apply andb_true_iff in Hguard as [_ Hlt]. apply Nat.ltb_lt in Hlt.
      unfold bind at 1.
      destruct (round env tools v w) as [[v1|e] w1] eqn:Hround;
        [|discriminate].
      intros Hrest.
      destruct (round_transcript _ _ _ _ Hround)
        as (response & calls & added & Hw1 & Htr1 & Hr1 & Hm1 & Hi1 & Ha1).
      destruct (IH _ _ _ _ Hrest)
        as (loop & temps & Hw' & Hrounds & Hr2 & Hm2 & Hi2 & Hcap2 & Ha2).
      exists (EvCreate (round_request tools v w) (Resolved response)
              :: calls ++ loop), (added :: temps).
      split.
      { rewrite Hw', Hw1. unfold with_trace. simpl.
        now rewrite <- app_assoc. }
      split.
      { econstructor; [exact Htr1|]. now rewrite Hw1 in Hrounds. }
      split; [rewrite Hr2, Hr1, <- app_assoc; reflexivity|].
      split; [rewrite Hm2, Hm1, <- app_assoc; reflexivity|].
      split; [rewrite Hi2, Hi1; simpl; lia|].
      split; [intros _; apply Hcap2; lia|].
      intros _. apply Ha2. right. exact Ha1.
    + unfold ret. intros [= <- <-]. apply Hstop.
Qed.

End Transcripts.

Section Content.
Context (env : Env).

(** C2, as the code has it.  [sendMessage] returns a single assistant
    message.  The events of the call are the rounds of the loop, each a
    request that the model answers followed by the tool calls made for
    the answer, then at most one closing request, and the two readings of
    the clock.  The content of the message is, round after round: of a
    round in which a tool was used, the toolUse and toolResult blocks in
    the order they were produced, and none of its text blocks; of a round
    in which no tool was used, its text blocks.  After these come the
    text blocks of the closing request: the first text block of the
    answer to the summary request, which is made after [maxIterations]
    rounds, or all the text blocks of the answer to the fallback request,
    which is made when the loop has produced nothing. *)
Theorem sendMessage_content messages w m w' :
  sendMessage env messages w = (Returns m, w') ->
  Message.role m = assistant
  /\ exists loop temps closing texts t1 t2,
       since w w' = loop ++ closing ++ [EvNow t1; EvNow t2]
       /\ Rounds (serverConnections w) [] loop temps
       /\ Message.content m = flat_map shown temps ++ texts
       /\ ((closing = [] /\ texts = [])
           \/ (exists question final,
                 last messages = Some question
                 /\ closing
                    = [EvCreate (summary_request w' question)
                         (Resolved final)]
                 /\ texts = first_text final
                 /\ length temps = maxIterations)
           \/ (exists original,
                 closing
                 = [EvCreate (plain_request w' messages) (Resolved original)]
                 /\ texts = all_texts original
                 /\ flat_map shown temps = [])).
Proof.
  rewrite sendMessage_run.
  destruct (after_init_frame w) as (Htrace & Hsc & _).
  set (w_ := after_init w) in *.
  destruct (anthropic w_); [|discriminate].
  destruct (while_loop env (map to_ApiTool (getTools w_)) maxIterations
              (initial (map to_MessageParam messages)) w_)
    as [[v0|e] w0] eqn:Hloop; [|discriminate].
  destruct (while_loop_rounds env _ _ _ _ _ _ Hloop)
    as (loop & temps & Hw0 & Hrounds & Hr0 & Hm0 & Hi0 & Hcap0 & Hgo0).
  simpl in Hrounds, Hr0, Hm0, Hi0, Hcap0. rewrite Hsc in Hrounds.
  specialize (Hcap0 ltac:(lia)).
  assert (Hmodel0 : modelName w0 = modelName w_) by now rewrite Hw0.
  assert (Htr0 : trace w0 = trace w ++ loop)
    by (rewrite Hw0; simpl; now rewrite Htrace).
  unfold bind at 1. unfold conclude, bind.
  rewrite summarize_run.
  destruct ((maxIterations <=? iterations v0)%nat && shouldContinue v0)
    eqn:Hcap.
  - apply andb_true_iff in Hcap as [Hiter Hcont].
    apply Nat.leb_le in Hiter.
    assert (Hany : hasAnyToolCalls v0 = true).
    { apply Hgo0; [|exact Hcont]. left. intros ->. simpl in Hi0.
      unfold maxIterations in Hiter. lia. }
    destruct (last messages) as [question|] eqn:Hlast; [|discriminate].
    destruct (messages_create env (trace w0) (summary_request w0 question))
      as [final|e] eqn:Hfinal; [|discriminate].
    rewrite fall_back_run.
    destruct (summary_pushed final v0) as (Hm1 & Hr1 & Ha1).
    cbv zeta in Hm1, Hr1, Ha1. rewrite Ha1, Hany. cbn [negb andb].
    match goal with
    | |- context [build_message env ?v ?w1] =>
        destruct (build_message_run env v w1) as (id & createdAt & ->)
    end.
    intros [= <- <-]. split; [reflexivity|].
    eexists loop, temps,
      [EvCreate (summary_request w0 question) (Resolved final)],
      (first_text final), _, _.
    split.
    { apply since_trace. simpl. rewrite Htr0, <- !app_assoc. reflexivity. }
    split; [exact Hrounds|].
    split; [simpl; rewrite Hm1, Hm0; reflexivity|].
    right. left. exists question, final.
    split; [reflexivity|].
    split; [unfold summary_request; simpl; now rewrite Hmodel0|].
    split; [reflexivity|lia].
  - rewrite fall_back_run.
    destruct (negb (hasAnyToolCalls v0)
              && (length (messageContent v0) =? 0)%nat) eqn:Hfb.
    + cbv zeta.
      match goal with
      | |- context [messages_create env (trace w0) ?p] => set (params := p)
      end.
      destruct (messages_create env (trace w0) params) as [original|e];
        [|discriminate].
      match goal with
      | |- context [build_message env ?v ?w1] =>
          destruct (build_message_run env v w1) as (id & createdAt & ->)
      end.
      intros [= <- <-]. split; [reflexivity|].
      apply andb_true_iff in Hfb as [_ Hempty]. apply Nat.eqb_eq in Hempty.
      rewrite Hm0 in Hempty.
      assert (Hnone : flat_map shown temps = [])
        by now destruct (flat_map shown temps).
      eexists loop, temps, [EvCreate params (Resolved original)],
        (all_texts original), _, _.
      split.
      { apply since_trace. simpl. rewrite Htr0, <- !app_assoc.
        reflexivity. }
      split; [exact Hrounds|].
      split; [simpl; rewrite fallback_texts, Hm0; reflexivity|].
      right. right. exists original.
      split; [|split; [reflexivity|exact Hnone]].
      subst params. unfold plain_request. simpl. now rewrite Hmodel0.
    + match goal with
      | |- context [build_message env ?v ?w1] =>
          destruct (build_message_run env v w1) as (id & createdAt & ->)
      end.
      intros [= <- <-]. split; [reflexivity|].
      eexists loop, temps, [], [], _, _.
      split;
        [apply since_trace; simpl; rewrite Htr0, <- app_assoc; reflexivity|].
      split; [exact Hrounds|].
      split; [simpl; rewrite Hm0, app_nil_r; reflexivity|].
      now left.
Qed.

End Content.

(** ** A successful tool call *)

(** The text of the last text block of [blocks], if there is one. *)
Definition latest_text (blocks : list ContentBlock) (otherwise : string)
  : string :=
  fold_left (fun latest c => match c with
                             | TextBlock t => t
                             | _ => latest
                             end) blocks otherwise.

Section ToolSuccess.
Context (env : Env).

Lemma on_success_modelTextResponse name input result v :
  modelTextResponse (on_success name input result v) = modelTextResponse v.
Proof.
  unfold on_success. cbv zeta.
  match goal with
  | |- context [if ?b then _ else _] => destruct b
  end; reflexivity.
Qed.

Lemma on_failure_modelTextResponse name input error v :
  modelTextResponse (on_failure name input error v) = modelTextResponse v.
Proof.
  unfold on_failure. cbv zeta.
  match goal with
  | |- context [if ?b then _ else _] => destruct b
  end; reflexivity.
Qed.

(** When the [for] has gone through [before] without leaving the loop, it
    goes on with what follows, and [modelTextResponse] is the text of the
    last text block met. *)
Lemma process_content_app before :
  forall after v w v1 w1,
    process_content env before v w = (Returns v1, w1) ->
    shouldContinue v = true ->
    shouldContinue v1 = true ->
    process_content env (before ++ after) v w
    = process_content env after v1 w1
    /\ modelTextResponse v1 = latest_text before (modelTextResponse v)
    /\ iterations v1 = iterations v.
Proof.
  induction before as [|block before IH]; intros after v w v1 w1 Hrun Hc Hc1.
  - simpl in Hrun. unfold ret in Hrun. injection Hrun as <- <-. auto.
  - destruct block as [t|name input|]; simpl in Hrun |- *.
    + apply (IH after) in Hrun; auto.
    + destruct (isRepeatedCall (calledTools v) name input).
      * unfold ret in Hrun. injection Hrun as <- <-. discriminate.
      * unfold bind in Hrun |- *. rewrite execute_run in Hrun |- *.
        apply (IH after) in Hrun; auto.
        -- destruct Hrun as (Hrun & Htext & Hiter).
           split; [exact Hrun|]. rewrite Htext, Hiter.
           destruct (fst (callTool env name input w)) as [result|error].
           ++ rewrite on_success_modelTextResponse.
              split; [reflexivity|].
              unfold on_success. cbv zeta.
              match goal with
              | |- context [if ?b then _ else _] => destruct b
              end; reflexivity.
           ++ rewrite on_failure_modelTextResponse.
              split; [reflexivity|].
              unfold on_failure. cbv zeta.
              match goal with
              | |- context [if ?b then _ else _] => destruct b
              end; reflexivity.
        -- destruct (fst (callTool env name input w)) as [result|error].
           ++ now rewrite (proj1 (on_success_flags _ _ _ _)).
           ++ now rewrite (proj1 (on_failure_flags _ _ _ _)).
    + apply (IH after) in Hrun; auto.
Qed.

(** C6, as the code has it.  Let the [for] of a round have gone through
    the blocks [before] of the response without leaving the loop, let the
    next block ask for a tool with a call that is not taken for a
    repetition, and let [callTool] return [result].  Then the output
    accumulator receives the toolUse block and the toolResult block that
    echoes name, arguments and result, and the history receives: an
    assistant entry carrying the text of the last text block of [before],
    when that text is not empty; otherwise, in the first round only, an
    assistant entry with the placeholder naming the tool; otherwise no
    assistant entry at all; and then, in every case, one user entry
    holding the serialized result. *)
Theorem tool_success_entries before name input after v0 w v w1 result w2 :
  process_content env before (begin_round v0) w = (Returns v, w1) ->
  shouldContinue v0 = true ->
  shouldContinue v = true ->
  isRepeatedCall (calledTools v) name input = false ->
  callTool env name input w1 = (Returns result, w2) ->
  exists v',
    process_content env (before ++ ToolUseBlock name input :: after)
      (begin_round v0) w
    = process_content env after v' w2
    /\ messageContent v'
       = messageContent v
         ++ [toolUse name input; toolResult name input result]
    /\ conversationHistory v'
       = conversationHistory v
         ++ (if truthy (latest_text before EmptyString)
             then [assistant_says (latest_text before EmptyString)]
             else if (iterations v0 =? 0)%nat
                  then [assistant_says (placeholder name)]
                  else [])
         ++ [user_says (result_line name result)].
Proof.
  intros Hbefore Hc0 Hc Hfresh Hcall.
  destruct (process_content_app before (ToolUseBlock name input :: after)
              _ _ _ _ Hbefore Hc0 Hc) as (Happ & Htext & Hiter).
  simpl in Htext, Hiter.
  rewrite Happ. simpl. rewrite Hfresh. unfold bind. rewrite execute_run.
  rewrite Hcall. simpl.
  eexists. split; [reflexivity|].
  unfold on_success. cbv zeta. simpl.
  rewrite Htext, Hiter.
  unfold truthy, str_or.
  destruct (String.eqb (latest_text before EmptyString) EmptyString)
    eqn:Hempty; simpl.
  - destruct (iterations v0) as [|n]; simpl;
      rewrite <- ?app_assoc; auto.
  - rewrite <- !app_assoc. auto.
Qed.

End ToolSuccess.

(** * The rest of the manager, of the service and of the handlers *)

(** ** connectToServer, attempt by attempt *)

(** The launch configuration passes the check of [connectToServer]. *)
Definition valid_entry (serverConfig : ServerConfig.t) : bool :=
  truthy (ServerConfig.command serverConfig)
  && is_Some_bool (ServerConfig.args serverConfig).

Definition is_resolved (e : Event) : bool :=
  match e with
  | EvLaunch _ _ _ _ (ListToolsResolves _) => true
  | _ => false
  end.

(** What [connectToServer] may add to the trace for [serverName], the
    launch configuration on file being [entry]: waits of 1000 ms, launches
    of the configured command, reports of failed attempts, the closing
    of handles, and discoveries that settle late. *)
Definition connect_event (serverName : string) (timeoutMs : nat)
    (entry : option ServerConfig.t) (e : Event) : Prop :=
  match e with
  | EvSleep ms => ms = 1000
  | EvLaunch _ name serverConfig t _ =>
      name = serverName /\ t = timeoutMs
      /\ entry = Some serverConfig
      /\ ServerConfig.command serverConfig <> EmptyString
      /\ ServerConfig.args serverConfig <> None
  | EvConnectFailed name _ _ _ => name = serverName
  | EvClientClose _ _ | EvTransportClose _ _ | EvLate _ _ => True
  | EvCallTool _ _ _ _ | EvCreate _ _ | EvNow _ => False
  end.

Lemma valid_entry_fields serverConfig :
  valid_entry serverConfig = true ->
  ServerConfig.command serverConfig <> EmptyString
  /\ ServerConfig.args serverConfig <> None.
Proof.
  unfold valid_entry, truthy. intros H.
  apply andb_true_iff in H as [Hc Ha]. split.
  - intros E. rewrite E in Hc. discriminate.
  - intros E. rewrite E in Ha. discriminate.
Qed.

Lemma not_ConfigProblem serverName w :
  ~ ConfigProblem serverName w ->
  exists serverConfig,
    entry_of serverName w = Some serverConfig
    /\ valid_entry serverConfig = true.
Proof.
  unfold ConfigProblem, valid_entry, truthy.
  destruct (entry_of serverName w) as [serverConfig|]; [|tauto].
  intros H. exists serverConfig. split; [reflexivity|].
  destruct (String.eqb (ServerConfig.command serverConfig) EmptyString)
    eqn:Hc.
  - apply String.eqb_eq in Hc. tauto.
  - destruct (ServerConfig.args serverConfig); [reflexivity|tauto].
Qed.

Lemma ConfigProblem_dec serverName w :
  ConfigProblem serverName w \/ ~ ConfigProblem serverName w.
Proof.
  unfold ConfigProblem.
  destruct (entry_of serverName w) as [serverConfig|]; [|now left].
  destruct (String.eqb (ServerConfig.command serverConfig) EmptyString)
    eqn:Hc.
  - apply String.eqb_eq in Hc. left. now left.
  - apply String.eqb_neq in Hc.
    destruct (ServerConfig.args serverConfig) eqn:Ha.
    + right. intros [H|H]; [contradiction|discriminate].
    + left. now right.
Qed.

Section ConnectRun.
Context (env : Env) (serverName : string) (retryCount timeoutMs : nat).

(** The world after the teardown that opens [connectToServer]. *)
Definition torn_down (w : World) : World :=
  match map_get serverName (serverConnections w) with
  | Some connection =>
      if isConnected connection
      then with_serverConnections
             (map_set serverName (disconnected connection)
                (serverConnections w))
             (with_trace
                (trace w ++ teardown_events env connection (trace w)) w)
      else w
  | None => w
  end.

Lemma connectToServer_run w :
  connectToServer env serverName retryCount timeoutMs w
  = attempts env serverName retryCount timeoutMs (length (trace w))
      (S retryCount) 0 None (torn_down w).
Proof.
  unfold connectToServer, torn_down. unfold bind at 1. unfold get at 1.
  cbv beta iota. unfold bind at 1.
  unfold map_has, isSpecificServerConnected.
  destruct (map_get serverName (serverConnections w)) as [connection|]
    eqn:Hget; [|reflexivity].
  cbn [andb]. destruct (isConnected connection) eqn:Hlive; [|reflexivity].
  unfold try_catch.
  now rewrite (disconnectServer_live env _ _ _ Hget Hlive).
Qed.

Lemma torn_down_frame w :
  config (torn_down w) = config w
  /\ entry_of serverName (torn_down w) = entry_of serverName w
  /\ exists pre,
       trace (torn_down w) = trace w ++ pre
       /\ Forall (connect_event serverName timeoutMs (entry_of serverName w))
            pre
       /\ List.filter is_retry_event pre = []
       /\ List.filter is_launch pre = [].
Proof.
  unfold torn_down.
  destruct (map_get serverName (serverConnections w)) as [connection|].
  - destruct (isConnected connection).
    + split; [reflexivity|]. split; [reflexivity|].
      exists (teardown_events env connection (trace w)).
      split; [reflexivity|]. unfold teardown_events.
      destruct (transport connection); simpl; repeat split;
        repeat constructor.
    + split; [reflexivity|]. split; [reflexivity|].
      exists []. rewrite app_nil_r. repeat split; constructor.
  - split; [reflexivity|]. split; [reflexivity|].
    exists []. rewrite app_nil_r. repeat split; constructor.
Qed.

Lemma torn_down_start w :
  length (trace w) <= length (trace (torn_down w))
  /\ omap timed_out_launch (drop (length (trace w)) (trace (torn_down w)))
     = [].
Proof.
  destruct (torn_down_frame w) as (_ & _ & pre & Htr & _ & _ & Hlaunch).
  rewrite Htr, length_app, drop_app_length.
  split; [lia|now apply no_launch_no_timeout].
Qed.

Lemma torn_down_registry w :
  map_keys (serverConnections (torn_down w)) = map_keys (serverConnections w)
  /\ (forall other, other <> serverName ->
        map_get other (serverConnections (torn_down w))
        = map_get other (serverConnections w))
  /\ isSpecificServerConnected serverName (torn_down w) = false
  /\ forall connection,
       map_set serverName connection (serverConnections (torn_down w))
       = map_set serverName connection (serverConnections w).
Proof.
  unfold torn_down, isSpecificServerConnected.
  destruct (map_get serverName (serverConnections w)) as [connection|]
    eqn:Hget.
  - destruct (isConnected connection) eqn:Hlive; simpl.
    + split; [now apply map_keys_set_present with (v0 := connection)|].
      split; [intros other Hne; now apply map_get_set_ne|].
      split; [now rewrite map_get_set_eq|].
      intros c. apply map_set_set.
    + rewrite Hget, Hlive. auto.
  - rewrite Hget. auto.
Qed.

(** One attempt under a valid launch configuration: the server is
    launched, and the outcome of the launch decides. *)
Definition attempt_result (serverConfig : ServerConfig.t) (w : World)
  : Outcome (list McpTool.t) * World :=
  let h := length (trace w) in
  let outcome :=
    launch_server env (trace w) serverName serverConfig timeoutMs in
  let w1 :=
    with_trace
      (trace w ++ [EvLaunch h serverName serverConfig timeoutMs outcome])
      w in
  match outcome with
  | TransportFails message =>
      (Throws ("无法创建MCP传输层: "
               +:+ str_or (default EmptyString message) "未知错误"), w1)
  | ConnectThrows connectError =>
      (Throws (if includes "Connection closed"
                    (JsError.message connectError)
               then Error connection_closed else connectError), w1)
  | ListToolsRejects error =>
      (Throws error,
       with_trace
         (trace w1 ++ [EvTransportClose h (transport_close env (trace w1) h)])
         w1)
  | ListToolsResolves listed =>
      (Returns (tag_tools serverName listed),
       with_serverConnections
         (map_set serverName
            (McpServerConnection.mk serverName h (Some h)
               (tag_tools serverName listed) true)
            (serverConnections w)) w1)
  | TimerFirst => (Throws (timed_out timeoutMs), w1)
  end.

Lemma attempt_once_valid w serverConfig :
  entry_of serverName w = Some serverConfig ->
  valid_entry serverConfig = true ->
  attempt_once env serverName timeoutMs w = attempt_result serverConfig w.
Proof.
  unfold entry_of, valid_entry, attempt_once, attempt_result.
  destruct (config w) as [cfg|] eqn:Hc; [|discriminate].
  intros He Hv.
  unfold bind at 1. unfold get at 1. cbv beta iota. rewrite Hc.
  unfold bind at 1. unfold ret at 1. cbv beta iota.
  unfold bind at 1. unfold get at 1. cbv beta iota. rewrite Hc, He.
  apply andb_true_iff in Hv as [Hv1 Hv2]. rewrite Hv1, Hv2. cbn [negb orb].
  unfold launch, close_transport. unfold_monad. simpl.
  destruct (launch_server env (trace w) serverName serverConfig timeoutMs)
    as [message|message|error|listed|]; simpl; try reflexivity.
  - now destruct (includes "Connection closed" (JsError.message message)).
  - destruct (transport_close env _ _); simpl;
      unfold with_trace; simpl; now rewrite <- ?app_assoc.
Qed.

Lemma attempt_result_cases serverConfig w r w1 :
  valid_entry serverConfig = true ->
  attempt_result serverConfig w = (r, w1) ->
  config w1 = config w
  /\ exists outcome closing,
       trace w1
       = trace w
         ++ EvLaunch (length (trace w)) serverName serverConfig timeoutMs
              outcome :: closing
       /\ outcome
          = launch_server env (trace w) serverName serverConfig timeoutMs
       /\ (closing = []
           \/ exists h thrown, closing = [EvTransportClose h thrown])
       /\ match r with
          | Returns serverTools =>
              exists listed,
                outcome = ListToolsResolves listed
                /\ closing = []
                /\ serverTools = tag_tools serverName listed
                /\ serverConnections w1
                   = map_set serverName
                       (McpServerConnection.mk serverName (length (trace w))
                          (Some (length (trace w))) serverTools true)
                       (serverConnections w)
          | Throws e =>
              resolves outcome = false
              /\ serverConnections w1 = serverConnections w
          end.
Proof.
  intros Hv. unfold attempt_result. cbv zeta.
  destruct (launch_server env (trace w) serverName serverConfig timeoutMs)
    as [message|message|error|listed|] eqn:Hl;
    intros [= <- <-]; simpl; (split; [reflexivity|]).
  - exists (TransportFails message), []. auto.
  - exists (ConnectThrows message), []. auto.
  - exists (ListToolsRejects error). eexists. rewrite <- app_assoc.
    split; [reflexivity|]. split; [reflexivity|].
    split; [right; eauto|]. auto.
  - exists (ListToolsResolves listed), []. split; [reflexivity|].
    split; [reflexivity|]. split; [now left|]. exists listed. auto.
  - exists TimerFirst, []. auto.
Qed.

Lemma late_connect_events entry late :
  forallb is_late_event late = true ->
  Forall (connect_event serverName timeoutMs entry) late
  /\ List.filter is_resolved late = [].
Proof.
  induction late as [|e late IH]; simpl; [split; constructor|].
  intros H. apply andb_true_iff in H as [He Hl].
  destruct (IH Hl) as (H1 & H2).
  destruct e; simpl in *; try discriminate; split; auto;
    constructor; simpl; auto.
Qed.

(** The retry loop under a valid launch configuration. *)
Lemma attempts_valid start fuel :
  forall attempt lastError w serverConfig r w',
    entry_of serverName w = Some serverConfig ->
    valid_entry serverConfig = true ->
    attempt + fuel = S retryCount ->
    start <= length (trace w) ->
    attempts env serverName retryCount timeoutMs start fuel attempt
      lastError w
    = (r, w') ->
    config w' = config w
    /\ exists evs errors,
         trace w' = trace w ++ evs
         /\ Forall (connect_event serverName timeoutMs (Some serverConfig))
              evs
         /\ match r with
            | Throws e =>
                Rewritten serverName (drop start (trace w'))
                  (serverConnections w) (serverConnections w')
                /\ List.filter is_retry_event evs
                   = retry_log serverName (retryCount + 1) attempt errors
                /\ length errors = fuel
                /\ length (List.filter is_launch evs) = fuel
                /\ List.filter is_resolved evs = []
            | Returns serverTools =>
                exists listed h failed before,
                  serverTools = tag_tools serverName listed
                  /\ serverConnections w'
                     = map_set serverName
                         (McpServerConnection.mk serverName h (Some h)
                            serverTools true)
                         (serverConnections w)
                  /\ List.filter is_retry_event evs
                     = retry_log serverName (retryCount + 1) attempt errors
                       ++ (if (0 <? attempt + length errors)%nat
                           then [EvSleep 1000] else [])
                  /\ length errors < fuel
                  /\ List.filter is_launch evs
                     = failed
                       ++ [EvLaunch h serverName serverConfig timeoutMs
                             (ListToolsResolves listed)]
                  /\ length failed = length errors
                  /\ List.filter is_resolved failed = []
                  /\ evs
                     = before
                       ++ [EvLaunch h serverName serverConfig timeoutMs
                             (ListToolsResolves listed)]
                  /\ h = length (trace w ++ before)
                  /\ launch_server env (trace w ++ before) serverName
                       serverConfig timeoutMs
                     = ListToolsResolves listed
            end.
Proof.
  induction fuel as [|fuel IH];
    intros attempt lastError w serverConfig r w' Hent Hv Hsum Hstart.
  - simpl. unfold throw. intros [= <- <-]. split; [reflexivity|].
    exists [], []. rewrite app_nil_r. repeat split; auto.
    apply Rewritten_refl.
  - cbn [attempts]. unfold bind at 1.
    destruct (wait_run env serverName start attempt w Hstart)
      as (w0 & late & -> & Htr0 & Hlate & Hcfg0 & Hreg0 & _).
    destruct (forallb_late_no_retry late Hlate)
      as (Hlate_retry & Hlate_launch & _).
    destruct (late_connect_events (Some serverConfig) late Hlate)
      as (Hlate_all & Hlate_res).
    assert (Hstart0 : start <= length (trace w0))
      by (rewrite Htr0, length_app; lia).
    assert (Hent0 : entry_of serverName w0 = Some serverConfig).
    { unfold entry_of in *. now rewrite Hcfg0. }
    set (waited := (if (0 <? attempt)%nat then [EvSleep 1000] else [])
                   ++ late) in *.
    assert (Hwaited_all : Forall (connect_event serverName timeoutMs
                                    (Some serverConfig)) waited).
    { subst waited. apply Forall_app. split; [|exact Hlate_all].
      destruct (0 <? attempt)%nat; repeat constructor. }
    assert (Hwaited_retry : List.filter is_retry_event waited
                            = if (0 <? attempt)%nat then [EvSleep 1000]
                              else []).
    { subst waited. rewrite List.filter_app, Hlate_retry, app_nil_r.
      now destruct (0 <? attempt)%nat. }
    assert (Hwaited_launch : List.filter is_launch waited = []).
    { subst waited. rewrite List.filter_app, Hlate_launch.
      now destruct (0 <? attempt)%nat. }
    assert (Hwaited_res : List.filter is_resolved waited = []).
    { subst waited. rewrite List.filter_app, Hlate_res.
      now destruct (0 <? attempt)%nat. }
    unfold try_catch.
    rewrite (attempt_once_valid _ _ Hent0 Hv).
    destruct (attempt_result serverConfig w0) as [[ts|err] w1] eqn:Hatt;
      destruct (attempt_result_cases _ _ _ _ Hv Hatt)
        as (Hcfg1 & outcome & closing & Htr1 & Horacle & Hclosing & Hout).
    + intros [= <- <-].
      destruct Hout as (listed & Hres & -> & Hts & Hsc1).
      rewrite Hres in Htr1, Horacle.
      split; [congruence|].
      exists (waited
              ++ [EvLaunch (length (trace w0)) serverName serverConfig
                    timeoutMs (ListToolsResolves listed)]), [].
      split; [rewrite Htr1, Htr0, <- app_assoc; reflexivity|].
      split.
      { apply Forall_app. split; [exact Hwaited_all|].
        constructor; [|constructor]. simpl.
        destruct (valid_entry_fields _ Hv). auto. }
      exists listed, (length (trace w0)), [], waited.
      split; [exact Hts|].
      split; [rewrite Hsc1; apply (Rewritten_set _ _ _ _ _ Hreg0)|].
      split.
      { rewrite List.filter_app, Hwaited_retry, Nat.add_0_r. simpl.
        now rewrite app_nil_r. }
      split; [simpl; lia|].
      split; [now rewrite List.filter_app, Hwaited_launch|].
      split; [reflexivity|]. split; [reflexivity|].
      split; [reflexivity|].
      split; [now rewrite Htr0|].
      rewrite <- Htr0. now symmetry.
    + destruct Hout as (Hunres & Hsc1).
      unfold bind at 1. unfold emit, modify. cbv beta iota.
      set (failure := EvConnectFailed serverName (attempt + 1)
                        (retryCount + 1) err).
      set (w2 := with_trace (trace w1 ++ [failure]) w1).
      set (evs1 := waited
                   ++ EvLaunch (length (trace w0)) serverName serverConfig
                        timeoutMs outcome :: closing ++ [failure]).
      assert (Htr2 : trace w2 = trace w ++ evs1).
      { subst w2 evs1. simpl. rewrite Htr1, Htr0.
        rewrite <- !app_assoc. reflexivity. }
      assert (Hstart2 : start <= length (trace w2))
        by (rewrite Htr2, length_app; lia).
      assert (Hreg2 : Rewritten serverName (drop start (trace w2))
                        (serverConnections w) (serverConnections w2)).
      { subst w2. cbn [serverConnections with_trace]. rewrite Hsc1.
        eapply Rewritten_mono; [|exact Hreg0].
        cbn [trace with_trace]. rewrite Htr1, <- app_assoc.
        rewrite drop_trace_app by exact Hstart0.
        apply incl_appl, incl_refl. }
      assert (Hall1 : Forall (connect_event serverName timeoutMs
                                (Some serverConfig)) evs1).
      { subst evs1. apply Forall_app. split; [exact Hwaited_all|].
        constructor.
        + simpl. destruct (valid_entry_fields _ Hv). auto.
        + apply Forall_app. split; [|repeat constructor].
          destruct Hclosing as [->|(h & thrown & ->)];
            repeat constructor. }
      assert (Hretry1 : List.filter is_retry_event evs1
                        = (if (0 <? attempt)%nat then [EvSleep 1000] else [])
                          ++ [failure]).
      { subst evs1. rewrite List.filter_app, Hwaited_retry. simpl.
        rewrite List.filter_app. simpl.
        now destruct Hclosing as [->|(h & thrown & ->)]. }
      assert (Hlaunch1 : List.filter is_launch evs1
                         = [EvLaunch (length (trace w0)) serverName
                              serverConfig timeoutMs outcome]).
      { subst evs1. rewrite List.filter_app, Hwaited_launch. simpl.
        rewrite List.filter_app. simpl.
        now destruct Hclosing as [->|(h & thrown & ->)]. }
      assert (Hres1 : List.filter is_resolved evs1 = []).
      { subst evs1. rewrite List.filter_app, Hwaited_res. simpl.
        rewrite List.filter_app. simpl.
        destruct (launch_server env (trace w0) serverName serverConfig
                    timeoutMs);
          subst outcome; try discriminate;
          now destruct Hclosing as [->|(h & thrown & ->)]. }
      destruct (attempt =? retryCount)%nat eqn:Hlast.
      * unfold throw. intros [= <- <-].
        apply Nat.eqb_eq in Hlast. assert (fuel = 0) as -> by lia.
        split; [subst w2; simpl; congruence|].
        exists evs1, [err]. split; [exact Htr2|]. split; [exact Hall1|].
        split; [exact Hreg2|].
        split; [rewrite Hretry1; reflexivity|].
        split; [reflexivity|]. split; [now rewrite Hlaunch1|exact Hres1].
      * intros Hrest. apply Nat.eqb_neq in Hlast.
        assert (Hent2 : entry_of serverName w2 = Some serverConfig).
        { unfold entry_of in *. subst w2. simpl. now rewrite Hcfg1, Hcfg0. }
        destruct (IH (S attempt) (Some err) w2 serverConfig r w' Hent2 Hv
                    ltac:(lia) Hstart2 Hrest)
          as (Hcfg' & evs2 & errors & Htr' & Hall2 & Hout).
        split; [rewrite Hcfg'; subst w2; simpl; congruence|].
        exists (evs1 ++ evs2), (err :: errors).
        split; [rewrite Htr', Htr2, <- app_assoc; reflexivity|].
        split; [apply Forall_app; now split|].
        destruct r as [ts|e].
        -- destruct Hout as (listed & h & failed & before & Hts & Hsc'
                             & Hretry2 & Hlen & Hlaunch2 & Hfailed & Hres2
                             & Hevs2 & Hh & Horacle2).
           exists listed, h,
             (EvLaunch (length (trace w0)) serverName serverConfig timeoutMs
                outcome :: failed), (evs1 ++ before).
           split; [exact Hts|].
           split.
           { rewrite Hsc'. apply (Rewritten_set _ _ _ _ _ Hreg2). }
           split.
           { rewrite List.filter_app, Hretry1, Hretry2. simpl.
             replace (attempt + S (length errors))
               with (S attempt + length errors) by lia.
             rewrite <- !app_assoc. reflexivity. }
           split; [simpl; lia|].
           split; [rewrite List.filter_app, Hlaunch1, Hlaunch2; reflexivity|].
           split; [simpl; lia|].
           split.
           { simpl.
             destruct (launch_server env (trace w0) serverName serverConfig
                         timeoutMs);
               subst outcome; try discriminate; exact Hres2. }
           split; [rewrite Hevs2, <- app_assoc; reflexivity|].
           rewrite app_assoc, <- Htr2. auto.
        -- destruct Hout as (Hreg' & Hretry2 & Hlen & Hlaunch2 & Hres2).
           split.
           { eapply Rewritten_trans; [|exact Hreg'].
             eapply Rewritten_mono; [|exact Hreg2].
             rewrite Htr', drop_trace_app by exact Hstart2.
             apply incl_appl, incl_refl. }
           split.
           { rewrite List.filter_app, Hretry1, Hretry2. simpl.
             rewrite <- !app_assoc. reflexivity. }
           split; [simpl; lia|].
           split; [rewrite List.filter_app, length_app, Hlaunch1, Hlaunch2;
                   reflexivity|].
           now rewrite List.filter_app, Hres1, Hres2.
Qed.

End ConnectRun.

Lemma getAllTools_in w name connection tool :
  In (name, connection) (serverConnections w) ->
  isConnected connection = true ->
  In tool (tools connection) ->
  In tool (getAllTools w).
Proof.
  intros Hin Hlive Htool. unfold getAllTools. apply in_flat_map.
  exists connection. split.
  - unfold map_values. change connection with (snd (name, connection)).
    now apply in_map.
  - now rewrite Hlive.
Qed.

Lemma retry_log_connect_events serverName timeoutMs entry total attempt errors :
  Forall (connect_event serverName timeoutMs entry)
    (retry_log serverName total attempt errors).
Proof.
  revert attempt. induction errors as [|error rest IH]; intros attempt;
    simpl; [constructor|].
  apply Forall_app. split.
  - destruct (0 <? attempt)%nat; repeat constructor.
  - constructor; [reflexivity|apply IH].
Qed.

Lemma tag_tools_serverName serverName listed tool :
  In tool (tag_tools serverName listed) -> McpTool.serverName tool = serverName.
Proof.
  unfold tag_tools. intros H. apply in_map_iff in H as (l & <- & _).
  reflexivity.
Qed.

Section ConnectSuccess.
Context (env : Env) (serverName : string) (retryCount timeoutMs : nat).

(** A call that returns has found a valid launch configuration. *)
Lemma connectToServer_returns_valid w serverTools w' :
  connectToServer env serverName retryCount timeoutMs w
  = (Returns serverTools, w') ->
  exists serverConfig,
    entry_of serverName w = Some serverConfig
    /\ valid_entry serverConfig = true.
Proof.
  rewrite connectToServer_run. intros Hrun.
  destruct (torn_down_frame env serverName timeoutMs w) as (_ & Hent & _).
  destruct (ConfigProblem_dec serverName (torn_down env serverName w))
    as [Hbad|Hok].
  - destruct (torn_down_start env serverName timeoutMs w) as (Hstart & Hnone).
    destruct (attempts_config_problem env serverName retryCount timeoutMs
                (length (trace w)) (S retryCount) 0 None _ Hbad
                ltac:(lia) ltac:(lia) Hstart Hnone)
      as (w2 & Hthrows & _).
    rewrite Hthrows in Hrun. discriminate.
  - apply not_ConfigProblem in Hok. now rewrite Hent in Hok.
Qed.

(** X1.  When [connectToServer] returns, the last thing it did was to
    launch the command on file for [serverName], with a new handle, and
    the server listed its tools in time.  The tools returned are the
    tools listed in answer to that launch, each tagged with the name of
    the server; they are on file under that name in a connected entry
    whose client and transport are those of that launch, and
    [getAllTools] shows them.  The entries under other names are
    untouched; a name already on file keeps its place in the iteration
    order, a new name goes last; the configuration is unchanged. *)
Theorem connectToServer_registers w serverTools w' :
  connectToServer env serverName retryCount timeoutMs w
  = (Returns serverTools, w') ->
  exists listed h serverConfig before,
    entry_of serverName w = Some serverConfig
    /\ trace w'
       = trace w ++ before
         ++ [EvLaunch h serverName serverConfig timeoutMs
               (ListToolsResolves listed)]
    /\ h = length (trace w ++ before)
    /\ launch_server env (trace w ++ before) serverName serverConfig
         timeoutMs
       = ListToolsResolves listed
    /\ serverTools = tag_tools serverName listed
    /\ map_get serverName (serverConnections w')
       = Some (McpServerConnection.mk serverName h (Some h) serverTools true)
    /\ (forall other, other <> serverName ->
          map_get other (serverConnections w')
          = map_get other (serverConnections w))
    /\ map_keys (serverConnections w')
       = (if map_has serverName (serverConnections w)
          then map_keys (serverConnections w)
          else map_keys (serverConnections w) ++ [serverName])
    /\ config w' = config w
    /\ (forall tool, In tool serverTools ->
          In tool (getAllTools w')
          /\ McpTool.serverName tool = serverName).
Proof.
  intros Hrun.
  destruct (connectToServer_returns_valid _ _ _ Hrun)
    as (serverConfig & Hent & Hv).
  rewrite connectToServer_run in Hrun.
  destruct (torn_down_frame env serverName timeoutMs w)
    as (Hcfg1 & Hent1 & pre & Htr1 & _).
  destruct (torn_down_registry env serverName w) as (_ & _ & _ & Hset).
  destruct (torn_down_start env serverName timeoutMs w) as (Hstart & _).
  pose proof Hent as Hent0. rewrite <- Hent1 in Hent.
  destruct (attempts_valid env serverName retryCount timeoutMs
              (length (trace w)) (S retryCount) 0 None _ _ _ _ Hent Hv
              eq_refl Hstart Hrun)
    as (Hcfg' & evs & errors & Htr & _ & listed & h & failed & before & Hts
        & Hsc & _ & _ & _ & _ & _ & Hevs & Hh & Horacle).
  rewrite Hset in Hsc. rewrite Htr1, <- app_assoc in Hh, Horacle.
  exists listed, h, serverConfig, (pre ++ before).
  split; [exact Hent0|].
  split; [rewrite Htr, Htr1, Hevs, <- !app_assoc; reflexivity|].
  split; [exact Hh|]. split; [exact Horacle|]. split; [exact Hts|].
  split; [rewrite Hsc; apply map_get_set_eq|].
  split; [intros other Hne; rewrite Hsc; now apply map_get_set_ne|].
  split; [rewrite Hsc; apply map_keys_set|].
  split; [congruence|].
  intros tool Htool. split.
  - apply (getAllTools_in w' serverName
             (McpServerConnection.mk serverName h (Some h) serverTools true));
      [|reflexivity|exact Htool].
    apply map_get_Some_in. rewrite Hsc. apply map_get_set_eq.
  - rewrite Hts in Htool. now apply tag_tools_serverName in Htool.
Qed.

(** X2.  When [connectToServer] returns, the attempt that succeeded is the last
    one made: every launch before it failed and was reported, a wait of
    1000 ms precedes every attempt but the first, and no more than
    [retryCount] attempts failed.  The tools returned are those listed at
    the last launch. *)
Theorem connectToServer_stops_at_first_success w serverTools w' :
  connectToServer env serverName retryCount timeoutMs w
  = (Returns serverTools, w') ->
  exists evs errors failed h serverConfig listed,
    trace w' = trace w ++ evs
    /\ length errors <= retryCount
    /\ List.filter is_retry_event evs
       = retry_log serverName (retryCount + 1) 0 errors
         ++ (if (0 <? length errors)%nat then [EvSleep 1000] else [])
    /\ length (List.filter is_failure evs) = length errors
    /\ length (List.filter is_sleep evs) = length errors
    /\ List.filter is_launch evs
       = failed
         ++ [EvLaunch h serverName serverConfig timeoutMs
               (ListToolsResolves listed)]
    /\ length failed = length errors
    /\ List.filter is_resolved failed = []
    /\ serverTools = tag_tools serverName listed.
Proof.
  intros Hrun.
  destruct (connectToServer_returns_valid _ _ _ Hrun)
    as (serverConfig & Hent & Hv).
  rewrite connectToServer_run in Hrun.
  destruct (torn_down_frame env serverName timeoutMs w)
    as (_ & Hent1 & pre & Htr1 & _ & Hretry1 & Hlaunch1).
  rewrite <- Hent1 in Hent.
  destruct (torn_down_start env serverName timeoutMs w) as (Hstart & _).
  destruct (attempts_valid env serverName retryCount timeoutMs
              (length (trace w)) (S retryCount) 0 None _ _ _ _ Hent Hv
              eq_refl Hstart Hrun)
    as (_ & evs & errors & Htr & _ & listed & h & failed & before & Hts & _
        & Hretry & Hlen & Hlaunch & Hfailed & Hres & _).
  simpl in Hretry.
  assert (Hall : List.filter is_retry_event (pre ++ evs)
                 = retry_log serverName (retryCount + 1) 0 errors
                   ++ (if (0 <? length errors)%nat then [EvSleep 1000]
                       else [])).
  { now rewrite List.filter_app, Hretry1, Hretry. }
  exists (pre ++ evs), errors, failed, h, serverConfig, listed.
  split; [rewrite Htr, Htr1, app_assoc; reflexivity|].
  split; [lia|]. split; [exact Hall|].
  split.
  { rewrite <- (filter_filter_implied is_failure is_retry_event)
      by (now intros []).
    rewrite Hall, List.filter_app, length_app. unfold is_failure at 1.
    rewrite retry_log_failures.
    destruct (0 <? length errors)%nat; simpl; lia. }
  split.
  { rewrite <- (filter_filter_implied is_sleep is_retry_event)
      by (now intros []).
    rewrite Hall, List.filter_app, length_app. unfold is_sleep at 1.
    rewrite retry_log_sleeps.
    destruct errors; simpl; lia. }
  split; [now rewrite List.filter_app, Hlaunch1, Hlaunch|].
  auto.
Qed.

(** X3.  Whatever its outcome, a call of [connectToServer] launches at most
    [retryCount + 1] processes, each of them the command on file for
    [serverName] in a configuration that passed the check, with the time
    limit given; it waits only for 1000 ms at a time, at most [retryCount]
    times; and it neither calls a tool nor asks the model. *)
Theorem connectToServer_launches w :
  exists evs,
    trace (snd (connectToServer env serverName retryCount timeoutMs w))
    = trace w ++ evs
    /\ length (List.filter is_launch evs) <= retryCount + 1
    /\ length (List.filter is_sleep evs) <= retryCount
    /\ Forall (connect_event serverName timeoutMs (entry_of serverName w))
         evs.
Proof.
  rewrite connectToServer_run.
  destruct (torn_down_frame env serverName timeoutMs w)
    as (_ & Hent1 & pre & Htr1 & Hall1 & Hretry1 & Hlaunch1).
  assert (Hsleep1 : List.filter is_sleep pre = []).
  { rewrite <- (filter_filter_implied is_sleep is_retry_event)
      by (now intros []).
    now rewrite Hretry1. }
  destruct (torn_down_start env serverName timeoutMs w) as (Hstart & Hnone).
  destruct (ConfigProblem_dec serverName (torn_down env serverName w))
    as [Hbad|Hok].
  - destruct (attempts_config_problem env serverName retryCount timeoutMs
                (length (trace w)) (S retryCount) 0 None _ Hbad
                ltac:(lia) ltac:(lia) Hstart Hnone)
      as (w2 & -> & _ & Htr2).
    cbn [snd]. eexists. rewrite Htr2, Htr1, <- app_assoc.
    split; [reflexivity|].
    rewrite !List.filter_app, !length_app, Hlaunch1, Hsleep1.
    rewrite retry_log_no_launch. unfold is_sleep.
    rewrite retry_log_sleeps, repeat_length. cbn [length].
    split; [lia|]. split; [lia|].
    apply Forall_app. split; [exact Hall1|].
    apply retry_log_connect_events.
  - apply not_ConfigProblem in Hok as (serverConfig & Hent & Hv).
    destruct (attempts env serverName retryCount timeoutMs
                (length (trace w)) (S retryCount) 0 None
                (torn_down env serverName w)) as [r w'] eqn:Hrun.
    destruct (attempts_valid env serverName retryCount timeoutMs
                (length (trace w)) (S retryCount) 0 None _ _ _ _ Hent Hv
                eq_refl Hstart Hrun)
      as (_ & evs & errors & Htr & Hall & Hout).
    simpl. exists (pre ++ evs).
    split; [rewrite Htr, Htr1, app_assoc; reflexivity|].
    rewrite !List.filter_app, !length_app, Hlaunch1, Hsleep1. simpl.
    assert (Hsleeps : forall retry,
               List.filter is_retry_event evs = retry ->
               length (List.filter is_sleep evs)
               = length (List.filter is_sleep retry)).
    { intros retry <-.
      now rewrite (filter_filter_implied is_sleep is_retry_event)
        by (now intros []). }
    rewrite <- Hent1, Hent in Hall1 |- *.
    destruct r as [ts|e].
    + destruct Hout as (listed & h & failed & before & _ & _ & Hretry
                        & Hlen & Hlaunch & Hfailed & _).
      rewrite Hlaunch, length_app, Hfailed. simpl.
      split; [lia|]. split; [|apply Forall_app; now split].
      rewrite (Hsleeps _ Hretry), List.filter_app, length_app.
      unfold is_sleep at 1. rewrite retry_log_sleeps.
      destruct (0 <? 0 + length errors)%nat eqn:E;
        [apply Nat.ltb_lt in E|]; simpl; lia.
    + destruct Hout as (_ & Hretry & Hlen & Hlaunch & _).
      rewrite Hlaunch. split; [lia|].
      split; [|apply Forall_app; now split].
      rewrite (Hsleeps _ Hretry). unfold is_sleep.
      rewrite retry_log_sleeps. lia.
Qed.

End ConnectSuccess.

(** ** The views of the registry *)

Lemma getConnectedServers_in w name :
  In name (getConnectedServers w)
  <-> exists connection,
        In (name, connection) (serverConnections w)
        /\ isConnected connection = true.
Proof.
  unfold getConnectedServers. rewrite in_map_iff. split.
  - intros ([k c] & <- & Hin). apply filter_In in Hin as [Hin Hlive].
    exists c. auto.
  - intros (c & Hin & Hlive). exists (name, c). split; [reflexivity|].
    apply filter_In. auto.
Qed.

Lemma isSpecificServerConnected_in w name :
  isSpecificServerConnected name w = true ->
  exists connection,
    In (name, connection) (serverConnections w)
    /\ isConnected connection = true.
Proof.
  unfold isSpecificServerConnected.
  destruct (map_get name (serverConnections w)) as [c|] eqn:Hget;
    [|discriminate].
  intros Hlive. exists c. split; [now apply map_get_Some_in|exact Hlive].
Qed.

Lemma getAllTools_in_iff w tool :
  In tool (getAllTools w)
  <-> exists connection,
        In connection (map_values (serverConnections w))
        /\ isConnected connection = true
        /\ In tool (tools connection).
Proof.
  unfold getAllTools. rewrite in_flat_map. split.
  - intros (c & Hin & Htool). exists c.
    destruct (isConnected c); [auto|destruct Htool].
  - intros (c & Hin & Hlive & Htool). exists c. rewrite Hlive. auto.
Qed.

Lemma NoDup_connected (m : list (string * McpServerConnection.t)) :
  NoDup (map fst m) ->
  NoDup (map fst (List.filter (fun entry => isConnected (snd entry)) m)).
Proof.
  induction m as [|[k c] m IH]; [intros _; constructor|].
  cbn [map List.filter fst snd]. intros Hnd.
  apply NoDup_cons in Hnd as [Hk Hnd].
  destruct (isConnected c); [|now apply IH].
  cbn [map fst]. apply NoDup_cons. split; [|now apply IH].
  intros Hin. apply Hk. apply list_elem_of_In in Hin.
  apply list_elem_of_In. apply in_map_iff in Hin as (e & He & Hin).
  apply filter_In in Hin as [Hin _]. rewrite <- He. now apply in_map.
Qed.

(** X4.  The views of the registry agree with one another: a name is in the
    list of connected servers exactly when it is reported connected on its
    own, no name is listed twice, some server is connected exactly when
    the list is not empty, and when none is connected no tool is
    listed. *)
Theorem connection_views_agree w :
  NoDup (map_keys (serverConnections w)) ->
  (forall name,
      In name (getConnectedServers w)
      <-> isSpecificServerConnected name w = true)
  /\ NoDup (getConnectedServers w)
  /\ (hasAnyServerConnected w = true
      <-> exists name, isSpecificServerConnected name w = true)
  /\ isServerConnected w = hasAnyServerConnected w
  /\ getTools w = getAllTools w
  /\ (hasAnyServerConnected w = false -> getAllTools w = []).
Proof.
  intros Hnd.
  assert (Hiff : forall name,
             In name (getConnectedServers w)
             <-> isSpecificServerConnected name w = true).
  { intros name. rewrite getConnectedServers_in. split.
    - intros (c & Hin & Hlive). unfold isSpecificServerConnected.
      now rewrite (map_get_nodup _ _ _ Hnd Hin).
    - apply isSpecificServerConnected_in. }
  split; [exact Hiff|].
  split; [now apply NoDup_connected|].
  split.
  { unfold hasAnyServerConnected. rewrite Nat.ltb_lt. split.
    - intros Hlen.
      assert (Hsome : exists name, In name (getConnectedServers w)).
      { destruct (getConnectedServers w) as [|name rest];
          [simpl in Hlen; lia|]. exists name. now left. }
      destruct Hsome as (name & Hin). exists name. now apply Hiff.
    - intros (name & Hlive). apply Hiff in Hlive.
      destruct (getConnectedServers w); [destruct Hlive|simpl; lia]. }
  split; [reflexivity|]. split; [reflexivity|].
  unfold hasAnyServerConnected. rewrite Nat.ltb_ge. intros Hlen.
  assert (Hnone : getConnectedServers w = [])
    by (destruct (getConnectedServers w); [reflexivity|simpl in Hlen; lia]).
  destruct (getAllTools w) as [|tool rest] eqn:E; [reflexivity|].
  assert (Hin : In tool (getAllTools w)) by (rewrite E; now left).
  apply getAllTools_in_iff in Hin as (c & Hin & Hlive & _).
  unfold map_values in Hin. apply in_map_iff in Hin as ([k c'] & <- & Hin).
  assert (Hk : In k (getConnectedServers w)).
  { apply getConnectedServers_in. exists c'. auto. }
  rewrite Hnone in Hk. destruct Hk.
Qed.

(** ** callTool and the tools on show *)

Lemma listed_iff_exposed name w :
  In name (map McpTool.name (getAllTools w))
  <-> exists connection,
        In connection (map_values (serverConnections w))
        /\ Exposes name connection.
Proof.
  rewrite in_map_iff. split.
  - intros (tool & Hname & Hin).
    apply getAllTools_in_iff in Hin as (c & Hin & Hlive & Htool).
    exists c. split; [exact Hin|]. split; [exact Hlive|]. eauto.
  - intros (c & Hin & Hlive & tool & Htool & Hname).
    exists tool. split; [exact Hname|].
    apply getAllTools_in_iff. eauto.
Qed.

(** X5.  [callTool] finds a server for exactly the tools that [getAllTools]
    shows: a call for a name among them is handed to the client of a
    connected server that lists it, and a call for any other name throws
    the not-found error without calling anything. *)
Theorem callTool_serves_listed_tools env name args w :
  (In name (map McpTool.name (getAllTools w)) ->
   exists target,
     In target (map_values (serverConnections w))
     /\ Exposes name target
     /\ callTool env name args w = delegated env (mcp target) name args w)
  /\ (~ In name (map McpTool.name (getAllTools w)) ->
      callTool env name args w = (Throws (ToolNotFound name), w)).
Proof.
  split.
  - intros Hlisted. apply listed_iff_exposed in Hlisted as (c & Hin & Hexp).
    destruct (List.find (exposes name) (map_values (serverConnections w)))
      as [target|] eqn:Hfind.
    + apply find_some in Hfind as Hsome. destruct Hsome as [Htin Htexp].
      exists target. split; [exact Htin|].
      split; [now apply exposes_iff|now apply callTool_found].
    + exfalso. apply (find_none _ _ Hfind) in Hin.
      apply exposes_false_iff in Hin. contradiction.
  - intros Hnot. apply callTool_not_found. apply find_none_all.
    intros c Hin. apply exposes_false_iff. intros Hexp.
    apply Hnot. apply listed_iff_exposed. eauto.
Qed.

(** ** disconnectServer and disconnectAll as functions of the world *)

Lemma disconnectServer_run env serverName w :
  disconnectServer env serverName w
  = (Returns tt, torn_down env serverName w).
Proof.
  unfold torn_down.
  destruct (map_get serverName (serverConnections w)) as [connection|]
    eqn:Hget.
  - destruct (isConnected connection) eqn:Hlive.
    + now apply disconnectServer_live.
    + apply disconnectServer_idle. unfold isSpecificServerConnected.
      now rewrite Hget.
  - apply disconnectServer_idle. unfold isSpecificServerConnected.
    now rewrite Hget.
Qed.

(** The handles that were asked to close, in order. *)
Definition client_closes (evs : list Event) : list Handle :=
  flat_map (fun e => match e with
                     | EvClientClose h _ => [h]
                     | _ => []
                     end) evs.

Definition transport_closes (evs : list Event) : list Handle :=
  flat_map (fun e => match e with
                     | EvTransportClose h _ => [h]
                     | _ => []
                     end) evs.

Definition is_close (e : Event) : bool :=
  match e with
  | EvClientClose _ _ | EvTransportClose _ _ => true
  | _ => false
  end.

(** The connections that are live, in the iteration order of the map. *)
Definition live (m : list (string * McpServerConnection.t))
  : list McpServerConnection.t :=
  List.filter isConnected (map_values m).

Definition transport_of (connection : McpServerConnection.t)
  : list Handle :=
  match transport connection with
  | Some t => [t]
  | None => []
  end.

(** The live connection on file under a name, if there is one. *)
Definition live_under (w : World) (name : string)
  : list McpServerConnection.t :=
  match map_get name (serverConnections w) with
  | Some connection => if isConnected connection then [connection] else []
  | None => []
  end.

Lemma torn_down_closes env name w :
  exists evs,
    trace (torn_down env name w) = trace w ++ evs
    /\ forallb is_close evs = true
    /\ client_closes evs = map mcp (live_under w name)
    /\ transport_closes evs = flat_map transport_of (live_under w name).
Proof.
  unfold torn_down, live_under.
  destruct (map_get name (serverConnections w)) as [connection|].
  - destruct (isConnected connection).
    + exists (teardown_events env connection (trace w)).
      split; [reflexivity|]. unfold teardown_events. simpl.
      unfold transport_of. destruct (transport connection); simpl; auto.
    + exists []. rewrite app_nil_r. auto.
  - exists []. rewrite app_nil_r. auto.
Qed.

Lemma flat_map_ext_in {A B} (f g : A -> list B) l :
  (forall x, In x l -> f x = g x) -> flat_map f l = flat_map g l.
Proof.
  induction l as [|x l IH]; simpl; intros H; [reflexivity|].
  rewrite (H x) by now left. rewrite IH; [reflexivity|].
  intros y Hy. apply H. now right.
Qed.

Lemma client_closes_app evs1 evs2 :
  client_closes (evs1 ++ evs2) = client_closes evs1 ++ client_closes evs2.
Proof. unfold client_closes. apply flat_map_app. Qed.

Lemma transport_closes_app evs1 evs2 :
  transport_closes (evs1 ++ evs2)
  = transport_closes evs1 ++ transport_closes evs2.
Proof. unfold transport_closes. apply flat_map_app. Qed.

Lemma disconnect_each_run env names :
  forall w,
    NoDup names ->
    exists w' evs,
      disconnect_each env names w = (Returns tt, w')
      /\ map_keys (serverConnections w') = map_keys (serverConnections w)
      /\ config w' = config w
      /\ (forall name, In name names ->
            isSpecificServerConnected name w' = false)
      /\ (forall name, ~ In name names ->
            map_get name (serverConnections w')
            = map_get name (serverConnections w))
      /\ trace w' = trace w ++ evs
      /\ forallb is_close evs = true
      /\ client_closes evs = map mcp (flat_map (live_under w) names)
      /\ transport_closes evs
         = flat_map transport_of (flat_map (live_under w) names).
Proof.
  induction names as [|name rest IH]; intros w Hnd.
  - exists w, []. simpl. rewrite app_nil_r. unfold ret.
    repeat split; auto. intros name [].
  - apply NoDup_cons in Hnd as [Hname Hnd].
    rewrite list_elem_of_In in Hname.
    simpl. unfold bind, try_catch. rewrite disconnectServer_run.
    destruct (torn_down_frame env name 0 w) as (Hcfg1 & _).
    destruct (torn_down_registry env name w) as (Hkeys1 & Hother1 & Hoff1 & _).
    destruct (torn_down_closes env name w)
      as (evs1 & Htr1 & Hclose1 & Hcl1 & Htc1).
    destruct (IH (torn_down env name w) Hnd)
      as (w' & evs2 & Hrun & Hkeys & Hcfg & Hoff & Hother & Htr & Hclose2
          & Hcl2 & Htc2).
    assert (Hsame : forall k, In k rest ->
               live_under (torn_down env name w) k = live_under w k).
    { intros k Hk. unfold live_under. rewrite Hother1; [reflexivity|].
      intros ->. contradiction. }
    rewrite (flat_map_ext_in _ _ _ Hsame) in Hcl2, Htc2.
    exists w', (evs1 ++ evs2). split; [exact Hrun|].
    split; [congruence|]. split; [congruence|].
    split.
    { intros k [<-|Hk]; [|now apply Hoff].
      unfold isSpecificServerConnected in *.
      now rewrite (Hother name Hname). }
    split.
    { intros k Hk. rewrite Hother by (intros H; apply Hk; now right).
      apply Hother1. intros ->. apply Hk. now left. }
    split; [rewrite Htr, Htr1, app_assoc; reflexivity|].
    split; [rewrite forallb_app, Hclose1, Hclose2; reflexivity|].
    split.
    + rewrite client_closes_app, Hcl1, Hcl2, map_app. reflexivity.
    + rewrite transport_closes_app, Htc1, Htc2, flat_map_app. reflexivity.
Qed.

Lemma live_under_keys (m l : list (string * McpServerConnection.t)) w :
  serverConnections w = m ->
  (forall name connection,
      In (name, connection) l -> map_get name m = Some connection) ->
  flat_map (live_under w) (map fst l) = List.filter isConnected (map snd l).
Proof.
  intros Hm. induction l as [|[k c] l IH]; intros Hl; [reflexivity|].
  cbn [map fst snd flat_map List.filter].
  unfold live_under at 1. rewrite Hm, (Hl k c) by now left.
  rewrite IH by (intros n c' Hin; apply Hl; now right).
  now destruct (isConnected c).
Qed.

(** X6.  [disconnectAll] never throws.  Afterwards no server is connected and
    no tool is on show, while every name is still on file, in the same
    order; the configuration is untouched.  On the way the client of every
    connection that was live has been asked to close, once, in the order
    of the registry, and so has its transport; nothing else was done. *)
Theorem disconnectAll_disconnects_every_server env w :
  NoDup (map_keys (serverConnections w)) ->
  exists w' evs,
    disconnectAll env w = (Returns tt, w')
    /\ cleanup env w = (Returns tt, w')
    /\ map_keys (serverConnections w') = map_keys (serverConnections w)
    /\ getConnectedServers w' = []
    /\ getAllTools w' = []
    /\ hasAnyServerConnected w' = false
    /\ config w' = config w
    /\ trace w' = trace w ++ evs
    /\ forallb is_close evs = true
    /\ client_closes evs = map mcp (live (serverConnections w))
    /\ transport_closes evs
       = flat_map transport_of (live (serverConnections w)).
Proof.
  intros Hnd.
  destruct (disconnect_each_run env (map_keys (serverConnections w)) w Hnd)
    as (w' & evs & Hrun & Hkeys & Hcfg & Hoff & _ & Htr & Hclose & Hcl & Htc).
  assert (Hall : disconnectAll env w = (Returns tt, w')).
  { unfold disconnectAll. unfold bind at 1. unfold get. exact Hrun. }
  assert (Hnone : forall name connection,
             In (name, connection) (serverConnections w') ->
             isConnected connection = false).
  { intros name c Hin.
    assert (Hk : In name (map_keys (serverConnections w))).
    { rewrite <- Hkeys. unfold map_keys.
      change name with (fst (name, c)). now apply in_map. }
    specialize (Hoff name Hk). unfold isSpecificServerConnected in Hoff.
    rewrite <- Hkeys in Hnd.
    now rewrite (map_get_nodup _ _ _ Hnd Hin) in Hoff. }
  assert (Hservers : getConnectedServers w' = []).
  { destruct (getConnectedServers w') as [|name rest] eqn:E; [reflexivity|].
    assert (Hin : In name (getConnectedServers w')) by (rewrite E; now left).
    apply getConnectedServers_in in Hin as (c & Hin & Hlive).
    rewrite (Hnone _ _ Hin) in Hlive. discriminate. }
  assert (Hlive : flat_map (live_under w) (map_keys (serverConnections w))
                  = live (serverConnections w)).
  { apply (live_under_keys (serverConnections w)); [reflexivity|].
    intros name c Hin. now apply map_get_nodup. }
  exists w', evs. split; [exact Hall|]. split; [exact Hall|].
  split; [exact Hkeys|]. split; [exact Hservers|].
  split.
  { destruct (getAllTools w') as [|tool rest] eqn:E; [reflexivity|].
    assert (Hin : In tool (getAllTools w')) by (rewrite E; now left).
    apply getAllTools_in_iff in Hin as (c & Hin & Hc & _).
    unfold map_values in Hin. apply in_map_iff in Hin as ([k c'] & <- & Hin).
    cbn [snd] in Hc. rewrite (Hnone _ _ Hin) in Hc. discriminate. }
  split; [unfold hasAnyServerConnected; now rewrite Hservers|].
  split; [exact Hcfg|]. split; [exact Htr|]. split; [exact Hclose|].
  rewrite <- Hlive. auto.
Qed.

(** ** The registry stays consistent *)

(** An entry is filed properly under [name]: it carries that name, every
    tool it lists is tagged with it, and when it is not connected it has
    neither tools nor transport. *)
Definition filed_under (name : string) (connection : McpServerConnection.t)
  : Prop :=
  serverName connection = name
  /\ Forall (fun tool => McpTool.serverName tool = name) (tools connection)
  /\ tidy connection.

(** The keys of the registry are distinct, as those of a [Map] are, and
    every entry is filed properly under its key. *)
Definition registry_consistent (w : World) : Prop :=
  NoDup (map_keys (serverConnections w))
  /\ forall name connection,
       In (name, connection) (serverConnections w) ->
       filed_under name connection.

Lemma registry_consistent_same w w' :
  registry_consistent w ->
  serverConnections w' = serverConnections w ->
  registry_consistent w'.
Proof. unfold registry_consistent. intros H ->. exact H. Qed.

Lemma registry_consistent_set w w' name connection :
  registry_consistent w ->
  filed_under name connection ->
  serverConnections w' = map_set name connection (serverConnections w) ->
  registry_consistent w'.
Proof.
  intros [Hnd Hall] Hc Hset. unfold registry_consistent. rewrite Hset.
  split; [now apply NoDup_map_set|].
  intros k c Hin. apply map_set_in_key in Hin as [Hin|[-> ->]];
    [now apply Hall|exact Hc].
Qed.

Lemma filed_under_disconnected name connection :
  filed_under name connection -> filed_under name (disconnected connection).
Proof.
  intros (Hname & _ & _). split; [exact Hname|].
  split; [constructor|]. intros _. now split.
Qed.

Lemma filed_under_connected name h listed :
  filed_under name
    (McpServerConnection.mk name h (Some h) (tag_tools name listed) true).
Proof.
  split; [reflexivity|]. split.
  - simpl. apply List.Forall_forall. intros tool Hin.
    now apply tag_tools_serverName in Hin.
  - intros H. discriminate.
Qed.

Lemma torn_down_consistent env name w :
  registry_consistent w -> registry_consistent (torn_down env name w).
Proof.
  intros Hw. unfold torn_down.
  destruct (map_get name (serverConnections w)) as [connection|] eqn:Hget;
    [|exact Hw].
  destruct (isConnected connection); [|exact Hw].
  eapply registry_consistent_set; [exact Hw| |reflexivity].
  apply filed_under_disconnected. apply (proj2 Hw).
  now apply map_get_Some_in.
Qed.

Lemma registry_consistent_Rewritten name evs w w' :
  registry_consistent w ->
  Rewritten name evs (serverConnections w) (serverConnections w') ->
  registry_consistent w'.
Proof.
  intros Hw [Hsame|(c & Hc & Hset)].
  - now apply (registry_consistent_same w).
  - eapply registry_consistent_set; [exact Hw| |exact Hset].
    destruct Hc as (h & listed & _ & _ & _ & _ & _ & ->).
    apply filed_under_connected.
Qed.

(** The registry after [connectToServer]: when the call fails, what the
    teardown left, but for an entry that a task of the call has filed
    late; when it returns, what the teardown left with the new connection
    put on file. *)
Lemma connectToServer_registry env serverName retryCount timeoutMs w :
  match fst (connectToServer env serverName retryCount timeoutMs w) with
  | Throws _ =>
      Rewritten serverName
        (since w (snd (connectToServer env serverName retryCount timeoutMs
                         w)))
        (serverConnections (torn_down env serverName w))
        (serverConnections
           (snd (connectToServer env serverName retryCount timeoutMs w)))
  | Returns serverTools =>
      exists listed h,
        serverTools = tag_tools serverName listed
        /\ serverConnections
             (snd (connectToServer env serverName retryCount timeoutMs w))
           = map_set serverName
               (McpServerConnection.mk serverName h (Some h) serverTools
                  true)
               (serverConnections (torn_down env serverName w))
  end.
Proof.
  rewrite connectToServer_run.
  destruct (torn_down_start env serverName timeoutMs w) as (Hstart & Hnone).
  destruct (ConfigProblem_dec serverName (torn_down env serverName w))
    as [Hbad|Hok].
  - destruct (attempts_config_problem env serverName retryCount timeoutMs
                (length (trace w)) (S retryCount) 0 None _ Hbad
                ltac:(lia) ltac:(lia) Hstart Hnone)
      as (w2 & -> & Hsc & _).
    cbn [fst snd]. rewrite Hsc. apply Rewritten_refl.
  - apply not_ConfigProblem in Hok as (serverConfig & Hent & Hv).
    destruct (attempts env serverName retryCount timeoutMs
                (length (trace w)) (S retryCount) 0 None
                (torn_down env serverName w)) as [r w'] eqn:Hrun.
    destruct (attempts_valid env serverName retryCount timeoutMs
                (length (trace w)) (S retryCount) 0 None _ _ _ _ Hent Hv
                eq_refl Hstart Hrun)
      as (_ & evs & errors & _ & _ & Hout).
    destruct r as [ts|e]; cbn [fst snd].
    + destruct Hout as (listed & h & failed & before & Hts & Hsc & _).
      exists listed, h. auto.
    + now destruct Hout as (Hsc & _).
Qed.

(** [connectToServer] leaves the entries under other names alone. *)
Lemma connectToServer_others env serverName retryCount timeoutMs w other :
  other <> serverName ->
  map_get other
    (serverConnections
       (snd (connectToServer env serverName retryCount timeoutMs w)))
  = map_get other (serverConnections w).
Proof.
  intros Hne.
  destruct (torn_down_registry env serverName w) as (_ & Hother & _).
  pose proof (connectToServer_registry env serverName retryCount timeoutMs w)
    as Hreg.
  destruct (fst (connectToServer env serverName retryCount timeoutMs w)).
  - destruct Hreg as (listed & h & _ & ->).
    rewrite map_get_set_ne by congruence. now apply Hother.
  - rewrite (Rewritten_others _ _ _ _ other Hreg Hne). now apply Hother.
Qed.

Lemma disconnect_each_consistent env names :
  forall w,
    registry_consistent w ->
    registry_consistent (snd (disconnect_each env names w)).
Proof.
  induction names as [|name rest IH]; intros w Hw; [exact Hw|].
  simpl. unfold bind, try_catch. rewrite disconnectServer_run.
  apply IH. now apply torn_down_consistent.
Qed.

(** X7.  Every operation of the manager and of the conversation keeps a
    consistent registry consistent, whatever its outcome: connecting,
    whether it succeeds or fails, disconnecting one server or all, calling
    a tool, sending a message and setting the configuration.  An empty
    registry, that of a new manager, is consistent. *)
Theorem registry_consistent_kept env w :
  registry_consistent w ->
  (forall serverName retryCount timeoutMs,
      registry_consistent
        (snd (connectToServer env serverName retryCount timeoutMs w)))
  /\ (forall serverName,
        registry_consistent (snd (disconnectServer env serverName w)))
  /\ registry_consistent (snd (disconnectAll env w))
  /\ (forall name args,
        registry_consistent (snd (callTool env name args w)))
  /\ (forall messages,
        registry_consistent (snd (sendMessage env messages w)))
  /\ (forall cfg, registry_consistent (snd (setConfig cfg w)))
  /\ (forall w0, serverConnections w0 = [] -> registry_consistent w0).
Proof.
  intros Hw. split.
  { intros serverName retryCount timeoutMs.
    pose proof (torn_down_consistent env serverName w Hw) as Hw1.
    pose proof (connectToServer_registry env serverName retryCount timeoutMs
                  w) as Hreg.
    destruct (fst (connectToServer env serverName retryCount timeoutMs w)).
    - destruct Hreg as (listed & h & -> & Hset).
      eapply registry_consistent_set; [exact Hw1| |exact Hset].
      apply filed_under_connected.
    - eapply registry_consistent_Rewritten; eassumption. }
  split.
  { intros serverName. rewrite disconnectServer_run.
    now apply torn_down_consistent. }
  split.
  { unfold disconnectAll. unfold bind at 1. unfold get. cbv beta iota.
    now apply disconnect_each_consistent. }
  split.
  { intros name args. apply (registry_consistent_same w); [exact Hw|].
    destruct (List.find (exposes name) (map_values (serverConnections w)))
      as [target|] eqn:Hfind.
    - now rewrite (callTool_found _ _ _ _ _ Hfind).
    - now rewrite (callTool_not_found _ _ _ _ Hfind). }
  split.
  { intros messages. apply (registry_consistent_same w); [exact Hw|].
    apply sendMessage_leaves_registry. }
  split; [intros cfg; exact Hw|].
  intros w0 Hempty. unfold registry_consistent. rewrite Hempty. split.
  - apply NoDup_nil_2.
  - intros name connection [].
Qed.

(** X8.  In a consistent registry the tag on a tool tells where a call may go:
    every tool that [getAllTools] shows is tagged with the name of a
    server that is connected and lists it, so a call for it finds a
    server. *)
Theorem listed_tool_names_a_connected_server env w tool args :
  registry_consistent w ->
  In tool (getAllTools w) ->
  isSpecificServerConnected (McpTool.serverName tool) w = true
  /\ In (McpTool.serverName tool) (getConnectedServers w)
  /\ (exists connection,
        map_get (McpTool.serverName tool) (serverConnections w)
        = Some connection
        /\ In tool (tools connection))
  /\ exists target,
       Exposes (McpTool.name tool) target
       /\ callTool env (McpTool.name tool) args w
          = delegated env (mcp target) (McpTool.name tool) args w.
Proof.
  intros [Hnd Hall] Hin.
  apply getAllTools_in_iff in Hin as Hin'.
  destruct Hin' as (c & Hc & Hlive & Htool).
  unfold map_values in Hc. apply in_map_iff in Hc as ([k c'] & Hk & Hc).
  cbn [snd] in Hk. subst c'.
  destruct (Hall k c Hc) as (Hname & Htags & _).
  assert (Htag : McpTool.serverName tool = k).
  { rewrite List.Forall_forall in Htags. now apply Htags. }
  rewrite Htag.
  pose proof (map_get_nodup _ _ _ Hnd Hc) as Hget.
  assert (Hon : isSpecificServerConnected k w = true).
  { unfold isSpecificServerConnected. now rewrite Hget. }
  split; [exact Hon|].
  split; [apply getConnectedServers_in; eauto|].
  split; [eauto|].
  destruct (List.find (exposes (McpTool.name tool))
              (map_values (serverConnections w))) as [target|] eqn:Hfind.
  - apply find_some in Hfind as Hsome. destruct Hsome as [_ Hexp].
    exists target. split; [now apply exposes_iff|now apply callTool_found].
  - exfalso.
    assert (Hv : In c (map_values (serverConnections w))).
    { unfold map_values. change c with (snd (k, c)). now apply in_map. }
    apply (find_none _ _ Hfind) in Hv. apply exposes_false_iff in Hv.
    apply Hv. split; [exact Hlive|]. eauto.
Qed.

(** ** What the conversation does to the outside *)

(** The calls [sendMessage] makes: requests to the model, tool calls and
    readings of the clock. *)
Definition conversation_event (e : Event) : bool :=
  match e with
  | EvCreate _ _ | EvCallTool _ _ _ _ | EvNow _ => true
  | _ => false
  end.

Definition is_tool_call (e : Event) : bool :=
  match e with
  | EvCallTool _ _ _ _ => true
  | _ => false
  end.

Lemma callTool_events env name args w :
  exists evs,
    extends w (snd (callTool env name args w)) evs
    /\ forallb is_tool_call evs = true
    /\ match fst (callTool env name args w) with
       | Returns _ => length evs = 1
       | Throws _ => length evs <= 1
       end.
Proof.
  destruct (List.find (exposes name) (map_values (serverConnections w)))
    as [target|] eqn:Hfind.
  - rewrite (callTool_found _ _ _ _ _ Hfind). unfold delegated. simpl.
    eexists. split; [unfold extends; simpl; reflexivity|].
    split; [reflexivity|].
    destruct (client_callTool env (trace w) (mcp target) name args);
      simpl; lia.
  - rewrite (callTool_not_found _ _ _ _ Hfind). simpl.
    exists []. split; [apply extends_refl|]. simpl. auto.
Qed.

(** Blocks that come in pairs: a toolUse block, and right after it the
    toolResult block of the same call. *)
Inductive tool_pairs : list MessageContent.t -> Prop :=
| tool_pairs_nil : tool_pairs []
| tool_pairs_cons name args result rest :
    tool_pairs rest ->
    tool_pairs (toolUse name args :: toolResult name args result :: rest).

Lemma tool_pairs_app ps1 ps2 :
  tool_pairs ps1 -> tool_pairs ps2 -> tool_pairs (ps1 ++ ps2).
Proof.
  induction 1 as [|name args result rest Hrest IH]; intros H2;
    [exact H2|].
  simpl. constructor. now apply IH.
Qed.

Definition nonempty {A} (l : list A) : bool :=
  match l with
  | [] => false
  | _ :: _ => true
  end.

Lemma nonempty_app {A} (l1 l2 : list A) :
  nonempty (l1 ++ l2) = nonempty l1 || nonempty l2.
Proof. now destruct l1. Qed.

(** From [v] to [v'] within the [for] of one round: [hist] is what the
    history took and [ps] what the output accumulator took, which is pairs
    of toolUse and toolResult; a pair in the output means an entry in the
    history. *)
Record Advance (v v' : Vars) (hist : list MessageParam.t)
    (ps : list MessageContent.t) : Prop := {
  advance_history : conversationHistory v' = conversationHistory v ++ hist;
  advance_content : messageContent v' = messageContent v ++ ps;
  advance_pairs : tool_pairs ps;
  advance_round :
    hasToolCallsThisRound v' = hasToolCallsThisRound v || nonempty ps;
  advance_any : hasAnyToolCalls v' = hasAnyToolCalls v || nonempty ps;
  advance_entries : nonempty ps = true -> nonempty hist = true;
  advance_iterations : iterations v' = iterations v;
  advance_continue : shouldContinue v' = true -> shouldContinue v = true
}.

Lemma Advance_refl v : Advance v v [] [].
Proof.
  constructor; simpl; rewrite ?app_nil_r, ?orb_false_r; auto.
  constructor.
Qed.

Lemma Advance_trans v1 v2 v3 hist1 hist2 ps1 ps2 :
  Advance v1 v2 hist1 ps1 -> Advance v2 v3 hist2 ps2 ->
  Advance v1 v3 (hist1 ++ hist2) (ps1 ++ ps2).
Proof.
  intros [] []. constructor.
  - rewrite advance_history1, advance_history0. now rewrite app_assoc.
  - rewrite advance_content1, advance_content0. now rewrite app_assoc.
  - now apply tool_pairs_app.
  - rewrite advance_round1, advance_round0, nonempty_app.
    now rewrite orb_assoc.
  - rewrite advance_any1, advance_any0, nonempty_app. now rewrite orb_assoc.
  - rewrite !nonempty_app. intros H. apply orb_true_iff in H as [H|H].
    + rewrite advance_entries0 by exact H. reflexivity.
    + rewrite advance_entries1 by exact H. apply orb_true_r.
  - congruence.
  - auto.
Qed.

Lemma Advance_on_success v name input result :
  exists hist,
    Advance v
      (on_success name input result
         (push_messageContent (toolUse name input)
            (push_tempContent (toolUse name input)
               (record_call name (JSON_stringify input) v))))
      hist [toolUse name input; toolResult name input result].
Proof.
  unfold on_success. cbv zeta.
  match goal with
  | |- context [if ?b then _ else _] => destruct b
  end; eexists; constructor; simpl; rewrite <- ?app_assoc, ?orb_true_r;
    try reflexivity; auto; repeat constructor.
Qed.

Lemma Advance_on_failure v name input error :
  exists hist,
    Advance v
      (on_failure name input error
         (push_messageContent (toolUse name input)
            (push_tempContent (toolUse name input)
               (record_call name (JSON_stringify input) v))))
      hist [toolUse name input; toolResult name input error_result].
Proof.
  unfold on_failure. cbv zeta.
  match goal with
  | |- context [if ?b then _ else _] => destruct b
  end; eexists; constructor; simpl; rewrite <- ?app_assoc, ?orb_true_r;
    try reflexivity; auto; repeat constructor.
Qed.

Section Steps.
Context (env : Env).

(** The [for] over a response: it never throws, all it does to the
    outside is call tools, and it advances as [Advance] says. *)
Lemma process_content_advance blocks :
  forall v w,
  exists v' w' evs hist ps,
    process_content env blocks v w = (Returns v', w')
    /\ extends w w' evs
    /\ forallb is_tool_call evs = true
    /\ 2 * length evs <= length ps
    /\ Advance v v' hist ps.
Proof.
  induction blocks as [|block rest IH]; intros v w.
  - exists v, w, [], [], []. simpl. unfold ret.
    split; [reflexivity|]. split; [apply extends_refl|].
    split; [reflexivity|]. split; [lia|]. apply Advance_refl.
  - destruct block as [t|name input|]; simpl.
    + destruct (IH (set_modelTextResponse t
                      (push_tempContent (text_block t) v)) w)
        as (v' & w' & evs & hist & ps & Hrun & Hext & Hev & Hlen & Hadv).
      exists v', w', evs, hist, ps.
      split; [exact Hrun|]. split; [exact Hext|]. split; [exact Hev|].
      split; [exact Hlen|].
      destruct Hadv. constructor; auto.
    + destruct (isRepeatedCall (calledTools v) name input).
      * eexists _, w, [], [], []. unfold ret.
        split; [reflexivity|]. split; [apply extends_refl|].
        split; [reflexivity|]. split; [simpl; lia|].
        constructor; simpl; rewrite ?app_nil_r, ?orb_false_r; auto;
          try constructor; discriminate.
      * unfold bind at 1. rewrite execute_run.
        destruct (callTool_events env name input w)
          as (evs1 & Hext1 & Hev1 & Hlen1).
        match goal with
        | |- context [process_content env rest ?v1 ?w1] =>
            destruct (IH v1 w1)
              as (v' & w' & evs & hist & ps & Hrun & Hext & Hev & Hlen
                  & Hadv)
        end.
        destruct (fst (callTool env name input w)) as [result|error].
        -- destruct (Advance_on_success v name input result)
             as (hist1 & Hadv1).
           exists v', w', (evs1 ++ evs), (hist1 ++ hist),
             ([toolUse name input; toolResult name input result] ++ ps).
           split; [exact Hrun|].
           split; [eapply extends_trans; eassumption|].
           split; [now rewrite forallb_app, Hev1, Hev|].
           split; [rewrite !length_app; simpl; lia|].
           eapply Advance_trans; eassumption.
        -- destruct (Advance_on_failure v name input error)
             as (hist1 & Hadv1).
           exists v', w', (evs1 ++ evs), (hist1 ++ hist),
             ([toolUse name input; toolResult name input error_result]
              ++ ps).
           split; [exact Hrun|].
           split; [eapply extends_trans; eassumption|].
           split; [now rewrite forallb_app, Hev1, Hev|].
           split; [rewrite !length_app; simpl; lia|].
           eapply Advance_trans; eassumption.
    + apply IH.
Qed.

End Steps.

(** From the start of a round, [v], to its end, [v1]: the history took
    [hist]; the output took the pairs [ps] of the round and then, when the
    round called no tool, its text blocks [ts].  A round after which the
    loop goes on has called a tool, so it has added to the history and put
    no text into the output. *)
Record Round_done (v v1 : Vars) (hist : list MessageParam.t)
    (ps ts : list MessageContent.t) : Prop := {
  done_iterations : iterations v1 = S (iterations v);
  done_history : conversationHistory v1 = conversationHistory v ++ hist;
  done_content : messageContent v1 = messageContent v ++ ps ++ ts;
  done_pairs : tool_pairs ps;
  done_texts : forallb is_text ts = true;
  done_any : hasAnyToolCalls v1 = hasAnyToolCalls v || nonempty ps;
  done_going_on :
    shouldContinue v1 = true ->
    shouldContinue v = true /\ nonempty ps = true /\ nonempty hist = true
    /\ ts = []
}.

Lemma forallb_filter_same {A} (f : A -> bool) l :
  forallb f (List.filter f l) = true.
Proof.
  induction l as [|x l IH]; simpl; [reflexivity|].
  destruct (f x) eqn:Hx; simpl; [now rewrite Hx|exact IH].
Qed.

Lemma end_round_done v v2 hist ps :
  Advance (begin_round v) v2 hist ps ->
  exists hist' ts, Round_done v (end_round v2) hist' ps ts.
Proof.
  intros [Hh Hc Hp Hr Ha He Hi Hcont].
  simpl in Hh, Hc, Hr, Ha, Hi, Hcont.
  unfold end_round. rewrite Hr.
  destruct (nonempty ps) eqn:Hps; cbn [negb].
  - exists hist, []. constructor; simpl; rewrite ?app_nil_r, ?Hps; auto.
  - pose proof (flush_texts (List.filter is_text (tempContent v2)) v2) as F.
    cbv zeta in F.
    destruct F as (F1 & F2 & F3 & F4 & F5 & F6 & F7 & F8 & F9 & F10).
    destruct ps as [|p ps]; [|discriminate].
    rewrite app_nil_r in Hc.
    destruct (truthy _) eqn:Ht.
    + eexists (hist ++ [_]), _. constructor; simpl;
        rewrite ?F1, ?F2, ?F4, ?F5, ?Hh, ?Hc, ?Hi, ?Ha, ?orb_false_r,
          <- ?app_assoc; try reflexivity.
      * constructor.
      * apply forallb_filter_same.
      * discriminate.
    + eexists hist, _. constructor; simpl;
        rewrite ?F1, ?F2, ?F4, ?F5, ?Hh, ?Hc, ?Hi, ?Ha, ?orb_false_r,
          <- ?app_assoc; try reflexivity.
      * constructor.
      * apply forallb_filter_same.
      * discriminate.
Qed.

(** The request of a round. *)
Definition request_for (model : string) (tools : list ApiTool.t)
    (history : list MessageParam.t) : CreateParams.t :=
  {| CreateParams.model := model;
     CreateParams.max_tokens := 1000;
     CreateParams.messages := history;
     CreateParams.tools :=
       if (0 <? length tools)%nat then Some tools else None |}.

Section RoundFacts.
Context (env : Env) (tools : list ApiTool.t).

(** One round: the request, then, when it is answered, the tool calls of
    the answer. *)
Lemma round_facts v w :
  exists outcome evs,
    extends w (snd (round env tools v w))
      (EvCreate (request_for (modelName w) tools (conversationHistory v))
         outcome :: evs)
    /\ forallb is_tool_call evs = true
    /\ match outcome with
       | Rejected e => fst (round env tools v w) = Throws e /\ evs = []
       | Resolved response =>
           exists v1 hist ps ts,
             fst (round env tools v w) = Returns v1
             /\ Round_done v v1 hist ps ts
             /\ 2 * length evs <= length ps
       end.
Proof.
  rewrite round_run.
  change (round_request tools v w)
    with (request_for (modelName w) tools (conversationHistory v)).
  set (request := request_for (modelName w) tools (conversationHistory v)).
  destruct (messages_create env (trace w) request) as [response|e].
  - destruct (process_content_advance env response (begin_round v)
                (with_trace (trace w ++ [EvCreate request (Resolved response)])
                   w))
      as (v2 & w2 & evs & hist & ps & Hrun & Hext & Hev & Hlen & Hadv).
    rewrite Hrun. simpl.
    exists (Resolved response), evs.
    split.
    { change (EvCreate request (Resolved response) :: evs)
        with ([EvCreate request (Resolved response)] ++ evs).
      eapply extends_trans; [|exact Hext]. apply extends_event. }
    split; [exact Hev|].
    destruct (end_round_done _ _ _ _ Hadv) as (hist' & ts & Hdone).
    exists (end_round v2), hist', ps, ts. auto.
  - exists (Rejected e), []. simpl.
    split; [apply extends_event|]. auto.
Qed.

End RoundFacts.

(** Histories each of which extends the one before it by at least one
    entry. *)
Fixpoint grows {A} (hs : list (list A)) : Prop :=
  match hs with
  | [] => True
  | h1 :: rest =>
      match rest with
      | [] => True
      | h2 :: _ => exists added, nonempty added = true /\ h2 = h1 ++ added
      end
      /\ grows rest
  end.

Definition resolved {A} (outcome : Settled A) : bool :=
  match outcome with
  | Resolved _ => true
  | Rejected _ => false
  end.

Lemma tool_calls_only evs :
  forallb is_tool_call evs = true ->
  creates evs = [] /\ forallb conversation_event evs = true.
Proof.
  induction evs as [|e evs IH]; simpl; [auto|].
  intros H. apply andb_true_iff in H as [He Hevs].
  destruct (IH Hevs) as [Hc Hk]. destruct e; try discriminate. simpl. auto.
Qed.

Lemma tool_calls_length evs : length (tool_calls evs) <= length evs.
Proof.
  induction evs as [|e evs IH]; simpl; [lia|].
  destruct e; simpl; lia.
Qed.

Section LoopFacts.
Context (env : Env) (tools : list ApiTool.t).

Lemma while_loop_stop fuel v w :
  shouldContinue v = false ->
  while_loop env tools fuel v w = (Returns v, w).
Proof. intros H. destruct fuel; simpl; [reflexivity|]. now rewrite H. Qed.

(** The loop: its requests carry the histories [hs], the first of which
    is the history the loop started with and each of which extends the one
    before; it makes no more requests than the guard allows; it stops with
    an error only when a request is rejected; and what it puts into the
    output is pairs of toolUse and toolResult, followed by the text blocks
    of the round that called no tool. *)
Lemma while_loop_facts fuel :
  forall v w,
  exists evs hs,
    extends w (snd (while_loop env tools fuel v w)) evs
    /\ forallb conversation_event evs = true
    /\ map fst (creates evs) = map (request_for (modelName w) tools) hs
    /\ length hs <= fuel
    /\ (hs <> [] ->
        hd_error hs = Some (conversationHistory v)
        /\ shouldContinue v = true
        /\ iterations v + length hs <= maxIterations)
    /\ grows hs
    /\ match fst (while_loop env tools fuel v w) with
       | Returns v' =>
           forallb resolved (map snd (creates evs)) = true
           /\ iterations v' = iterations v + length hs
           /\ (hasAnyToolCalls v = true -> hasAnyToolCalls v' = true)
           /\ (shouldContinue v' = true -> hs <> [] ->
               hasAnyToolCalls v' = true)
           /\ (hs = [] -> v' = v /\ evs = [])
           /\ (tool_pairs (messageContent v) ->
               exists ps ts,
                 messageContent v' = ps ++ ts
                 /\ tool_pairs ps
                 /\ forallb is_text ts = true
                 /\ (shouldContinue v' = true -> ts = [])
                 /\ 2 * length (tool_calls evs) + length (messageContent v)
                    <= length ps)
       | Throws e =>
           exists before params,
             evs = before ++ [EvCreate params (Rejected e)]
       end.
Proof.
  assert (Hrefl : forall v w,
             exists evs hs,
               extends w w evs
               /\ forallb conversation_event evs = true
               /\ map fst (creates evs)
                  = map (request_for (modelName w) tools) hs
               /\ length hs <= 0
               /\ (hs <> [] ->
                   hd_error hs = Some (conversationHistory v)
                   /\ shouldContinue v = true
                   /\ iterations v + length hs <= maxIterations)
               /\ grows hs
               /\ forallb resolved (map snd (creates evs)) = true
               /\ iterations v = iterations v + length hs
               /\ (hasAnyToolCalls v = true -> hasAnyToolCalls v = true)
               /\ (shouldContinue v = true -> hs <> [] ->
                   hasAnyToolCalls v = true)
               /\ (hs = [] -> v = v /\ evs = [])
               /\ (tool_pairs (messageContent v) ->
                   exists ps ts,
                     messageContent v = ps ++ ts
                     /\ tool_pairs ps
                     /\ forallb is_text ts = true
                     /\ (shouldContinue v = true -> ts = [])
                     /\ 2 * length (tool_calls evs)
                        + length (messageContent v)
                        <= length ps)).
  { intros v w. exists [], []. simpl.
    split; [apply extends_refl|]. repeat split; auto; try congruence.
    intros Hp. exists (messageContent v), []. rewrite app_nil_r. auto. }
  induction fuel as [|fuel IH]; intros v w.
  - simpl. apply Hrefl.
  - simpl.
    destruct (shouldContinue v && (iterations v <? maxIterations)%nat)
      eqn:Hguard.
    2:{ simpl. destruct (Hrefl v w) as (evs & hs & H1 & H2 & H3 & H4 & H).
        exists evs, hs. repeat split; try tauto. lia. }
    apply andb_true_iff in Hguard as [Hcont Hiter].
    apply Nat.ltb_lt in Hiter.
    unfold bind.
    destruct (round_facts env tools v w)
      as (outcome & evs1 & Hext1 & Hev1 & Hout).
    destruct (tool_calls_only _ Hev1) as [Hcr1 Hconv1].
    set (request := request_for (modelName w) tools (conversationHistory v))
      in *.
    destruct (round env tools v w) as [[v1|e] w1] eqn:Hround;
      simpl in Hext1, Hout.
    + destruct outcome as [response|e]; [|destruct Hout; discriminate].
      destruct Hout as (v1' & hist & ps & ts & [= <-] & Hdone & Hcalls1).
      destruct Hdone as [Di Dh Dc Dp Dt Da Dg].
      pose proof (tool_calls_length evs1) as Htc1.
      assert (Hmodel : modelName w1 = modelName w)
        by (eapply extends_modelName; exact Hext1).
      destruct (IH v1 w1)
        as (evs2 & hs2 & Hext2 & Hconv2 & Hreq2 & Hlen2 & Hhead2 & Hgrow2
            & Hout2).
      rewrite Hmodel in Hreq2.
      exists ((EvCreate request (Resolved response) :: evs1) ++ evs2),
        (conversationHistory v :: hs2).
      split; [eapply extends_trans; eassumption|].
      split; [rewrite forallb_app; simpl; now rewrite Hconv1, Hconv2|].
      split.
      { rewrite creates_app.
        change (creates (EvCreate request (Resolved response) :: evs1))
          with ((request, Resolved response) :: creates evs1).
        rewrite Hcr1. simpl. now rewrite Hreq2. }
      split; [simpl; lia|].
      assert (Hsum : iterations v + length (conversationHistory v :: hs2)
                     <= maxIterations).
      { simpl. destruct hs2 as [|h2 hs2]; [simpl; lia|].
        destruct Hhead2 as (_ & _ & Hle); [discriminate|].
        rewrite Di in Hle. simpl in Hle |- *. lia. }
      split; [intros _; auto|].
      split.
      { simpl. split; [|exact Hgrow2].
        destruct hs2 as [|h2 hs2]; [exact I|].
        destruct Hhead2 as ([= ->] & Hc1 & _); [discriminate|].
        destruct (Dg Hc1) as (_ & _ & Hhist & _).
        exists hist. auto. }
      destruct (fst (while_loop env tools fuel v1 w1)) as [v'|e].
      * destruct Hout2 as (Hres2 & Hi2 & Hmono2 & Hany2 & Hsame2 & Hpairs2).
        split.
        { rewrite creates_app.
          change (creates (EvCreate request (Resolved response) :: evs1))
            with ((request, Resolved response) :: creates evs1).
          rewrite Hcr1. simpl. exact Hres2. }
        split; [rewrite Hi2, Di; simpl; lia|].
        split.
        { intros Hany. apply Hmono2. rewrite Da, Hany. reflexivity. }
        split.
        { intros Hc' _. destruct hs2 as [|h2 hs2].
          - rewrite (proj1 (Hsame2 eq_refl)) in Hc' |- *.
            destruct (Dg Hc') as (_ & Hps & _). rewrite Da, Hps.
            apply orb_true_r.
          - apply Hany2; [exact Hc'|discriminate]. }
        split; [discriminate|].
        intros Hp.
        destruct (shouldContinue v1) eqn:Hc1.
        -- destruct (Dg eq_refl) as (_ & _ & _ & ->).
           rewrite app_nil_r in Dc.
           destruct Hpairs2 as (ps' & ts' & Hm' & Hps' & Hts' & Hc' & Hn').
           { rewrite Dc. now apply tool_pairs_app. }
           exists ps', ts'. split; [exact Hm'|]. split; [exact Hps'|].
           split; [exact Hts'|]. split; [exact Hc'|].
           rewrite Dc, length_app in Hn'.
           rewrite tool_calls_app, length_app.
           change (tool_calls (EvCreate request (Resolved response) :: evs1))
             with (tool_calls evs1).
           lia.
        -- assert (Hstop : hs2 = []).
           { destruct hs2 as [|h2 hs2]; [reflexivity|].
             destruct Hhead2 as (_ & Hc & _); [discriminate|congruence]. }
           destruct (Hsame2 Hstop) as [-> ->].
           exists (messageContent v ++ ps), ts.
           rewrite Dc, app_assoc. split; [reflexivity|].
           split; [now apply tool_pairs_app|].
           split; [exact Dt|]. split; [congruence|].
           rewrite app_nil_r, length_app.
           change (tool_calls (EvCreate request (Resolved response) :: evs1))
             with (tool_calls evs1).
           simpl. lia.
      * destruct Hout2 as (before & params & ->).
        exists ((EvCreate request (Resolved response) :: evs1) ++ before),
          params. now rewrite <- app_assoc.
    + destruct outcome as [response|e'].
      { destruct Hout as (v1' & hist & ps & ts & Habs & _). discriminate. }
      destruct Hout as ([= <-] & ->).
      exists [EvCreate request (Rejected e)], [conversationHistory v].
      split; [exact Hext1|]. split; [reflexivity|].
      split; [reflexivity|]. split; [simpl; lia|].
      split; [intros _; simpl; repeat split; auto; lia|].
      split; [simpl; auto|].
      simpl. exists [], request. reflexivity.
Qed.

End LoopFacts.

Lemma first_text_texts response : forallb is_text (first_text response) = true.
Proof.
  induction response as [|[t|name input|] rest IH]; simpl; auto.
Qed.

Lemma all_texts_texts response : forallb is_text (all_texts response) = true.
Proof.
  unfold all_texts. induction response as [|c response IH]; simpl;
    [reflexivity|].
  destruct c; simpl; auto.
Qed.

Section Conversation.
Context (env : Env).

(** What follows the loop: at most one more request, the summary request
    at the iteration cap or else the fallback request when nothing was
    produced; text blocks are all it can add, and it fails only when its
    request is rejected or when, at the cap, there is no last message. *)
Lemma conclude_facts messages v0 w0 :
  (shouldContinue v0 = true -> maxIterations <= iterations v0 ->
   hasAnyToolCalls v0 = true) ->
  exists evs,
    extends w0
      (snd (conclude env messages (map to_MessageParam messages) v0 w0)) evs
    /\ (evs = []
        \/ exists params outcome,
             evs = [EvCreate params outcome]
             /\ ((exists question,
                    last messages = Some question
                    /\ params = summary_request w0 question
                    /\ shouldContinue v0 = true
                    /\ maxIterations <= iterations v0)
                 \/ (params = plain_request w0 messages
                     /\ hasAnyToolCalls v0 = false
                     /\ messageContent v0 = [])))
    /\ match fst (conclude env messages (map to_MessageParam messages) v0 w0)
       with
       | Returns v =>
           forallb resolved (map snd (creates evs)) = true
           /\ exists texts,
                messageContent v = messageContent v0 ++ texts
                /\ forallb is_text texts = true
       | Throws e =>
           (e = no_last_message /\ last messages = None /\ evs = []
            /\ maxIterations <= iterations v0)
           \/ exists params, evs = [EvCreate params (Rejected e)]
       end.
Proof.
  intros Hany. unfold conclude, bind. rewrite summarize_run.
  destruct ((maxIterations <=? iterations v0)%nat && shouldContinue v0)
    eqn:Hcap.
  - apply andb_true_iff in Hcap as [Hiter Hcont].
    apply Nat.leb_le in Hiter. specialize (Hany Hcont Hiter).
    destruct (last messages) as [question|] eqn:Hlast.
    + destruct (messages_create env (trace w0) (summary_request w0 question))
        as [response|e] eqn:Hcreate.
      * rewrite fall_back_run.
        destruct (summary_pushed response v0) as (Hm & _ & Ha).
        cbv zeta in Hm, Ha. rewrite Ha, Hany. cbn [negb andb fst snd].
        eexists. split; [apply extends_event|].
        split; [right; eexists _, _; split; [reflexivity|]; left; eauto|].
        split; [reflexivity|].
        exists (first_text response). split; [exact Hm|].
        apply first_text_texts.
      * cbn [fst snd]. eexists. split; [apply extends_event|].
        split; [right; eexists _, _; split; [reflexivity|]; left; eauto|].
        right. eauto.
    + cbn [fst snd]. exists []. split; [apply extends_refl|].
      split; [now left|]. left. auto.
  - rewrite fall_back_run.
    destruct (negb (hasAnyToolCalls v0)
              && (length (messageContent v0) =? 0)%nat) eqn:Hfb.
    + apply andb_true_iff in Hfb as [Hno Hempty].
      apply negb_true_iff in Hno. apply Nat.eqb_eq in Hempty.
      apply length_zero_iff_nil in Hempty.
      cbv zeta.
      change {| CreateParams.model := modelName w0;
                CreateParams.max_tokens := 1000;
                CreateParams.messages := map to_MessageParam messages;
                CreateParams.tools := None |}
        with (plain_request w0 messages).
      destruct (messages_create env (trace w0) (plain_request w0 messages))
        as [response|e] eqn:Hcreate; cbn [fst snd].
      * eexists. split; [apply extends_event|].
        split; [right; eexists _, _; split; [reflexivity|]; right; auto|].
        split; [reflexivity|].
        exists (all_texts response). split; [apply fallback_texts|].
        apply all_texts_texts.
      * eexists. split; [apply extends_event|].
        split; [right; eexists _, _; split; [reflexivity|]; right; auto|].
        right. eauto.
    + cbn [fst snd]. exists []. split; [apply extends_refl|].
      split; [now left|]. split; [reflexivity|].
      exists []. now rewrite app_nil_r.
Qed.

End Conversation.

Definition missing_key : string := "Anthropic API密钥未设置".

Lemma after_init_env w :
  process_env (after_init w) = process_env w
  /\ getTools (after_init w) = getTools w.
Proof.
  unfold getTools, getAllTools.
  destruct (after_init_frame w) as (_ & -> & _). split; [|reflexivity].
  unfold after_init, initAnthropicClient. unfold_monad.
  destruct (isInitialized w); simpl; [auto|].
  repeat match goal with
         | |- context [if ?b then _ else _] => destruct b
         end; simpl; auto.
Qed.

Lemma summary_request_model w w' question :
  modelName w' = modelName w ->
  summary_request w' question = summary_request w question.
Proof. unfold summary_request. now intros ->. Qed.

Lemma plain_request_model w w' messages :
  modelName w' = modelName w ->
  plain_request w' messages = plain_request w messages.
Proof. unfold plain_request. now intros ->. Qed.

Section Calls.
Context (env : Env).

(** A call of [sendMessage] that has a client, from beginning to end: the
    events of the loop, those of the closing request, and the two readings
    of the clock. *)
Lemma sendMessage_facts messages w client :
  anthropic (after_init w) = Some client ->
  exists loop_evs hs close_evs tail,
    extends (after_init w) (snd (sendMessage env messages w))
      (loop_evs ++ close_evs ++ tail)
    /\ forallb conversation_event (loop_evs ++ close_evs ++ tail) = true
    /\ map fst (creates loop_evs)
       = map (request_for (modelName (after_init w))
                (map to_ApiTool (getTools w))) hs
    /\ length hs <= maxIterations
    /\ (hs <> [] -> hd_error hs = Some (map to_MessageParam messages))
    /\ grows hs
    /\ (close_evs = []
        \/ exists params outcome,
             close_evs = [EvCreate params outcome]
             /\ ((exists question,
                    last messages = Some question
                    /\ params = summary_request (after_init w) question
                    /\ length hs = maxIterations)
                 \/ params = plain_request (after_init w) messages))
    /\ creates tail = []
    /\ match fst (sendMessage env messages w) with
       | Returns m =>
           Message.role m = assistant
           /\ forallb resolved (map snd (creates (loop_evs ++ close_evs)))
              = true
           /\ (exists t1 t2, tail = [EvNow t1; EvNow t2])
           /\ exists ps ts,
                Message.content m = ps ++ ts
                /\ tool_pairs ps
                /\ forallb is_text ts = true
                /\ 2 * length (tool_calls (loop_evs ++ close_evs ++ tail))
                   <= length ps
       | Throws e =>
           tail = []
           /\ ((e = no_last_message /\ last messages = None
                /\ length hs = maxIterations /\ close_evs = [])
               \/ exists before params,
                    loop_evs ++ close_evs
                    = before ++ [EvCreate params (Rejected e)])
       end.
Proof.
  intros Hclient. rewrite sendMessage_run, Hclient.
  destruct (after_init_env w) as (_ & Htools). rewrite Htools.
  set (w0 := after_init w) in *.
  set (tools := map to_ApiTool (getTools w)).
  set (am := map to_MessageParam messages).
  destruct (while_loop_facts env tools maxIterations (initial am) w0)
    as (evs0 & hs & Hext0 & Hconv0 & Hreq0 & Hlen0 & Hhead0 & Hgrow0 & Hout0).
  destruct (while_loop env tools maxIterations (initial am) w0)
    as [[v0|e] wl] eqn:Hloop; cbn [fst snd] in Hext0, Hout0.
  - destruct Hout0 as (Hres0 & Hiter0 & _ & Hany0 & _ & Hpairs0).
    simpl in Hiter0.
    assert (Hmodel : modelName wl = modelName w0)
      by (eapply extends_modelName; exact Hext0).
    assert (Hcap : shouldContinue v0 = true ->
                   maxIterations <= iterations v0 ->
                   hasAnyToolCalls v0 = true).
    { intros Hc Hi. apply Hany0; [exact Hc|].
      intros ->. simpl in Hiter0. unfold maxIterations in Hi. lia. }
    destruct (conclude_facts env messages v0 wl Hcap)
      as (evs1 & Hext1 & Hshape1 & Hout1).
    fold am in Hext1, Hout1.
    assert (Hclose : evs1 = []
              \/ exists params outcome,
                   evs1 = [EvCreate params outcome]
                   /\ ((exists question,
                          last messages = Some question
                          /\ params = summary_request w0 question
                          /\ length hs = maxIterations)
                       \/ params = plain_request w0 messages)).
    { destruct Hshape1 as [->|(params & outcome & -> & Hkind)];
        [now left|].
      right. exists params, outcome. split; [reflexivity|].
      destruct Hkind as [(question & Hlast & -> & _ & Hi)|(-> & _)].
      - left. exists question. split; [exact Hlast|].
        split; [now apply summary_request_model|]. lia.
      - right. now apply plain_request_model. }
    assert (Hconv1 : forallb conversation_event evs1 = true).
    { destruct Hshape1 as [->|(params & outcome & -> & _)]; reflexivity. }
    unfold bind.
    destruct (conclude env messages am v0 wl) as [[v1|e] w1];
      cbn [fst snd] in Hext1, Hout1.
    + destruct Hout1 as (Hres1 & texts & Hm1 & Htexts).
      destruct (build_message_run env v1 w1) as (id & createdAt & ->).
      cbn [fst snd].
      eexists evs0, hs, evs1, [_; _].
      split.
      { eapply extends_trans; [exact Hext0|].
        eapply extends_trans; [exact Hext1|]. reflexivity. }
      split; [rewrite !forallb_app, Hconv0, Hconv1; reflexivity|].
      split; [exact Hreq0|]. split; [exact Hlen0|].
      split; [intros H; now destruct (Hhead0 H)|].
      split; [exact Hgrow0|]. split; [exact Hclose|].
      split; [reflexivity|]. split; [reflexivity|].
      split; [rewrite creates_app, map_app, forallb_app, Hres0, Hres1;
              reflexivity|].
      split; [eauto|].
      destruct (Hpairs0 tool_pairs_nil)
        as (ps & ts & Hm0 & Hps & Hts & _ & Hcalls).
      exists ps, (ts ++ texts). cbn [Message.content].
      rewrite Hm1, Hm0, <- app_assoc. split; [reflexivity|].
      split; [exact Hps|].
      split; [now rewrite forallb_app, Hts, Htexts|].
      assert (Hnone : tool_calls evs1 = []).
      { destruct Hshape1 as [->|(params & outcome & -> & _)]; reflexivity. }
      rewrite !tool_calls_app, Hnone. simpl in Hcalls |- *.
      rewrite app_nil_r. lia.
    + exists evs0, hs, evs1, []. rewrite !app_nil_r.
      split; [eapply extends_trans; eassumption|].
      split; [rewrite forallb_app, Hconv0, Hconv1; reflexivity|].
      split; [exact Hreq0|]. split; [exact Hlen0|].
      split; [intros H; now destruct (Hhead0 H)|].
      split; [exact Hgrow0|]. split; [exact Hclose|].
      split; [reflexivity|]. split; [reflexivity|].
      destruct Hout1 as [(-> & Hlast & -> & Hi)|(params & ->)].
      * left. repeat split; auto. lia.
      * right. exists evs0, params. reflexivity.
  - destruct Hout0 as (before & params & ->).
    exists (before ++ [EvCreate params (Rejected e)]), hs, [], [].
    rewrite !app_nil_r. cbn [fst snd].
    split; [exact Hext0|]. split; [exact Hconv0|].
    split; [exact Hreq0|]. split; [exact Hlen0|].
    split; [intros H; now destruct (Hhead0 H)|].
    split; [exact Hgrow0|]. split; [now left|].
    split; [reflexivity|]. split; [reflexivity|].
    right. eauto.
Qed.

End Calls.

Section SendMessage.
Context (env : Env).

Lemma sendMessage_no_client messages w :
  anthropic (after_init w) = None ->
  sendMessage env messages w = (Throws missing_key, after_init w).
Proof. intros H. now rewrite sendMessage_run, H. Qed.

(** X9.  [sendMessage] adds to the trace and touches nothing else, but for the
    client and the fields that a service not yet initialized reads from
    the environment: the registry, the configuration and the environment
    are what they were, and with an initialized service the whole world
    is.  All it does to the outside is ask the model, call tools and read
    the clock: it launches nothing, closes nothing and never waits. *)
Theorem sendMessage_frame messages w :
  exists evs,
    trace (snd (sendMessage env messages w)) = trace w ++ evs
    /\ forallb conversation_event evs = true
    /\ serverConnections (snd (sendMessage env messages w))
       = serverConnections w
    /\ config (snd (sendMessage env messages w)) = config w
    /\ process_env (snd (sendMessage env messages w)) = process_env w
    /\ (isInitialized w = true ->
        snd (sendMessage env messages w) = with_trace (trace w ++ evs) w).
Proof.
  destruct (after_init_frame w) as (Htr & Hsc & Hcfg).
  destruct (after_init_env w) as (Henv & _).
  assert (Hall : exists evs,
             extends (after_init w) (snd (sendMessage env messages w)) evs
             /\ forallb conversation_event evs = true).
  { destruct (anthropic (after_init w)) as [client|] eqn:Hclient.
    - destruct (sendMessage_facts env messages w client Hclient)
        as (evs0 & hs & evs1 & tail & Hext & Hconv & _).
      eauto.
    - rewrite (sendMessage_no_client _ _ Hclient). exists [].
      split; [apply extends_refl|reflexivity]. }
  destruct Hall as (evs & Hext & Hconv). exists evs.
  rewrite Hext. simpl. rewrite Htr.
  repeat split; auto.
  intros Hinit. now rewrite (after_init_ready w Hinit).
Qed.

(** X10.  Without a client and without a key in the environment, [sendMessage]
    throws the missing-key error before anything is asked of the model or
    of a tool. *)
Theorem sendMessage_without_key messages w :
  anthropic w = None ->
  default EmptyString (process_env w !! "ANTHROPIC_API_KEY") = EmptyString ->
  exists w',
    sendMessage env messages w = (Throws missing_key, w')
    /\ trace w' = trace w
    /\ anthropic w' = None
    /\ isInitialized w' = isInitialized w
    /\ serverConnections w' = serverConnections w.
Proof.
  intros Hclient Hkey.
  assert (Hinit : anthropic (after_init w) = None
                  /\ isInitialized (after_init w) = isInitialized w).
  { unfold after_init, initAnthropicClient. unfold_monad.
    destruct (isInitialized w) eqn:Hi; cbn [negb]; cbv beta iota zeta;
      [simpl; auto|].
    rewrite Hkey. simpl.
    repeat match goal with
           | |- context [if ?b then _ else _] => destruct b
           end; simpl; auto. }
  destruct Hinit as (Hnone & Hflag).
  destruct (after_init_frame w) as (Htr & Hsc & _).
  exists (after_init w). split; [now apply sendMessage_no_client|]. auto.
Qed.

Lemma while_loop_first tools fuel v w :
  shouldContinue v = true ->
  iterations v < maxIterations ->
  exists outcome rest,
    extends w (snd (while_loop env tools (S fuel) v w))
      (EvCreate (request_for (modelName w) tools (conversationHistory v))
         outcome :: rest).
Proof.
  intros Hcont Hiter. simpl.
  apply Nat.ltb_lt in Hiter. rewrite Hcont, Hiter. cbn [andb].
  unfold bind.
  destruct (round_facts env tools v w) as (outcome & evs1 & Hext1 & _).
  destruct (round env tools v w) as [[v1|e] w1]; cbn [snd] in Hext1.
  - destruct (while_loop_extends env tools fuel v1 w1) as (evs2 & Hext2).
    exists outcome, (evs1 ++ evs2).
    change (EvCreate ?p outcome :: evs1 ++ evs2)
      with ((EvCreate p outcome :: evs1) ++ evs2).
    eapply extends_trans; eassumption.
  - exists outcome, evs1. exact Hext1.
Qed.

(** X11.  A service that is not initialized looks for its key in the
    environment when a message is sent: with a key there, the call builds
    the client from it, takes the base URL and the model name from the
    environment where they are set, and goes on to ask the model, the
    first request carrying the caller's messages under that model name. *)
Theorem sendMessage_initializes_lazily messages w key :
  isInitialized w = false ->
  process_env w !! "ANTHROPIC_API_KEY" = Some key ->
  key <> EmptyString ->
  let w' := snd (sendMessage env messages w) in
  let url :=
    str_or (default EmptyString (process_env w !! "ANTHROPIC_BASE_URL"))
      (baseUrl w) in
  let model :=
    str_or (default EmptyString (process_env w !! "MODEL_NAME"))
      (modelName w) in
  anthropic w'
  = Some {| Anthropic.apiKey := key; Anthropic.baseURL := url |}
  /\ isInitialized w' = true
  /\ baseUrl w' = url
  /\ modelName w' = model
  /\ exists outcome rest,
       since w w'
       = EvCreate
           (request_for model (map to_ApiTool (getTools w))
              (map to_MessageParam messages)) outcome :: rest.
Proof.
  intros Hinit Hkey Hne. cbv zeta.
  assert (Hready :
            anthropic (after_init w)
            = Some {| Anthropic.apiKey := key;
                      Anthropic.baseURL :=
                        str_or (default EmptyString
                                  (process_env w !! "ANTHROPIC_BASE_URL"))
                          (baseUrl w) |}
            /\ isInitialized (after_init w) = true
            /\ baseUrl (after_init w)
               = str_or (default EmptyString
                           (process_env w !! "ANTHROPIC_BASE_URL"))
                   (baseUrl w)
            /\ modelName (after_init w)
               = str_or (default EmptyString (process_env w !! "MODEL_NAME"))
                   (modelName w)).
  { unfold after_init, initAnthropicClient. unfold_monad.
    rewrite Hinit. cbn [negb]. cbv beta iota zeta. rewrite Hkey.
    cbn [from_option id]. unfold truthy, str_or.
    apply String.eqb_neq in Hne. rewrite Hne. cbn [negb].
    destruct (String.eqb (default EmptyString
                            (process_env w !! "ANTHROPIC_BASE_URL"))
                EmptyString);
      destruct (String.eqb (default EmptyString
                              (process_env w !! "MODEL_NAME")) EmptyString);
      simpl; auto. }
  destruct Hready as (Hclient & Hflag & Hurl & Hmodel).
  destruct (after_init_frame w) as (Htr & _).
  destruct (after_init_env w) as (_ & Htools).
  assert (Hrun : exists outcome rest,
             extends (after_init w) (snd (sendMessage env messages w))
               (EvCreate
                  (request_for (modelName (after_init w))
                     (map to_ApiTool (getTools w))
                     (map to_MessageParam messages)) outcome :: rest)).
  { rewrite sendMessage_run, Hclient, Htools.
    destruct (while_loop_first (map to_ApiTool (getTools w)) 19
                (initial (map to_MessageParam messages)) (after_init w)
                eq_refl ltac:(unfold maxIterations; simpl; lia))
      as (outcome & rest & Hext0).
    change (S 19) with maxIterations in Hext0.
    destruct (while_loop env _ maxIterations _ (after_init w))
      as [[v0|e] w0]; cbn [snd] in Hext0.
    - destruct (after_loop_extends env messages
                  (map to_MessageParam messages) v0 w0) as (evs1 & Hext1).
      exists outcome, (rest ++ evs1).
      change (EvCreate ?p outcome :: rest ++ evs1)
        with ((EvCreate p outcome :: rest) ++ evs1).
      eapply extends_trans; eassumption.
    - exists outcome, rest. exact Hext0. }
  destruct Hrun as (outcome & rest & Hext).
  rewrite Hmodel in Hext.
  pose proof Hext as Hw'. unfold extends in Hw'. rewrite Hw'.
  cbn [anthropic isInitialized baseUrl modelName with_trace].
  split; [exact Hclient|]. split; [exact Hflag|]. split; [exact Hurl|].
  split; [exact Hmodel|].
  exists outcome, rest. apply since_trace. simpl. now rewrite Htr.
Qed.

(** X12.  The requests of one call of [sendMessage], in order: those of the
    loop, at most [maxIterations] of them, and then at most one closing
    request, [maxIterations + 1] in all at the very most.  Every request
    is made under the same model name with [max_tokens] at 1000.  The
    requests of the loop all offer the tools that were connected when the
    call began, or none when none was; the first carries the caller's
    messages, and each of the others carries the history of the one before
    it with at least one entry added.  The closing request offers no
    tools: it is the fallback request, which carries the caller's messages
    again, or else the summary request, which is made only after
    [maxIterations] rounds. *)
Theorem sendMessage_requests messages w :
  let w' := snd (sendMessage env messages w) in
  exists hs closing,
    map fst (creates (since w w'))
    = map (request_for (modelName w') (map to_ApiTool (getTools w))) hs
      ++ closing
    /\ length hs <= maxIterations
    /\ (hs <> [] -> hd_error hs = Some (map to_MessageParam messages))
    /\ grows hs
    /\ (closing = []
        \/ closing = [plain_request w' messages]
        \/ exists question,
             last messages = Some question
             /\ closing = [summary_request w' question]
             /\ length hs = maxIterations)
    /\ length (creates (since w w')) <= maxIterations + 1.
Proof.
  cbv zeta.
  destruct (after_init_frame w) as (Htr & _).
  destruct (anthropic (after_init w)) as [client|] eqn:Hclient.
  - destruct (sendMessage_facts env messages w client Hclient)
      as (evs0 & hs & evs1 & tail & Hext & _ & Hreq & Hlen & Hhead & Hgrow
          & Hclose & Htail & _).
    assert (Hmodel : modelName (snd (sendMessage env messages w))
                     = modelName (after_init w))
      by (eapply extends_modelName; exact Hext).
    rewrite (since_trace w _ (evs0 ++ evs1 ++ tail))
      by (rewrite (extends_trace _ _ _ Hext), Htr; reflexivity).
    rewrite !creates_app, Htail, app_nil_r, map_app, Hreq, Hmodel.
    exists hs, (map fst (creates evs1)).
    split; [reflexivity|]. split; [exact Hlen|]. split; [exact Hhead|].
    split; [exact Hgrow|].
    assert (Hone : length (creates evs1) <= 1).
    { destruct Hclose as [->|(params & outcome & -> & _)]; simpl; lia. }
    split.
    + destruct Hclose as [->|(params & outcome & -> & Hkind)];
        [now left|].
      right. simpl.
      destruct Hkind as [(question & Hlast & -> & Hcap)| ->].
      * right. exists question.
        rewrite (summary_request_model (after_init w) _ question Hmodel).
        auto.
      * left. now rewrite (plain_request_model (after_init w) _ messages
                             Hmodel).
    + rewrite length_app, <- (length_map fst (creates evs0)), Hreq,
        length_map. lia.
  - rewrite (sendMessage_no_client _ _ Hclient). cbn [snd].
    rewrite (since_trace w _ []) by (rewrite Htr, app_nil_r; reflexivity).
    exists [], []. simpl. repeat split; auto; try lia. congruence.
Qed.

(** X13.  [sendMessage] throws for three reasons only: there is no client and
    no key to make one from, and then nothing has been asked; or the model
    has rejected a request, the last thing the call did, and the error is
    the one of the rejection; or the call was made with no message at all
    and the loop ran into the iteration cap.  A tool that fails, or that
    no server offers, never makes the call fail. *)
Theorem sendMessage_throws_only messages w e w' :
  sendMessage env messages w = (Throws e, w') ->
  (e = missing_key /\ anthropic w' = None /\ trace w' = trace w)
  \/ (exists before params,
        since w w' = before ++ [EvCreate params (Rejected e)])
  \/ (e = no_last_message /\ messages = []
      /\ length (creates (since w w')) = maxIterations).
Proof.
  intros Hrun.
  destruct (after_init_frame w) as (Htr & _).
  destruct (anthropic (after_init w)) as [client|] eqn:Hclient.
  - destruct (sendMessage_facts env messages w client Hclient)
      as (evs0 & hs & evs1 & tail & Hext & _ & Hreq & Hlen & _ & _
          & _ & _ & Hout).
    rewrite Hrun in Hext, Hout. cbn [fst snd] in Hext, Hout.
    destruct Hout as (-> & Hwhy). rewrite app_nil_r in Hext.
    assert (Hsince : since w w' = evs0 ++ evs1).
    { apply since_trace. rewrite (extends_trace _ _ _ Hext), Htr.
      reflexivity. }
    right. rewrite Hsince.
    destruct Hwhy as [(-> & Hlast & Hcap & ->)|(before & params & ->)].
    + right. split; [reflexivity|].
      split; [now apply last_None in Hlast|].
      rewrite app_nil_r, <- (length_map fst (creates evs0)), Hreq,
        length_map. exact Hcap.
    + left. eauto.
  - rewrite (sendMessage_no_client _ _ Hclient) in Hrun.
    injection Hrun as <- <-. left. auto.
Qed.

(** X14.  The content of the message [sendMessage] returns is a run of pairs,
    each a toolUse block with the toolResult block of the same call right
    after it, followed by text blocks and nothing else.  Every call
    handed to a tool server has its pair: there are at least as many pairs
    as calls. *)
Theorem sendMessage_pairs_then_texts messages w m w' :
  sendMessage env messages w = (Returns m, w') ->
  Message.role m = assistant
  /\ exists ps ts,
       Message.content m = ps ++ ts
       /\ tool_pairs ps
       /\ forallb is_text ts = true
       /\ 2 * length (tool_calls (since w w')) <= length ps.
Proof.
  intros Hrun.
  destruct (after_init_frame w) as (Htr & _).
  destruct (anthropic (after_init w)) as [client|] eqn:Hclient.
  - destruct (sendMessage_facts env messages w client Hclient)
      as (evs0 & hs & evs1 & tail & Hext & _ & _ & _ & _ & _ & _ & _ & Hout).
    rewrite Hrun in Hext, Hout. cbn [fst snd] in Hext, Hout.
    destruct Hout as (Hrole & _ & _ & ps & ts & Hm & Hps & Hts & Hcalls).
    split; [exact Hrole|]. exists ps, ts.
    rewrite (since_trace w w' (evs0 ++ evs1 ++ tail))
      by (rewrite (extends_trace _ _ _ Hext), Htr; reflexivity).
    auto.
  - rewrite (sendMessage_no_client _ _ Hclient) in Hrun. discriminate.
Qed.

End SendMessage.

(** ** A tool call that fails *)

Section ToolFailure.
Context (env : Env).

(** X15.  The counterpart of a successful tool call.  Let the [for] of a round
    have gone through the blocks [before] without leaving the loop, let
    the next block ask for a tool with a call that is not taken for a
    repetition, and let [callTool] throw [error].  Then the round goes on
    with the blocks that follow: the output receives the toolUse block and
    a toolResult block that holds the fixed error object in place of a
    result; the history receives an assistant entry with the text of the
    last text block of [before] when that text is not empty, and no
    placeholder otherwise, not even in the first round, and then a user
    entry that reports the failure with the thrown value rendered as a
    string: for an error its name, a colon and its message, so that an
    error of the SDK client reads [McpError: ...].  When no connected
    server lists the tool, the error is the not-found error and nothing
    was called. *)
Theorem tool_failure_entries before name input after v0 w v w1 error w2 :
  process_content env before (begin_round v0) w = (Returns v, w1) ->
  shouldContinue v0 = true ->
  shouldContinue v = true ->
  isRepeatedCall (calledTools v) name input = false ->
  callTool env name input w1 = (Throws error, w2) ->
  (exists v',
     process_content env (before ++ ToolUseBlock name input :: after)
       (begin_round v0) w
     = process_content env after v' w2
     /\ messageContent v'
        = messageContent v
          ++ [toolUse name input; toolResult name input error_result]
     /\ conversationHistory v'
        = conversationHistory v
          ++ (if truthy (latest_text before EmptyString)
              then [assistant_says (latest_text before EmptyString)]
              else [])
          ++ [user_says
                ("工具 " +:+ name +:+ " 调用失败: "
                 +:+ Error_toString error)]
     /\ shouldContinue v' = true
     /\ hasToolCallsThisRound v' = true
     /\ calledTools v' = calledTools v ++ [(name, JSON_stringify input)])
  /\ ((forall connection,
         In connection (map_values (serverConnections w1)) ->
         ~ Exposes name connection) ->
      error = ToolNotFound name /\ w2 = w1).
Proof.
  intros Hbefore Hc0 Hc Hfresh Hcall. split.
  - destruct (process_content_app env before
                (ToolUseBlock name input :: after) _ _ _ _ Hbefore Hc0 Hc)
      as (Happ & Htext & Hiter).
    simpl in Htext.
    rewrite Happ. simpl. rewrite Hfresh. unfold bind. rewrite execute_run.
    rewrite Hcall. simpl.
    eexists. split; [reflexivity|].
    unfold on_failure. cbv zeta. simpl. rewrite Htext.
    destruct (truthy (latest_text before EmptyString)); simpl;
      rewrite <- ?app_assoc; auto.
  - intros Hnone.
    rewrite callTool_not_found in Hcall.
    + now injection Hcall as <- <-.
    + apply find_none_all. intros c Hin. apply exposes_false_iff.
      now apply Hnone.
Qed.

End ToolFailure.

(** ** The client of the model *)

Definition key_variable : string := "ANTHROPIC_API_KEY".
Definition url_variable : string := "ANTHROPIC_BASE_URL".

(** The base URL a client built now would get: the one in the
    environment, or else the one of the service. *)
Definition effective_url (w : World) : string :=
  str_or (default EmptyString (process_env w !! url_variable)) (baseUrl w).

Lemma setApiKey_run key w :
  key <> EmptyString ->
  setApiKey key w
  = (Returns tt,
     with_process_env (<[key_variable := key]> (process_env w))
       (with_client
          (Some {| Anthropic.apiKey := key;
                   Anthropic.baseURL := effective_url w |}) true w)).
Proof.
  intros Hne. unfold setApiKey, truthy.
  apply String.eqb_neq in Hne. rewrite Hne. reflexivity.
Qed.

Lemma setApiKey_empty w :
  setApiKey EmptyString w = (Returns tt, with_client None false w).
Proof. reflexivity. Qed.

Lemma setBaseUrl_run url w :
  url <> EmptyString ->
  setBaseUrl url w
  = (Returns tt,
     with_process_env (<[url_variable := url]> (process_env w))
       (let key := default EmptyString (process_env w !! key_variable) in
        if truthy key && negb (is_Some_bool (anthropic w))
        then with_client
               (Some {| Anthropic.apiKey := key; Anthropic.baseURL := url |})
               true (with_baseUrl url w)
        else with_baseUrl url w)).
Proof.
  intros Hne. unfold setBaseUrl, truthy at 1.
  apply String.eqb_neq in Hne. rewrite Hne. cbn [negb].
  unfold_monad. unfold key_variable, url_variable. simpl.
  now destruct (truthy (default EmptyString
                          (process_env w !! "ANTHROPIC_API_KEY"))
                && negb (is_Some_bool (anthropic w))).
Qed.

(** X16.  The key and the base URL do not commute.  A key set before the URL
    builds the client with the URL that was in force until then, and
    setting the URL afterwards leaves that client as it is; a key set
    after the URL builds the client with the new URL.  In both orders the
    service and the environment end up holding the new key and the new
    URL, and setting the key once more brings the client to the new
    URL. *)
Theorem setApiKey_setBaseUrl_order key url w :
  key <> EmptyString ->
  url <> EmptyString ->
  let key_first := snd (setBaseUrl url (snd (setApiKey key w))) in
  let url_first := snd (setApiKey key (snd (setBaseUrl url w))) in
  anthropic key_first
  = Some {| Anthropic.apiKey := key; Anthropic.baseURL := effective_url w |}
  /\ anthropic url_first
     = Some {| Anthropic.apiKey := key; Anthropic.baseURL := url |}
  /\ isInitialized key_first = true
  /\ isInitialized url_first = true
  /\ baseUrl key_first = url
  /\ baseUrl url_first = url
  /\ process_env key_first = process_env url_first
  /\ process_env key_first
     = <[url_variable := url]> (<[key_variable := key]> (process_env w))
  /\ anthropic (snd (setApiKey key key_first))
     = Some {| Anthropic.apiKey := key; Anthropic.baseURL := url |}.
Proof.
  intros Hkey Hurl. cbv zeta.
  assert (Hu : String.eqb url EmptyString = false)
    by now apply String.eqb_neq.
  assert (Hk : String.eqb key EmptyString = false)
    by now apply String.eqb_neq.
  rewrite (setApiKey_run key w Hkey). cbn [snd].
  rewrite (setBaseUrl_run url _ Hurl). cbn [snd].
  rewrite (setBaseUrl_run url w Hurl). cbn [snd].
  rewrite !(setApiKey_run key _ Hkey). cbn [snd].
  unfold effective_url, str_or, truthy. simpl.
  rewrite !lookup_insert_eq. simpl. rewrite Hu, Hk. simpl.
  assert (Hcomm : <[url_variable:=url]> (<[key_variable:=key]> (process_env w))
                  = <[key_variable:=key]>
                      (<[url_variable:=url]> (process_env w)))
    by (apply insert_insert_ne; discriminate).
  destruct (negb (String.eqb (default EmptyString
                                (process_env w !! key_variable)) EmptyString)
            && negb (is_Some_bool (anthropic w))); simpl;
    rewrite ?lookup_insert_eq; simpl; rewrite ?Hu; repeat split; auto.
Qed.

(** The flag and the client go together: the service counts as
    initialized exactly when it has a client. *)
Definition client_ready (w : World) : Prop :=
  isInitialized w = is_Some_bool (anthropic w).

Lemma after_init_fields w :
  let key := default EmptyString (process_env w !! key_variable) in
  let model :=
    str_or (default EmptyString (process_env w !! "MODEL_NAME"))
      (modelName w) in
  isInitialized w = false ->
  (anthropic (after_init w)
   = if truthy key
     then Some {| Anthropic.apiKey := key;
                  Anthropic.baseURL := effective_url w |}
     else anthropic w)
  /\ isInitialized (after_init w) = truthy key
  /\ baseUrl (after_init w) = effective_url w
  /\ modelName (after_init w) = model.
Proof.
  cbv zeta. intros Hinit.
  unfold after_init, initAnthropicClient, effective_url, key_variable,
    url_variable.
  unfold_monad. rewrite Hinit. cbn [negb]. cbv beta iota zeta.
  unfold str_or, truthy.
  destruct (String.eqb (default EmptyString
                          (process_env w !! "ANTHROPIC_API_KEY"))
              EmptyString);
    destruct (String.eqb (default EmptyString
                            (process_env w !! "ANTHROPIC_BASE_URL"))
                EmptyString);
    destruct (String.eqb (default EmptyString
                            (process_env w !! "MODEL_NAME")) EmptyString);
    simpl; auto.
Qed.

Lemma after_init_client_ready w :
  client_ready w -> client_ready (after_init w).
Proof.
  unfold client_ready. intros Hready.
  destruct (isInitialized w) eqn:Hinit.
  - now rewrite (after_init_ready w Hinit), Hinit.
  - destruct (after_init_fields w Hinit) as (-> & -> & _).
    destruct (truthy _); [reflexivity|]. rewrite <- Hready. reflexivity.
Qed.

Section ClientOfTheModel.
Context (env : Env).

(** With a client, a call starts by asking the model: the first thing it
    does is the request that carries the caller's messages. *)
Lemma sendMessage_first_request messages w client :
  anthropic (after_init w) = Some client ->
  exists outcome rest,
    extends (after_init w) (snd (sendMessage env messages w))
      (EvCreate
         (request_for (modelName (after_init w))
            (map to_ApiTool (getTools w))
            (map to_MessageParam messages)) outcome :: rest).
Proof.
  intros Hclient.
  destruct (after_init_env w) as (_ & Htools).
  rewrite sendMessage_run, Hclient, Htools.
  destruct (while_loop_first env (map to_ApiTool (getTools w)) 19
              (initial (map to_MessageParam messages)) (after_init w)
              eq_refl ltac:(unfold maxIterations; simpl; lia))
    as (outcome & rest & Hext0).
  change (S 19) with maxIterations in Hext0.
  destruct (while_loop env _ maxIterations _ (after_init w))
    as [[v0|e] w0]; cbn [snd] in Hext0.
  - destruct (after_loop_extends env messages
                (map to_MessageParam messages) v0 w0) as (evs1 & Hext1).
    exists outcome, (rest ++ evs1).
    change (EvCreate ?p outcome :: rest ++ evs1)
      with ((EvCreate p outcome :: rest) ++ evs1).
    eapply extends_trans; eassumption.
  - exists outcome, rest. exact Hext0.
Qed.

(** Every request of a call is made under the model name the service has
    once it is initialized. *)
Lemma sendMessage_models messages w :
  Forall (fun request =>
            CreateParams.model (fst request) = modelName (after_init w))
    (creates (since w (snd (sendMessage env messages w)))).
Proof.
  destruct (after_init_frame w) as (Htr & _).
  destruct (anthropic (after_init w)) as [client|] eqn:Hclient.
  - destruct (sendMessage_facts env messages w client Hclient)
      as (evs0 & hs & evs1 & tail & Hext & _ & Hreq & _ & _ & _ & Hclose
          & Htail & _).
    rewrite (since_trace w _ (evs0 ++ evs1 ++ tail))
      by (rewrite (extends_trace _ _ _ Hext), Htr; reflexivity).
    rewrite !creates_app, Htail, app_nil_r.
    apply Forall_app. split.
    + apply List.Forall_forall. intros [params outcome] Hin.
      assert (Hp : In params (map fst (creates evs0))).
      { change params with (fst (params, outcome)). now apply in_map. }
      rewrite Hreq in Hp. apply in_map_iff in Hp as (h & <- & _).
      reflexivity.
    + destruct Hclose as [->|(params & outcome & -> & Hkind)];
        [constructor|].
      constructor; [|constructor]. simpl.
      now destruct Hkind as [(question & _ & -> & _)| ->].
  - rewrite (sendMessage_no_client env _ _ Hclient). cbn [snd].
    rewrite (since_trace w _ []) by (rewrite Htr, app_nil_r; reflexivity).
    constructor.
Qed.

(** X17.  The flag and the client stay together under every method of the
    service, and a service that counts as initialized does ask the model
    when a message is sent. *)
Theorem client_ready_kept w :
  client_ready w ->
  (forall key, client_ready (snd (setApiKey key w)))
  /\ (forall url, client_ready (snd (setBaseUrl url w)))
  /\ (forall name, client_ready (snd (setModel name w)))
  /\ client_ready (snd (initAnthropicClient w))
  /\ (forall messages, client_ready (snd (sendMessage env messages w)))
  /\ (isInitialized w = true ->
      forall messages,
      exists outcome rest,
        since w (snd (sendMessage env messages w))
        = EvCreate
            (request_for (modelName w) (map to_ApiTool (getTools w))
               (map to_MessageParam messages)) outcome :: rest).
Proof.
  unfold client_ready. intros Hready.
  split.
  { intros key. unfold setApiKey. unfold_monad.
    now destruct (truthy key). }
  split.
  { intros url. unfold setBaseUrl. unfold_monad.
    destruct (truthy url); [|exact Hready]. simpl.
    destruct (truthy _ && negb (is_Some_bool (anthropic w))); simpl;
      [reflexivity|exact Hready]. }
  split.
  { intros name. unfold setModel. unfold_monad.
    now destruct (truthy name). }
  split.
  { unfold initAnthropicClient. unfold_monad. cbv beta iota zeta.
    repeat match goal with
           | |- context [if ?b then _ else _] => destruct b
           end; simpl; auto. }
  split.
  { intros messages.
    pose proof (after_init_client_ready w Hready) as Hinit.
    unfold client_ready in Hinit.
    destruct (anthropic (after_init w)) as [client|] eqn:Hclient.
    - destruct (sendMessage_facts env messages w client Hclient)
        as (evs0 & hs & evs1 & tail & Hext & _).
      rewrite Hext. simpl. now rewrite Hinit, Hclient.
    - rewrite (sendMessage_no_client env _ _ Hclient). simpl.
      now rewrite Hinit, Hclient. }
  intros Hinit messages. rewrite Hinit in Hready.
  destruct (anthropic w) as [client|] eqn:Hclient; [|discriminate].
  pose proof (after_init_ready w Hinit) as Hsame.
  destruct (sendMessage_first_request messages w client)
    as (outcome & rest & Hext); [now rewrite Hsame|].
  rewrite Hsame in Hext. exists outcome, rest.
  now apply extends_since.
Qed.

End ClientOfTheModel.

Section KeyAndModel.
Context (env : Env).

(** X18.  An empty key takes the client away but leaves the key it replaces in
    the environment, where the next call of [sendMessage] finds it: the
    call builds a client from that key again and asks the model. *)
Theorem cleared_key_is_read_back key messages w :
  key <> EmptyString ->
  let cleared := snd (setApiKey EmptyString (snd (setApiKey key w))) in
  let w' := snd (sendMessage env messages cleared) in
  anthropic cleared = None
  /\ isInitialized cleared = false
  /\ process_env cleared !! key_variable = Some key
  /\ anthropic w'
     = Some {| Anthropic.apiKey := key;
               Anthropic.baseURL := effective_url w |}
  /\ isInitialized w' = true
  /\ exists request outcome rest,
       since cleared w' = EvCreate request outcome :: rest
       /\ CreateParams.messages request = map to_MessageParam messages.
Proof.
  intros Hkey. cbv zeta.
  rewrite (setApiKey_run key w Hkey). cbn [snd].
  rewrite setApiKey_empty. cbn [snd].
  set (cleared := with_client None false _).
  assert (Henv : process_env cleared !! key_variable = Some key)
    by (subst cleared; simpl; apply lookup_insert_eq).
  assert (Hurl : effective_url cleared = effective_url w).
  { subst cleared. unfold effective_url. simpl.
    now rewrite lookup_insert_ne by discriminate. }
  destruct (after_init_fields cleared eq_refl) as (Hclient & Hflag & _).
  cbv zeta in Hclient, Hflag. rewrite Henv in Hclient, Hflag.
  cbn [from_option id] in Hclient, Hflag.
  assert (Ht : truthy key = true).
  { unfold truthy. apply String.eqb_neq in Hkey. now rewrite Hkey. }
  rewrite Ht, Hurl in Hclient. rewrite Ht in Hflag.
  destruct (sendMessage_first_request env messages cleared _ Hclient)
    as (outcome & rest & Hext).
  destruct (after_init_frame cleared) as (Htr & _).
  split; [reflexivity|]. split; [reflexivity|]. split; [exact Henv|].
  pose proof Hext as Hw'. unfold extends in Hw'. rewrite Hw'.
  cbn [anthropic isInitialized with_trace].
  split; [exact Hclient|]. split; [exact Hflag|].
  eexists _, outcome, rest.
  split; [apply since_trace; simpl; now rewrite Htr|reflexivity].
Qed.

(** X19.  A model name that is set on an initialized service is the one every
    request of the next call carries; an empty name changes nothing.  On a
    service that is not initialized the name in the environment, when
    there is one, takes its place as the call begins. *)
Theorem setModel_names_the_requests name messages w :
  name <> EmptyString ->
  let named := snd (setModel name w) in
  modelName named = name
  /\ setModel EmptyString w = (Returns tt, w)
  /\ (isInitialized w = true ->
      Forall (fun request => CreateParams.model (fst request) = name)
        (creates (since named (snd (sendMessage env messages named)))))
  /\ (isInitialized w = false ->
      forall other,
        process_env w !! "MODEL_NAME" = Some other ->
        other <> EmptyString ->
        Forall (fun request => CreateParams.model (fst request) = other)
          (creates (since named (snd (sendMessage env messages named))))).
Proof.
  intros Hname. cbv zeta.
  assert (Hrun : setModel name w = (Returns tt, with_modelName name w)).
  { unfold setModel, truthy. apply String.eqb_neq in Hname.
    now rewrite Hname. }
  rewrite Hrun. cbn [snd].
  split; [reflexivity|]. split; [reflexivity|].
  pose proof (sendMessage_models env messages (with_modelName name w))
    as Hmodels.
  split.
  - intros Hinit.
    rewrite (after_init_ready (with_modelName name w)) in Hmodels
      by exact Hinit.
    exact Hmodels.
  - intros Hinit other Hother Hne.
    destruct (after_init_fields (with_modelName name w) Hinit)
      as (_ & _ & _ & Hmodel).
    cbv zeta in Hmodel. simpl in Hmodel. rewrite Hother in Hmodel.
    unfold str_or in Hmodel. simpl in Hmodel.
    apply String.eqb_neq in Hne. rewrite Hne in Hmodel.
    now rewrite Hmodel in Hmodels.
Qed.

End KeyAndModel.

(** ** The handlers and the registry *)

Section Wrappers.
Context (env : Env).

Lemma disconnectMcpServer_run serverName w :
  disconnectMcpServer env serverName w
  = (Returns tt, torn_down env serverName w).
Proof.
  unfold disconnectMcpServer, try_catch.
  now rewrite disconnectServer_run.
Qed.

Lemma connectToMcpServer_run serverName retryCount timeoutMs w :
  connectToMcpServer env serverName retryCount timeoutMs w
  = (match fst (connectToServer env serverName retryCount timeoutMs w) with
     | Returns serverTools => Returns serverTools
     | Throws error =>
         Throws (Error ("MCP服务器连接失败: " +:+ JsError.message error))
     end,
     snd (connectToServer env serverName retryCount timeoutMs w)).
Proof.
  unfold connectToMcpServer, try_catch.
  now destruct (connectToServer env serverName retryCount timeoutMs w)
    as [[ts|e] w'].
Qed.

Lemma disconnect_unwanted_run names :
  forall w,
  exists w',
    disconnect_unwanted env names w = (Returns tt, w')
    /\ (forall name, In name names ->
          isSpecificServerConnected name w' = false)
    /\ (forall name, isSpecificServerConnected name w = false ->
          isSpecificServerConnected name w' = false)
    /\ (forall name, ~ In name names ->
          map_get name (serverConnections w')
          = map_get name (serverConnections w))
    /\ config w' = config w.
Proof.
  induction names as [|name rest IH]; intros w.
  - exists w. simpl. unfold ret. repeat split; auto. intros n [].
  - simpl. unfold bind, try_catch. rewrite disconnectMcpServer_run.
    destruct (torn_down_frame env name 0 w) as (Hcfg1 & _).
    destruct (torn_down_registry env name w) as (_ & Hother1 & Hoff1 & _).
    destruct (IH (torn_down env name w))
      as (w' & Hrun & Hoff & Hkeep & Hother & Hcfg).
    assert (Hkeep1 : forall n, isSpecificServerConnected n w = false ->
               isSpecificServerConnected n (torn_down env name w) = false).
    { intros n Hn. destruct (String.eqb n name) eqn:E.
      - apply String.eqb_eq in E. now subst n.
      - apply String.eqb_neq in E. unfold isSpecificServerConnected in *.
        now rewrite Hother1. }
    exists w'. split; [exact Hrun|].
    split.
    { intros n [<-|Hn]; [now apply Hkeep|now apply Hoff]. }
    split; [intros n Hn; now apply Hkeep, Hkeep1|].
    split; [|congruence].
    intros n Hn. rewrite Hother by (intros H; apply Hn; now right).
    apply Hother1. intros ->. apply Hn. now left.
Qed.

Lemma connect_missing_run names :
  forall w,
  exists w',
    connect_missing env names w = (Returns tt, w')
    /\ forall name, ~ In name names ->
         map_get name (serverConnections w')
         = map_get name (serverConnections w).
Proof.
  induction names as [|name rest IH]; intros w.
  - exists w. simpl. unfold ret. auto.
  - pose proof (connectToServer_others env name 2 default_timeoutMs w)
      as Hothers.
    simpl. unfold bind at 1. unfold try_catch, bind.
    rewrite connectToMcpServer_run.
    destruct (connectToServer env name 2 default_timeoutMs w)
      as [[serverTools|error] w1]; cbn [fst snd] in *; unfold ret;
      destruct (IH w1) as (w' & Hrun & Hother);
      exists w'; (split; [exact Hrun|]);
      intros n Hn; (rewrite Hother by (intros H; apply Hn; now right));
      apply Hothers; intros ->; apply Hn; now left.
Qed.

End Wrappers.

(** ** What the handlers answer *)

(** X20.  The configuration handler answers 200 to every body it can read and
    500, with nothing changed, to one it cannot; it never touches the
    connections.  The key is set before the URL: a request that brings a
    key builds the client on the URL in force before the request, also
    when the same request brings a new URL, which then only reaches the
    service and the environment. *)
Theorem POST_config_answers request w :
  exists response w',
    POST_config request w = (Returns response, w')
    /\ trace w' = trace w
    /\ serverConnections w' = serverConnections w
    /\ config w' = config w
    /\ match request with
       | Rejected error =>
           response
           = Response.mk 500
               (ConfigFailed (str_or (JsError.message error) "配置更新失败"))
           /\ w' = w
       | Resolved body =>
           response = Response.mk 200 ConfigUpdated
           /\ (forall key,
                 ConfigRequest.apiKey body = Some key ->
                 key <> EmptyString ->
                 anthropic w'
                 = Some {| Anthropic.apiKey := key;
                           Anthropic.baseURL := effective_url w |})
           /\ (forall url,
                 ConfigRequest.baseUrl body = Some url ->
                 url <> EmptyString ->
                 baseUrl w' = url
                 /\ process_env w' !! url_variable = Some url)
           /\ (forall name,
                 ConfigRequest.modelName body = Some name ->
                 name <> EmptyString ->
                 modelName w' = name)
       end.
Proof.
  destruct request as [body|error].
  2:{ eexists _, w. unfold POST_config, try_catch, throw, ret.
      repeat split; reflexivity. }
  destruct body as [apiKey url name].
  unfold POST_config, try_catch, bind. cbn [ConfigRequest.apiKey
    ConfigRequest.baseUrl ConfigRequest.modelName].
  set (w1 := snd (match apiKey with
                  | Some k => setApiKey k
                  | None => ret tt
                  end w)).
  assert (H1 : match apiKey with
               | Some k => setApiKey k
               | None => ret tt
               end w = (Returns tt, w1)
               /\ trace w1 = trace w
               /\ serverConnections w1 = serverConnections w
               /\ config w1 = config w
               /\ (forall key, apiKey = Some key -> key <> EmptyString ->
                     anthropic w1
                     = Some {| Anthropic.apiKey := key;
                               Anthropic.baseURL := effective_url w |})).
  { subst w1. destruct apiKey as [k|];
      [|unfold ret; cbn [snd]; (do 4 (split; [reflexivity|]));
        discriminate].
    destruct (String.eqb k EmptyString) eqn:E.
    - apply String.eqb_eq in E. subst k. rewrite setApiKey_empty.
      cbn [snd]. (do 4 (split; [reflexivity|])).
      intros key' [= <-] Hne. now elim Hne.
    - apply String.eqb_neq in E. rewrite (setApiKey_run k w E). cbn [snd].
      (do 4 (split; [reflexivity|])). now intros key [= <-] _. }
  destruct H1 as (-> & Ht1 & Hs1 & Hc1 & Hk1).
  set (w2 := snd (match url with
                  | Some u => setBaseUrl u
                  | None => ret tt
                  end w1)).
  assert (H2 : match url with
               | Some u => setBaseUrl u
               | None => ret tt
               end w1 = (Returns tt, w2)
               /\ trace w2 = trace w1
               /\ serverConnections w2 = serverConnections w1
               /\ config w2 = config w1
               /\ (is_Some_bool (anthropic w1) = true ->
                   anthropic w2 = anthropic w1)
               /\ (forall u, url = Some u -> u <> EmptyString ->
                     baseUrl w2 = u
                     /\ process_env w2 !! url_variable = Some u)).
  { subst w2. destruct url as [u|];
      [|unfold ret; cbn [snd]; (do 4 (split; [reflexivity|]));
        (split; [reflexivity|discriminate])].
    destruct (String.eqb u EmptyString) eqn:E.
    - apply String.eqb_eq in E. subst u. unfold setBaseUrl. simpl.
      unfold ret. cbn [snd].
      split; [reflexivity|]. split; [reflexivity|]. split; [reflexivity|].
      split; [reflexivity|]. split; [reflexivity|].
      intros u' [= <-] Hne. now elim Hne.
    - apply String.eqb_neq in E. rewrite (setBaseUrl_run u w1 E).
      cbn [snd]. cbv zeta.
      destruct (truthy (default EmptyString (process_env w1 !! key_variable))
                && negb (is_Some_bool (anthropic w1))) eqn:Hb.
      + split; [reflexivity|]. split; [reflexivity|].
        split; [reflexivity|]. split; [reflexivity|]. split.
        * intros Hsome. rewrite Hsome in Hb.
          now rewrite andb_false_r in Hb.
        * intros u' [= <-] _. split; [reflexivity|]. simpl.
          apply lookup_insert_eq.
      + split; [reflexivity|]. split; [reflexivity|].
        split; [reflexivity|]. split; [reflexivity|].
        split; [reflexivity|].
        intros u' [= <-] _. split; [reflexivity|]. simpl.
        apply lookup_insert_eq. }
  destruct H2 as (-> & Ht2 & Hs2 & Hc2 & Hk2 & Hu2).
  set (w3 := snd (match name with
                  | Some n => setModel n
                  | None => ret tt
                  end w2)).
  assert (H3 : match name with
               | Some n => setModel n
               | None => ret tt
               end w2 = (Returns tt, w3)
               /\ trace w3 = trace w2
               /\ serverConnections w3 = serverConnections w2
               /\ config w3 = config w2
               /\ anthropic w3 = anthropic w2
               /\ baseUrl w3 = baseUrl w2
               /\ process_env w3 = process_env w2
               /\ (forall n, name = Some n -> n <> EmptyString ->
                     modelName w3 = n)).
  { subst w3. destruct name as [n|];
      [|unfold ret; cbn [snd]; (do 7 (split; [reflexivity|]));
        discriminate].
    unfold setModel, truthy.
    destruct (String.eqb n EmptyString) eqn:E; simpl; unfold ret;
      cbn [snd]; (do 7 (split; [reflexivity|])).
    - apply String.eqb_eq in E. subst n. intros n' [= <-] Hne. now elim Hne.
    - now intros n' [= <-] _. }
  destruct H3 as (-> & Ht3 & Hs3 & Hc3 & Hk3 & Hb3 & He3 & Hn3).
  exists (Response.mk 200 ConfigUpdated), w3. unfold ret.
  split; [reflexivity|]. split; [congruence|]. split; [congruence|].
  split; [congruence|]. split; [reflexivity|].
  split.
  { intros key Hkey Hne. rewrite Hk3, Hk2; [now apply Hk1|].
    now rewrite (Hk1 key Hkey Hne). }
  split; [|exact Hn3].
  intros u Hu Hne. rewrite Hb3, He3. now apply Hu2.
Qed.

Section Answers.
Context (env : Env).

(** X21.  The disconnect handler answers 400 to a body without a server name,
    with nothing changed, and 500 only to a body it cannot read.  Every
    other request is answered with success, whether or not the server was
    connected or is known at all; the server is then not connected, and
    the entries of the other servers are as they were. *)
Theorem POST_mcp_disconnect_answers request w :
  exists response w',
    POST_mcp_disconnect env request w = (Returns response, w')
    /\ match request with
       | Rejected error =>
           response
           = Response.mk 500
               (DisconnectFailed
                  (str_or (JsError.message error) "MCP服务器断开连接失败"))
           /\ w' = w
       | Resolved None | Resolved (Some EmptyString) =>
           response
           = Response.mk 400 (DisconnectRefused "服务器名称不能为空")
           /\ w' = w
       | Resolved (Some serverName) =>
           response
           = Response.mk 200
               (Disconnected
                  ("已断开MCP服务器: " +:+ serverName +:+ "连接"))
           /\ isSpecificServerConnected serverName w' = false
           /\ map_keys (serverConnections w')
              = map_keys (serverConnections w)
           /\ (forall other, other <> serverName ->
                 map_get other (serverConnections w')
                 = map_get other (serverConnections w))
           /\ config w' = config w
       end.
Proof.
  destruct request as [[serverName|]|error];
    [|eexists _, w; split; [reflexivity|]; split; reflexivity
     |eexists _, w; split; [reflexivity|]; split; reflexivity].
  destruct serverName as [|c rest];
    [eexists _, w; split; [reflexivity|]; split; reflexivity|].
  eexists _, (torn_down env (String c rest) w).
  split.
  { unfold POST_mcp_disconnect, try_catch, bind. cbn [from_option id].
    change (truthy (String c rest)) with true. cbn [negb].
    rewrite disconnectMcpServer_run. reflexivity. }
  destruct (torn_down_registry env (String c rest) w)
    as (Hkeys & Hother & Hoff & _).
  destruct (torn_down_frame env (String c rest) 0 w) as (Hcfg & _).
  repeat split; auto.
Qed.

Context (JSON_parse : string -> Settled McpServerConfig).


End Answers.

(** ** The chat handler *)

Lemma Array_includes_In xs x : Array_includes xs x = true <-> In x xs.
Proof.
  unfold Array_includes. rewrite existsb_exists. split.
  - intros (y & Hy & Heq). apply String.eqb_eq in Heq. now subst y.
  - intros Hx. exists x. split; [exact Hx|apply String.eqb_refl].
Qed.

Lemma connected_is_listed w name :
  isSpecificServerConnected name w = true -> In name (getConnectedServers w).
Proof.
  intros H. apply getConnectedServers_in.
  now apply isSpecificServerConnected_in.
Qed.

Lemma no_length {A} (l : list A) : (0 <? length l)%nat = false -> l = [].
Proof. now destruct l. Qed.

(** The condition under which the chat handler looks at the connections:
    the request says it is connected and lists at least one server. *)
Definition reports_servers (mcpState : option McpState.t) : bool :=
  match mcpState with
  | None => false
  | Some state =>
      McpState.connected state
      && (0 <? length (default [] (McpState.connectedServers state)))%nat
  end.

Section Chat.
Context (env : Env) (JSON_parse : string -> Settled McpServerConfig).

Lemma synchronize_run mcpState w :
  exists w',
    synchronize env JSON_parse mcpState w = (Returns tt, w')
    /\ (reports_servers mcpState = false -> w' = w)
    /\ forall state,
         mcpState = Some state ->
         reports_servers mcpState = true ->
         let reported := default [] (McpState.connectedServers state) in
         (forall name,
            isSpecificServerConnected name w' = true -> In name reported)
         /\ (forall name,
               In name reported ->
               isSpecificServerConnected name w = true ->
               map_get name (serverConnections w')
               = map_get name (serverConnections w)).
Proof.
  destruct mcpState as [state|];
    [|exists w; split; [reflexivity|]; split; [reflexivity|discriminate]].
  unfold synchronize, reports_servers.
  set (reported := default [] (McpState.connectedServers state)).
  destruct (McpState.connected state && (0 <? length reported)%nat)
    eqn:Hreports;
    [|exists w; split; [reflexivity|]; split; [reflexivity|discriminate]].
  set (configure :=
         if truthy (default EmptyString (McpState.mcpConfig state))
         then match JSON_parse
                      (default EmptyString (McpState.mcpConfig state)) with
              | Resolved parsed => setConfig parsed
              | Rejected _ => ret tt
              end
         else ret tt).
  assert (Hconfigure : exists w0,
            configure w = (Returns tt, w0)
            /\ serverConnections w0 = serverConnections w).
  { subst configure.
    destruct (truthy _); [|now exists w].
    destruct (JSON_parse _) as [parsed|e]; [|now exists w].
    now exists (with_config (Some parsed) w). }
  destruct Hconfigure as (w0 & Hconfigure & Hsame).
  assert (Hlisted : getConnectedServers w0 = getConnectedServers w)
    by (unfold getConnectedServers; now rewrite Hsame).
  assert (Hon : forall name,
            isSpecificServerConnected name w0
            = isSpecificServerConnected name w)
    by (intros name; unfold isSpecificServerConnected; now rewrite Hsame).
  unfold bind at 1. rewrite Hconfigure. unfold bind at 1, get.
  set (shouldConnect :=
         List.filter (fun server =>
                        negb (Array_includes (getConnectedServers w0) server))
           reported).
  set (shouldDisconnect :=
         List.filter (fun server => negb (Array_includes reported server))
           (getConnectedServers w0)).
  assert (Hunwanted : forall name,
            isSpecificServerConnected name w0 = true ->
            ~ In name reported -> In name shouldDisconnect).
  { intros name Hname Hout. apply filter_In. split.
    - now apply connected_is_listed.
    - destruct (Array_includes reported name) eqn:E; [|reflexivity].
      apply Array_includes_In in E. now elim Hout. }
  assert (Hwanted : forall name, In name shouldDisconnect ->
            ~ In name reported).
  { intros name Hname Hin. apply filter_In in Hname as (_ & Hf).
    apply Array_includes_In in Hin. now rewrite Hin in Hf. }
  assert (Hmissing : forall name, In name shouldConnect ->
            In name reported
            /\ ~ In name (getConnectedServers w0)).
  { intros name Hname. apply filter_In in Hname as (Hin & Hf).
    split; [exact Hin|]. intros Hc. apply Array_includes_In in Hc.
    now rewrite Hc in Hf. }
  destruct ((0 <? length shouldConnect)%nat
            || (0 <? length shouldDisconnect)%nat) eqn:Hwork.
  - destruct (disconnect_unwanted_run env shouldDisconnect w0)
      as (w1 & Hrun1 & Hoff1 & Hkeep1 & Hother1 & _).
    destruct (connect_missing_run env shouldConnect w1)
      as (w2 & Hrun2 & Hother2).
    exists w2. split; [unfold bind; now rewrite Hrun1|].
    split; [discriminate|].
    intros state' [= <-] _. cbv zeta. fold reported. split.
    + intros name Hname.
      destruct (in_dec string_dec name reported) as [Hin|Hout];
        [exact Hin|exfalso].
      assert (Hoff : isSpecificServerConnected name w1 = false).
      { destruct (isSpecificServerConnected name w0) eqn:E.
        - apply Hoff1. now apply Hunwanted.
        - now apply Hkeep1. }
      unfold isSpecificServerConnected in Hname, Hoff.
      rewrite Hother2 in Hname; [congruence|].
      intros Hc. now apply Hmissing in Hc as (Hin & _).
    + intros name Hin Hname.
      rewrite Hother2, Hother1, Hsame; [reflexivity| |].
      * intros Hc. now apply Hwanted in Hc.
      * intros Hc. apply Hmissing in Hc as (_ & Hc). apply Hc.
        apply connected_is_listed. now rewrite Hon.
  - apply orb_false_iff in Hwork as (_ & Hnone). apply no_length in Hnone.
    exists w0. split; [reflexivity|]. split; [discriminate|].
    intros state' [= <-] _. cbv zeta. fold reported. split.
    + intros name Hname.
      destruct (in_dec string_dec name reported) as [Hin|Hout];
        [exact Hin|exfalso].
      rewrite Hon in Hname.
      assert (Hc : In name shouldDisconnect)
        by (apply Hunwanted; [now rewrite Hon|exact Hout]).
      now rewrite Hnone in Hc.
    + intros name _ _. now rewrite Hsame.
Qed.

(** What the handler makes of the outcome of [sendMessage]. *)
Definition chat_answer (outcome : Outcome Message.t) : Response.t ChatBody :=
  match outcome with
  | Returns response => Response.mk 200 (ChatAnswered response)
  | Throws error =>
      Response.mk 500 (ChatFailed (str_or (JsError.message error) "请求处理失败"))
  end.

Lemma POST_chat_run messages mcpState w :
  POST_chat env JSON_parse
    (Resolved (ChatRequest.mk (Some messages) mcpState)) w
  = let synced := snd (synchronize env JSON_parse mcpState w) in
    (Returns (chat_answer (fst (sendMessage env messages synced))),
     snd (sendMessage env messages synced)).
Proof.
  destruct (synchronize_run mcpState w) as (w1 & Hrun & _).
  unfold POST_chat, try_catch, bind. cbn [ChatRequest.messages
    ChatRequest.mcpState]. rewrite Hrun. cbn [snd].
  now destruct (sendMessage env messages w1) as [[m|e] w2].
Qed.

(** X23.  The chat handler never fails.  It answers 400 to a body whose
    messages are missing or are not an array and 500 to a body it cannot
    read, with nothing changed.  A request that does not report connected
    servers is answered by [sendMessage] on the service as it is: the
    connections of the server stay, also those the client does not know
    of. *)
Theorem POST_chat_answers request w :
  exists response w',
    POST_chat env JSON_parse request w = (Returns response, w')
    /\ match request with
       | Rejected error =>
           response
           = Response.mk 500
               (ChatFailed (str_or (JsError.message error) "请求处理失败"))
           /\ w' = w
       | Resolved body =>
           match ChatRequest.messages body with
           | None =>
               response = Response.mk 400 (ChatFailed "无效的消息格式")
               /\ w' = w
           | Some messages =>
               (Response.status response = 200
                \/ Response.status response = 500)
               /\ (reports_servers (ChatRequest.mcpState body) = false ->
                   response = chat_answer (fst (sendMessage env messages w))
                   /\ w' = snd (sendMessage env messages w)
                   /\ serverConnections w' = serverConnections w
                   /\ config w' = config w)
           end
       end.
Proof.
  destruct request as [[[messages|] mcpState]|error];
    [|eexists _, w; split; [reflexivity|]; split; reflexivity
     |eexists _, w; split; [reflexivity|]; split; reflexivity].
  rewrite POST_chat_run. cbv zeta.
  destruct (synchronize_run mcpState w) as (w1 & Hrun & Hskip & _).
  rewrite Hrun. cbn [snd ChatRequest.messages ChatRequest.mcpState].
  eexists _, _. split; [reflexivity|]. split.
  - destruct (fst (sendMessage env messages w1)); simpl; auto.
  - intros Hno. rewrite (Hskip Hno).
    split; [reflexivity|]. split; [reflexivity|].
    apply sendMessage_leaves_registry.
Qed.


End Chat.

(** * Scenarios

    Concrete environments and worlds, on which the theorems above are
    exercised and the behaviours that differ from the specification are
    run. *)

Definition add_args : JSON := JObject [("a", JNumber 2); ("b", JNumber 2)].

Definition more_args : JSON := JObject [("a", JNumber 4); ("b", JNumber 4)].

Definition add_tool : McpTool.t :=
  {| McpTool.name := "add";
     McpTool.description := Some EmptyString;
     McpTool.input_schema := JObject [];
     McpTool.serverName := "calc" |}.

Definition read_tool : McpTool.t :=
  {| McpTool.name := "read";
     McpTool.description := Some EmptyString;
     McpTool.input_schema := JObject [];
     McpTool.serverName := "files" |}.

(** A live connection to a calculator server, and one to a file server. *)
Definition calc : McpServerConnection.t :=
  {| serverName := "calc"; mcp := 2; transport := Some 2;
     tools := [add_tool]; isConnected := true |}.

Definition files : McpServerConnection.t :=
  {| serverName := "files"; mcp := 1; transport := Some 1;
     tools := [read_tool]; isConnected := true |}.

Definition question : Message.t :=
  {| Message.id := "1";
     Message.role := user;
     Message.content := [text_block "What's 2+2?"];
     Message.createdAt := 0 |}.

Definition world_of (connections : list (string * McpServerConnection.t))
    (cfg : option McpServerConfig) : World :=
  {| serverConnections := connections;
     config := cfg;
     anthropic :=
       Some {| Anthropic.apiKey := "sk-test";
               Anthropic.baseURL := "https://api.anthropic.com" |};
     modelName := "claude-3-7-sonnet-latest";
     baseUrl := "https://api.anthropic.com";
     isInitialized := true;
     process_env := ∅;
     trace := [] |}.

(** An environment in which servers never answer in time, tools return 4,
    and the model follows [script]: its n-th answer is [script n]. *)
Definition scripted (script : nat -> list ContentBlock) : Env :=
  {| launch_server := fun _ _ _ _ => TimerFirst;
     late_answers := fun _ => [];
     client_close := fun _ _ => None;
     transport_close := fun _ _ => None;
     client_callTool := fun _ _ _ _ => Resolved (JNumber 4);
     messages_create := fun tr _ => Resolved (script (length (creates tr)));
     Date_now := fun _ => 0 |}.

(** A model that asks for the same call again and again. *)
Definition stuck (n : nat) : list ContentBlock :=
  [ToolUseBlock "add" add_args].

(** A model that says something before it asks for the tool. *)
Definition talkative (n : nat) : list ContentBlock :=
  match n with
  | 0 => [TextBlock "Let me add."; ToolUseBlock "add" add_args]
  | _ => [TextBlock "4"]
  end.

(** A model that asks for a tool in two rounds, without a word. *)
Definition silent (n : nat) : list ContentBlock :=
  match n with
  | 0 => [ToolUseBlock "add" add_args]
  | 1 => [ToolUseBlock "add" more_args]
  | _ => [TextBlock "8"]
  end.

Definition calc_config : McpServerConfig :=
  {| mcpServers :=
       {[ "calc" := {| ServerConfig.command := "node";
                       ServerConfig.args := Some ["calc-server.js"];
                       ServerConfig.env := None |} ]} |}.

Definition returned (run : Outcome Message.t * World) : Message.t :=
  match fst run with
  | Returns m => m
  | Throws _ => question
  end.

Definition reached (run : Outcome Vars * World) : Vars :=
  match fst run with
  | Returns v => v
  | Throws _ => initial []
  end.

(** ** The repeated call (C1) *)

(** C1 does not hold of the code.  Under a model that asks for the same
    call [add {a:2,b:2}] in every answer, the tool is invoked again in
    every round, twenty times in all, and the loop ends only at the
    iteration cap, after which the summary request is made: the test for a
    repeated call compares the key of the new call with the recorded
    arguments serialized a second time, and so does not recognize it.  The
    entry recorded for a call never matches that call, and no entry at all
    matches a call whose input is an object. *)
Theorem repeated_call_is_invoked_again :
  let run := sendMessage (scripted stuck) [question]
               (world_of [("calc", calc)] None) in
  tool_calls (trace (snd run)) = repeat ("add", add_args) 20
  /\ length (creates (trace (snd run))) = 21
  /\ isRepeatedCall [("add", JSON_stringify add_args)] "add" add_args
     = false
  /\ (forall name input,
        isRepeatedCall [(name, JSON_stringify input)] name input = false)
  /\ (forall called name members,
        isRepeatedCall called name (JObject members) = false).
Proof.
  cbv zeta. split; [vm_compute; reflexivity|].
  split; [vm_compute; reflexivity|].
  split; [vm_compute; reflexivity|].
  split; [apply isRepeatedCall_same_call|apply isRepeatedCall_object].
Qed.

(** ** The returned content (C2) *)

(** Against C2 as stated: the model says "Let me add." in the answer in
    which it asks for the tool; the block is among those the round
    produced, and it is not in the returned message. *)
Lemma text_of_tool_round_is_dropped :
  let vars := sendMessage_vars (scripted talkative) [question]
                (world_of [("calc", calc)] None) in
  let run := sendMessage (scripted talkative) [question]
               (world_of [("calc", calc)] None) in
  map snd (creates (trace (snd run)))
  = [Resolved [TextBlock "Let me add."; ToolUseBlock "add" add_args];
     Resolved [TextBlock "4"]]
  /\ rounds (reached vars)
     = [[text_block "Let me add."; toolUse "add" add_args;
         toolResult "add" add_args (JNumber 4)];
        [text_block "4"]]
  /\ ~ In (text_block "Let me add.") (Message.content (returned run))
  /\ fst run
     = Returns {| Message.id := "0";
                  Message.role := assistant;
                  Message.content :=
                    [toolUse "add" add_args;
                     toolResult "add" add_args (JNumber 4);
                     text_block "4"];
                  Message.createdAt := 0 |}
  /\ Message.content (returned run) <> concat (rounds (reached vars)).
Proof.
  cbv zeta. split; [vm_compute; reflexivity|].
  split; [vm_compute; reflexivity|].
  split; [vm_compute; intros [H|[H|[H|[]]]]; discriminate|].
  split; [vm_compute; reflexivity|].
  vm_compute. discriminate.
Qed.

Lemma sendMessage_content_witness :
  Message.role
    (returned (sendMessage (scripted talkative) [question]
                 (world_of [("calc", calc)] None)))
  = assistant
  /\ exists loop temps closing texts t1 t2,
       since (world_of [("calc", calc)] None)
         (snd (sendMessage (scripted talkative) [question]
                 (world_of [("calc", calc)] None)))
       = loop ++ closing ++ [EvNow t1; EvNow t2]
       /\ Rounds (serverConnections (world_of [("calc", calc)] None)) []
            loop temps
       /\ Message.content
            (returned (sendMessage (scripted talkative) [question]
                         (world_of [("calc", calc)] None)))
          = flat_map shown temps ++ texts
       /\ ((closing = [] /\ texts = [])
           \/ (exists question' final,
                 last [question] = Some question'
                 /\ closing
                    = [EvCreate
                         (summary_request
                            (snd (sendMessage (scripted talkative) [question]
                                    (world_of [("calc", calc)] None)))
                            question')
                         (Resolved final)]
                 /\ texts = first_text final
                 /\ length temps = maxIterations)
           \/ (exists original,
                 closing
                 = [EvCreate
                      (plain_request
                         (snd (sendMessage (scripted talkative) [question]
                                 (world_of [("calc", calc)] None)))
                         [question])
                      (Resolved original)]
                 /\ texts = all_texts original
                 /\ flat_map shown temps = [])).
Proof.
  apply (sendMessage_content (scripted talkative) [question]
           (world_of [("calc", calc)] None)).
  vm_compute. reflexivity.
Defined.

(** The run behind the lemma above, event by event: the answer in which
    the model asks for the tool, the call, the answer that ends the loop,
    and the two readings of the clock. *)
Example talkative_run :
  let run := sendMessage (scripted talkative) [question]
               (world_of [("calc", calc)] None) in
  map (fun e => match e with
                | EvCreate _ outcome => EvCreate (plain_request (snd run) [])
                                          outcome
                | _ => e
                end) (trace (snd run))
  = [EvCreate (plain_request (snd run) [])
       (Resolved [TextBlock "Let me add."; ToolUseBlock "add" add_args]);
     EvCallTool (mcp calc) "add" add_args (Resolved (JNumber 4));
     EvCreate (plain_request (snd run) []) (Resolved [TextBlock "4"]);
     EvNow 0; EvNow 0]
  /\ Message.content (returned run)
     = [toolUse "add" add_args; toolResult "add" add_args (JNumber 4);
        text_block "4"].
Proof. split; vm_compute; reflexivity. Qed.

(** ** The iteration cap (C5) *)

(** A question in two text blocks, with a block between them that is not
    text. *)
Definition long_question : Message.t :=
  {| Message.id := "2";
     Message.role := user;
     Message.content :=
       [text_block "What's 2+2?"; toolUse "add" add_args;
        text_block "Be brief."];
     Message.createdAt := 1 |}.

(** A model that asks for the same call in its first twenty answers, and
    then answers in two text blocks. *)
Definition restless (n : nat) : list ContentBlock :=
  if (n <? 20)%nat then [ToolUseBlock "add" add_args]
  else [OtherBlock; TextBlock "It is 4."; TextBlock "Anything else?"].


(** The run behind the lemma above.  Twenty requests carry the tool and
    are answered by a call of it; the one that follows carries no tools
    and a single message, the prompt with the two texts of the question
    joined by a space; of its answer the first text block is shown, and
    the second is not. *)
Example restless_run :
  let run := sendMessage (scripted restless) [question; long_question]
               (world_of [("calc", calc)] None) in
  map (fun request => CreateParams.tools (fst request))
    (creates (trace (snd run)))
  = repeat (Some [to_ApiTool add_tool]) 20 ++ [None]
  /\ tool_calls (trace (snd run)) = repeat ("add", add_args) 20
  /\ last (creates (trace (snd run)))
     = Some ({| CreateParams.model := "claude-3-7-sonnet-latest";
                CreateParams.max_tokens := 1000;
                CreateParams.messages :=
                  [user_says
                     ("我提交了一个问题，你尝试使用了多种工具来回答，但似乎需要多次工具调用。"
                      +:+ "请根据目前已获得的信息，总结一下你了解到的内容，并尽可能回答我的问题。"
                      +:+ "原始问题是：What's 2+2? Be brief.")];
                CreateParams.tools := None |},
             Resolved
               [OtherBlock; TextBlock "It is 4."; TextBlock "Anything else?"])
  /\ Message.content (returned run)
     = concat
         (repeat
            [toolUse "add" add_args; toolResult "add" add_args (JNumber 4)]
            20)
       ++ [text_block "It is 4."].
Proof. cbv zeta. repeat split; vm_compute; reflexivity. Qed.


(** ** A successful tool call (C6) *)

(** Against C6 as stated: in the second round the model asks for a tool
    without any text; the call succeeds, and the history the third request
    carries has grown by the user entry alone. *)
Lemma later_round_appends_one_entry :
  map (fun request => CreateParams.messages (fst request))
    (creates
       (trace (snd (sendMessage (scripted silent) [question]
                      (world_of [("calc", calc)] None)))))
  = [[user_says "What's 2+2?"];
     [user_says "What's 2+2?";
      assistant_says (placeholder "add");
      user_says (result_line "add" (JNumber 4))];
     [user_says "What's 2+2?";
      assistant_says (placeholder "add");
      user_says (result_line "add" (JNumber 4));
      user_says (result_line "add" (JNumber 4))]]
  /\ tool_calls
       (trace (snd (sendMessage (scripted silent) [question]
                      (world_of [("calc", calc)] None))))
     = [("add", add_args); ("add", more_args)].
Proof. split; vm_compute; reflexivity. Qed.

Definition before_tool : list ContentBlock := [TextBlock "Let me add."].

Definition first_round : Vars := initial [user_says "What's 2+2?"].

Lemma tool_success_entries_witness :
  exists v',
    process_content (scripted talkative)
      (before_tool ++ ToolUseBlock "add" add_args :: [])
      (begin_round first_round) (world_of [("calc", calc)] None)
    = process_content (scripted talkative) [] v'
        (snd (callTool (scripted talkative) "add" add_args
                (world_of [("calc", calc)] None)))
    /\ messageContent v'
       = messageContent
           (reached (process_content (scripted talkative) before_tool
                       (begin_round first_round)
                       (world_of [("calc", calc)] None)))
         ++ [toolUse "add" add_args; toolResult "add" add_args (JNumber 4)]
    /\ conversationHistory v'
       = conversationHistory
           (reached (process_content (scripted talkative) before_tool
                       (begin_round first_round)
                       (world_of [("calc", calc)] None)))
         ++ (if truthy (latest_text before_tool EmptyString)
             then [assistant_says (latest_text before_tool EmptyString)]
             else if (iterations first_round =? 0)%nat
                  then [assistant_says (placeholder "add")]
                  else [])
         ++ [user_says (result_line "add" (JNumber 4))].
Proof.
  apply (tool_success_entries (scripted talkative) before_tool "add"
           add_args [] first_round (world_of [("calc", calc)] None)
           (reached (process_content (scripted talkative) before_tool
                       (begin_round first_round)
                       (world_of [("calc", calc)] None)))
           (world_of [("calc", calc)] None)).
  - reflexivity.
  - reflexivity.
  - reflexivity.
  - vm_compute. reflexivity.
  - vm_compute. reflexivity.
Defined.

(** ** Connecting (C3, C4, C7) *)

(** Against C3 as stated: no configuration is on file for "calc", and the
    call with [retryCount = 2] still goes through the retry loop: three
    attempts fail on the configuration check, with two waits of 1000 ms
    between them, before the error reaches the caller. *)
Lemma config_error_is_retried :
  ConfigProblem "calc" (world_of [] None)
  /\ fst (connectToServer (scripted stuck) "calc" 2 10000 (world_of [] None))
     = Throws (server_not_found "calc")
  /\ trace (snd (connectToServer (scripted stuck) "calc" 2 10000
                   (world_of [] None)))
     = [EvConnectFailed "calc" 1 3 (server_not_found "calc");
        EvSleep 1000;
        EvConnectFailed "calc" 2 3 (server_not_found "calc");
        EvSleep 1000;
        EvConnectFailed "calc" 3 3 (server_not_found "calc")].
Proof.
  split; [exact I|]. split; vm_compute; reflexivity.
Qed.

Lemma connectToServer_config_problem_witness :
  exists w' evs,
    connectToServer (scripted stuck) "calc" 2 10000 (world_of [] None)
    = (Throws (config_error "calc" (world_of [] None)), w')
    /\ trace w' = trace (world_of [] None) ++ evs
    /\ List.filter is_launch evs = []
    /\ List.filter is_retry_event evs
       = retry_log "calc" (2 + 1) 0
           (repeat (config_error "calc" (world_of [] None)) (2 + 1))
    /\ length (List.filter is_failure evs) = 2 + 1
    /\ length (List.filter is_sleep evs) = 2.
Proof.
  apply (connectToServer_config_problem (scripted stuck) "calc" 2 10000
           (world_of [] None)).
  vm_compute. exact I.
Defined.


Definition listed_add : ListedTool.t :=
  {| ListedTool.name := "add";
     ListedTool.description := None;
     ListedTool.inputSchema := JObject [] |}.

(** An environment in which no server answers in time, and the first
    launch that ran out of time is answered late. *)
Definition late_joiner : Env :=
  {| launch_server := fun _ _ _ _ => TimerFirst;
     late_answers := fun tr =>
       match omap timed_out_launch tr with
       | h :: _ => [(h, Resolved [listed_add])]
       | [] => []
       end;
     client_close := fun _ _ => None;
     transport_close := fun _ _ => None;
     client_callTool := fun _ _ _ _ => Resolved (JNumber 4);
     messages_create := fun _ _ => Resolved [];
     Date_now := fun _ => 0 |}.

(** The file server is connected, and the calculator is configured and
    not connected. *)
Definition files_only : World :=
  world_of [("files", files)] (Some calc_config).

Definition late_failure : Outcome (list McpTool.t) * World :=
  connectToServer late_joiner "calc" 2 10000 files_only.
(** Against C4 as stated, a second time: the calculator is not connected
    and its server never answers in time; the first launch is answered
    while the call waits before it tries again.  The call fails after
    three launches, and the calculator is now on file, connected, with the
    client of the first launch. *)
Example failed_connect_leaves_late_connection :
  fst late_failure = Throws (Error (timed_out 10000))
  /\ serverConnections files_only = [("files", files)]
  /\ serverConnections (snd late_failure)
     = [("files", files);
        ("calc",
         {| serverName := "calc"; mcp := 0; transport := Some 0;
            tools := [add_tool]; isConnected := true |})]
  /\ getConnectedServers (snd late_failure) = ["files"; "calc"]
  /\ List.filter (fun e => negb (is_failure e)) (trace (snd late_failure))
     = [EvLaunch 0 "calc"
          {| ServerConfig.command := "node";
             ServerConfig.args := Some ["calc-server.js"];
             ServerConfig.env := None |} 10000 TimerFirst;
        EvSleep 1000;
        EvLate 0 (Resolved [listed_add]);
        EvLaunch 4 "calc"
          {| ServerConfig.command := "node";
             ServerConfig.args := Some ["calc-server.js"];
             ServerConfig.env := None |} 10000 TimerFirst;
        EvSleep 1000;
        EvLaunch 7 "calc"
          {| ServerConfig.command := "node";
             ServerConfig.args := Some ["calc-server.js"];
             ServerConfig.env := None |} 10000 TimerFirst].
Proof. repeat split; vm_compute; reflexivity. Qed.


(** The configuration is valid and the server never answers in time:
    three attempts, each of which is launched and times out. *)
Example connect_times_out_three_times :
  trace (snd (connectToServer (scripted stuck) "calc" 2 10000
                (world_of [] (Some calc_config))))
  = [EvLaunch 0 "calc"
       {| ServerConfig.command := "node";
          ServerConfig.args := Some ["calc-server.js"];
          ServerConfig.env := None |} 10000 TimerFirst;
     EvConnectFailed "calc" 1 3 (timed_out 10000);
     EvSleep 1000;
     EvLaunch 3 "calc"
       {| ServerConfig.command := "node";
          ServerConfig.args := Some ["calc-server.js"];
          ServerConfig.env := None |} 10000 TimerFirst;
     EvConnectFailed "calc" 2 3 (timed_out 10000);
     EvSleep 1000;
     EvLaunch 6 "calc"
       {| ServerConfig.command := "node";
          ServerConfig.args := Some ["calc-server.js"];
          ServerConfig.env := None |} 10000 TimerFirst;
     EvConnectFailed "calc" 3 3 (timed_out 10000)].
Proof. vm_compute. reflexivity. Qed.

Lemma connectToServer_retry_ceiling_witness :
  (exists e w',
      connectToServer (scripted stuck) "calc" 2 10000
        (world_of [] (Some calc_config))
      = (Throws e, w'))
  /\ exists evs errors,
       trace (snd (connectToServer (scripted stuck) "calc" 2 10000
                     (world_of [] (Some calc_config))))
       = trace (world_of [] (Some calc_config)) ++ evs
       /\ List.filter is_retry_event evs = retry_log "calc" (2 + 1) 0 errors
       /\ length errors = 2 + 1
       /\ last errors = Some (Error (timed_out 10000))
       /\ length (List.filter is_failure evs) = 2 + 1
       /\ length (List.filter is_sleep evs) = 2.
Proof.
  split.
  - apply (proj1 (connectToServer_retry_ceiling (scripted stuck) "calc" 2
                    10000 (world_of [] (Some calc_config)))).
    intros tr serverConfig. reflexivity.
  - apply (proj2 (connectToServer_retry_ceiling (scripted stuck) "calc" 2
                    10000 (world_of [] (Some calc_config)))
             (timed_out 10000)).
    vm_compute. reflexivity.
Defined.

(** ** Routing and teardown (C8, C9) *)

(** Only the second server lists "add": the call goes to its client; a
    tool that nobody lists is not found. *)
Lemma callTool_routes_to_first_exposing_witness :
  callTool (scripted stuck) "add" add_args
    (world_of [("files", files); ("calc", calc)] None)
  = delegated (scripted stuck) (mcp calc) "add" add_args
      (world_of [("files", files); ("calc", calc)] None)
  /\ callTool (scripted stuck) "missing" add_args
       (world_of [("files", files); ("calc", calc)] None)
     = (Throws (ToolNotFound "missing"),
        world_of [("files", files); ("calc", calc)] None).
Proof.
  split.
  - apply (proj1 (callTool_routes_to_first_exposing (scripted stuck) "add"
                    add_args
                    (world_of [("files", files); ("calc", calc)] None))
             [files] calc []).
    + reflexivity.
    + intros c [<-|[]]. apply exposes_false_iff. reflexivity.
    + apply exposes_iff. reflexivity.
  - apply (proj2 (callTool_routes_to_first_exposing (scripted stuck)
                    "missing" add_args
                    (world_of [("files", files); ("calc", calc)] None))).
    intros c [<-|[<-|[]]]; apply exposes_false_iff; reflexivity.
Defined.

(** When two servers list the same tool, the one registered first gets the
    call. *)
Example first_registered_wins :
  let twin :=
    {| serverName := "twin"; mcp := 7; transport := Some 7;
       tools := [add_tool]; isConnected := true |} in
  tool_calls
    (trace (snd (callTool (scripted stuck) "add" add_args
                   (world_of [("calc", calc); ("twin", twin)] None))))
  = [("add", add_args)]
  /\ trace (snd (callTool (scripted stuck) "add" add_args
                   (world_of [("calc", calc); ("twin", twin)] None)))
     = [EvCallTool (mcp calc) "add" add_args (Resolved (JNumber 4))].
Proof. split; vm_compute; reflexivity. Qed.

Lemma disconnectServer_idempotent_witness :
  exists stored,
    map_get "calc"
      (serverConnections
         (snd (disconnectServer (scripted stuck) "calc"
                 (world_of [("calc", calc)] None))))
    = Some stored
    /\ isConnected stored = false
    /\ tools stored = []
    /\ transport stored = None
    /\ trace (snd (disconnectServer (scripted stuck) "calc"
                     (world_of [("calc", calc)] None)))
       = trace (world_of [("calc", calc)] None)
         ++ teardown_events (scripted stuck) calc
              (trace (world_of [("calc", calc)] None)).
Proof.
  apply (proj1 (proj2 (proj2 (proj2
           (disconnectServer_idempotent (scripted stuck) "calc"
              (world_of [("calc", calc)] None)))))
           calc).
  - reflexivity.
  - reflexivity.
Defined.

(** ** The rest of the manager, of the service and of the handlers *)

(** What the SDK client rejects a tool call with when the server answers
    with a JSON-RPC error. *)
Definition division_by_zero : JsError.t :=
  {| JsError.name := "McpError";
     JsError.message := "MCP error -32603: division by zero" |}.

(** An environment in which a server answers at the second launch, after
    the first has run out of time; every tool call fails, and the model
    follows [script]. *)
Definition slow_start (script : nat -> list ContentBlock) : Env :=
  {| launch_server := fun tr _ _ _ =>
       if existsb is_launch tr then ListToolsResolves [listed_add]
       else TimerFirst;
     late_answers := fun _ => [];
     client_close := fun _ _ => None;
     transport_close := fun _ _ => None;
     client_callTool := fun _ _ _ _ => Rejected division_by_zero;
     messages_create := fun tr _ => Resolved (script (length (creates tr)));
     Date_now := fun _ => 0 |}.

(** An environment in which the model rejects every request. *)
Definition refusing : Env :=
  {| launch_server := fun _ _ _ _ => TimerFirst;
     late_answers := fun _ => [];
     client_close := fun _ _ => None;
     transport_close := fun _ _ => None;
     client_callTool := fun _ _ _ _ => Resolved (JNumber 4);
     messages_create := fun _ _ => Rejected "overloaded";
     Date_now := fun _ => 0 |}.

(** The calculator is configured and nothing is connected. *)
Definition configured : World := world_of [] (Some calc_config).

(** The file server and the calculator are connected. *)
Definition two_servers : World :=
  world_of [("files", files); ("calc", calc)] None.

(** The service as its fields are declared, before a client is built,
    with the variables of the environment. *)
Definition fresh (variables : gmap string string) : World :=
  {| serverConnections := [];
     config := None;
     anthropic := None;
     modelName := "claude-3-7-sonnet-latest";
     baseUrl := "https://api.anthropic.com";
     isInitialized := false;
     process_env := variables;
     trace := [] |}.

(** The world after the calculator has been connected at the second
    launch. *)
Definition calc_connected : World :=
  snd (connectToServer (slow_start talkative) "calc" 2 10000 configured).

Lemma two_servers_consistent : registry_consistent two_servers.
Proof.
  split.
  - refine (bool_decide_unpack _ _). vm_compute. exact I.
  - intros name connection [[= <- <-]|[[= <- <-]|[]]];
      (split; [reflexivity|]);
      (split; [repeat constructor|discriminate]).
Qed.

Lemma two_servers_distinct :
  NoDup (map_keys (serverConnections two_servers)).
Proof. exact (proj1 two_servers_consistent). Qed.

(** *** Connecting *)

Lemma connectToServer_registers_witness :
  exists listed h serverConfig before,
    entry_of "calc" configured = Some serverConfig
    /\ trace calc_connected
       = trace configured ++ before
         ++ [EvLaunch h "calc" serverConfig 10000 (ListToolsResolves listed)]
    /\ h = length (trace configured ++ before)
    /\ launch_server (slow_start talkative) (trace configured ++ before)
         "calc" serverConfig 10000
       = ListToolsResolves listed
    /\ tag_tools "calc" [listed_add] = tag_tools "calc" listed
    /\ map_get "calc" (serverConnections calc_connected)
       = Some (McpServerConnection.mk "calc" h (Some h)
                 (tag_tools "calc" [listed_add]) true)
    /\ (forall other, other <> "calc" ->
          map_get other (serverConnections calc_connected)
          = map_get other (serverConnections configured))
    /\ map_keys (serverConnections calc_connected)
       = (if map_has "calc" (serverConnections configured)
          then map_keys (serverConnections configured)
          else map_keys (serverConnections configured) ++ ["calc"])
    /\ config calc_connected = config configured
    /\ (forall tool, In tool (tag_tools "calc" [listed_add]) ->
          In tool (getAllTools calc_connected)
          /\ McpTool.serverName tool = "calc").
Proof.
  apply (connectToServer_registers (slow_start talkative) "calc" 2 10000
           configured (tag_tools "calc" [listed_add]) calc_connected).
  vm_compute. reflexivity.
Defined.

Lemma connectToServer_stops_at_first_success_witness :
  exists evs errors failed h serverConfig listed,
    trace calc_connected = trace configured ++ evs
    /\ length errors <= 2
    /\ List.filter is_retry_event evs
       = retry_log "calc" (2 + 1) 0 errors
         ++ (if (0 <? length errors)%nat then [EvSleep 1000] else [])
    /\ length (List.filter is_failure evs) = length errors
    /\ length (List.filter is_sleep evs) = length errors
    /\ List.filter is_launch evs
       = failed
         ++ [EvLaunch h "calc" serverConfig 10000
               (ListToolsResolves listed)]
    /\ length failed = length errors
    /\ List.filter is_resolved failed = []
    /\ tag_tools "calc" [listed_add] = tag_tools "calc" listed.
Proof.
  apply (connectToServer_stops_at_first_success (slow_start talkative)
           "calc" 2 10000 configured (tag_tools "calc" [listed_add])
           calc_connected).
  vm_compute. reflexivity.
Defined.

(** The run behind the two lemmas above: one launch that runs out of time,
    the wait, and the launch that is answered. *)
Example connect_at_second_launch :
  trace calc_connected
  = [EvLaunch 0 "calc"
       {| ServerConfig.command := "node";
          ServerConfig.args := Some ["calc-server.js"];
          ServerConfig.env := None |} 10000 TimerFirst;
     EvConnectFailed "calc" 1 3 (timed_out 10000);
     EvSleep 1000;
     EvLaunch 3 "calc"
       {| ServerConfig.command := "node";
          ServerConfig.args := Some ["calc-server.js"];
          ServerConfig.env := None |} 10000
       (ListToolsResolves [listed_add])]
  /\ getConnectedServers calc_connected = ["calc"].
Proof. split; vm_compute; reflexivity. Qed.

(** *** The views of the registry *)

Lemma connection_views_agree_witness :
  (forall name,
      In name (getConnectedServers two_servers)
      <-> isSpecificServerConnected name two_servers = true)
  /\ NoDup (getConnectedServers two_servers)
  /\ (hasAnyServerConnected two_servers = true
      <-> exists name, isSpecificServerConnected name two_servers = true)
  /\ isServerConnected two_servers = hasAnyServerConnected two_servers
  /\ getTools two_servers = getAllTools two_servers
  /\ (hasAnyServerConnected two_servers = false ->
      getAllTools two_servers = []).
Proof.
  apply (connection_views_agree two_servers).
  refine (bool_decide_unpack _ _). vm_compute. exact I.
Defined.

Lemma callTool_serves_listed_tools_witness :
  (exists target,
      In target (map_values (serverConnections two_servers))
      /\ Exposes "read" target
      /\ callTool (scripted stuck) "read" add_args two_servers
         = delegated (scripted stuck) (mcp target) "read" add_args
             two_servers)
  /\ callTool (scripted stuck) "write" add_args two_servers
     = (Throws (ToolNotFound "write"), two_servers).
Proof.
  split.
  - apply (proj1 (callTool_serves_listed_tools (scripted stuck) "read"
                    add_args two_servers)).
    vm_compute. auto.
  - apply (proj2 (callTool_serves_listed_tools (scripted stuck) "write"
                    add_args two_servers)).
    vm_compute. intros [H|[H|[]]]; discriminate.
Defined.

Lemma disconnectAll_disconnects_every_server_witness :
  exists w' evs,
    disconnectAll (scripted stuck) two_servers = (Returns tt, w')
    /\ cleanup (scripted stuck) two_servers = (Returns tt, w')
    /\ map_keys (serverConnections w')
       = map_keys (serverConnections two_servers)
    /\ getConnectedServers w' = []
    /\ getAllTools w' = []
    /\ hasAnyServerConnected w' = false
    /\ config w' = config two_servers
    /\ trace w' = trace two_servers ++ evs
    /\ forallb is_close evs = true
    /\ client_closes evs = map mcp (live (serverConnections two_servers))
    /\ transport_closes evs
       = flat_map transport_of (live (serverConnections two_servers)).
Proof.
  apply (disconnectAll_disconnects_every_server (scripted stuck)
           two_servers).
  refine (bool_decide_unpack _ _). vm_compute. exact I.
Defined.

Lemma registry_consistent_kept_witness :
  (forall serverName retryCount timeoutMs,
      registry_consistent
        (snd (connectToServer (scripted stuck) serverName retryCount
                timeoutMs two_servers)))
  /\ (forall serverName,
        registry_consistent
          (snd (disconnectServer (scripted stuck) serverName two_servers)))
  /\ registry_consistent (snd (disconnectAll (scripted stuck) two_servers))
  /\ (forall name args,
        registry_consistent
          (snd (callTool (scripted stuck) name args two_servers)))
  /\ (forall messages,
        registry_consistent
          (snd (sendMessage (scripted stuck) messages two_servers)))
  /\ (forall cfg, registry_consistent (snd (setConfig cfg two_servers)))
  /\ (forall w0, serverConnections w0 = [] -> registry_consistent w0).
Proof.
  apply (registry_consistent_kept (scripted stuck) two_servers).
  exact two_servers_consistent.
Defined.

Lemma listed_tool_names_a_connected_server_witness :
  isSpecificServerConnected (McpTool.serverName add_tool) two_servers = true
  /\ In (McpTool.serverName add_tool) (getConnectedServers two_servers)
  /\ (exists connection,
        map_get (McpTool.serverName add_tool)
          (serverConnections two_servers)
        = Some connection
        /\ In add_tool (tools connection))
  /\ exists target,
       Exposes (McpTool.name add_tool) target
       /\ callTool (scripted stuck) (McpTool.name add_tool) add_args
            two_servers
          = delegated (scripted stuck) (mcp target) (McpTool.name add_tool)
              add_args two_servers.
Proof.
  apply (listed_tool_names_a_connected_server (scripted stuck) two_servers
           add_tool add_args).
  - exact two_servers_consistent.
  - vm_compute. auto.
Defined.

(** *** Sending a message *)

Lemma sendMessage_without_key_witness :
  exists w',
    sendMessage (scripted talkative) [question] (fresh ∅)
    = (Throws missing_key, w')
    /\ trace w' = trace (fresh ∅)
    /\ anthropic w' = None
    /\ isInitialized w' = isInitialized (fresh ∅)
    /\ serverConnections w' = serverConnections (fresh ∅).
Proof.
  apply (sendMessage_without_key (scripted talkative) [question] (fresh ∅)).
  - reflexivity.
  - reflexivity.
Defined.

(** The variables of an environment that holds a key and a model name. *)
Definition variables : gmap string string :=
  {[ "ANTHROPIC_API_KEY" := "sk-test"; "MODEL_NAME" := "claude-3-opus" ]}.

Lemma sendMessage_initializes_lazily_witness :
  let w' := snd (sendMessage (scripted talkative) [question]
                   (fresh variables)) in
  let url :=
    str_or
      (default EmptyString
         (process_env (fresh variables) !! "ANTHROPIC_BASE_URL"))
      (baseUrl (fresh variables)) in
  let model :=
    str_or
      (default EmptyString (process_env (fresh variables) !! "MODEL_NAME"))
      (modelName (fresh variables)) in
  anthropic w'
  = Some {| Anthropic.apiKey := "sk-test"; Anthropic.baseURL := url |}
  /\ isInitialized w' = true
  /\ baseUrl w' = url
  /\ modelName w' = model
  /\ exists outcome rest,
       since (fresh variables) w'
       = EvCreate
           (request_for model (map to_ApiTool (getTools (fresh variables)))
              (map to_MessageParam [question])) outcome :: rest.
Proof.
  apply (sendMessage_initializes_lazily (scripted talkative) [question]
           (fresh variables) "sk-test").
  - reflexivity.
  - vm_compute. reflexivity.
  - discriminate.
Defined.

Lemma sendMessage_throws_only_witness :
  (Error "overloaded" = missing_key
   /\ anthropic (snd (sendMessage refusing [question] two_servers)) = None
   /\ trace (snd (sendMessage refusing [question] two_servers))
      = trace two_servers)
  \/ (exists before params,
        since two_servers (snd (sendMessage refusing [question] two_servers))
        = before ++ [EvCreate params (Rejected "overloaded")])
  \/ (Error "overloaded" = no_last_message /\ [question] = []
      /\ length
           (creates
              (since two_servers
                 (snd (sendMessage refusing [question] two_servers))))
         = maxIterations).
Proof.
  apply (sendMessage_throws_only refusing [question] two_servers
           "overloaded" (snd (sendMessage refusing [question] two_servers))).
  vm_compute. reflexivity.
Defined.

Lemma sendMessage_pairs_then_texts_witness :
  Message.role
    (returned (sendMessage (scripted talkative) [question]
                 (world_of [("calc", calc)] None)))
  = assistant
  /\ exists ps ts,
       Message.content
         (returned (sendMessage (scripted talkative) [question]
                      (world_of [("calc", calc)] None)))
       = ps ++ ts
       /\ tool_pairs ps
       /\ forallb is_text ts = true
       /\ 2 * length
                (tool_calls
                   (since (world_of [("calc", calc)] None)
                      (snd (sendMessage (scripted talkative) [question]
                              (world_of [("calc", calc)] None)))))
          <= length ps.
Proof.
  apply (sendMessage_pairs_then_texts (scripted talkative) [question]
           (world_of [("calc", calc)] None)
           (returned (sendMessage (scripted talkative) [question]
                        (world_of [("calc", calc)] None)))
           (snd (sendMessage (scripted talkative) [question]
                   (world_of [("calc", calc)] None)))).
  vm_compute. reflexivity.
Defined.

(** The calculator fails: the round of [before_tool] goes on after the
    call, with the error on record. *)
Lemma tool_failure_entries_witness :
  (exists v',
     process_content (slow_start talkative)
       (before_tool ++ ToolUseBlock "add" add_args :: [])
       (begin_round first_round) (world_of [("calc", calc)] None)
     = process_content (slow_start talkative) [] v'
         (snd (callTool (slow_start talkative) "add" add_args
                 (world_of [("calc", calc)] None)))
     /\ messageContent v'
        = messageContent
            (reached (process_content (slow_start talkative) before_tool
                        (begin_round first_round)
                        (world_of [("calc", calc)] None)))
          ++ [toolUse "add" add_args;
              toolResult "add" add_args error_result]
     /\ conversationHistory v'
        = conversationHistory
            (reached (process_content (slow_start talkative) before_tool
                        (begin_round first_round)
                        (world_of [("calc", calc)] None)))
          ++ (if truthy (latest_text before_tool EmptyString)
              then [assistant_says (latest_text before_tool EmptyString)]
              else [])
          ++ [user_says
                ("工具 " +:+ "add" +:+ " 调用失败: "
                 +:+ Error_toString division_by_zero)]
     /\ shouldContinue v' = true
     /\ hasToolCallsThisRound v' = true
     /\ calledTools v'
        = calledTools
            (reached (process_content (slow_start talkative) before_tool
                        (begin_round first_round)
                        (world_of [("calc", calc)] None)))
          ++ [("add", JSON_stringify add_args)])
  /\ ((forall connection,
         In connection
           (map_values
              (serverConnections (world_of [("calc", calc)] None))) ->
         ~ Exposes "add" connection) ->
      division_by_zero = ToolNotFound "add"
      /\ snd (callTool (slow_start talkative) "add" add_args
                (world_of [("calc", calc)] None))
         = world_of [("calc", calc)] None).
Proof.
  apply (tool_failure_entries (slow_start talkative) before_tool "add"
           add_args [] first_round (world_of [("calc", calc)] None)
           (reached (process_content (slow_start talkative) before_tool
                       (begin_round first_round)
                       (world_of [("calc", calc)] None)))
           (world_of [("calc", calc)] None)
           division_by_zero
           (snd (callTool (slow_start talkative) "add" add_args
                   (world_of [("calc", calc)] None)))).
  - reflexivity.
  - reflexivity.
  - reflexivity.
  - vm_compute. reflexivity.
  - vm_compute. reflexivity.
Defined.

(** The run behind the lemma above: the entry of the history names the
    class of the error. *)
Example tool_failure_line :
  conversationHistory
    (reached (process_content (slow_start talkative)
                [ToolUseBlock "add" add_args] (begin_round first_round)
                (world_of [("calc", calc)] None)))
  = [user_says "What's 2+2?";
     user_says
       "工具 add 调用失败: McpError: MCP error -32603: division by zero"]
  /\ failure_line "missing" (ToolNotFound "missing")
     = "工具 missing 调用失败: Error: " +:+ ToolNotFound "missing".
Proof. split; vm_compute; reflexivity. Qed.

(** *** The client of the model *)

Lemma setApiKey_setBaseUrl_order_witness :
  let key_first :=
    snd (setBaseUrl "https://proxy.example"
           (snd (setApiKey "sk-new" (world_of [] None)))) in
  let url_first :=
    snd (setApiKey "sk-new"
           (snd (setBaseUrl "https://proxy.example" (world_of [] None)))) in
  anthropic key_first
  = Some {| Anthropic.apiKey := "sk-new";
            Anthropic.baseURL := effective_url (world_of [] None) |}
  /\ anthropic url_first
     = Some {| Anthropic.apiKey := "sk-new";
               Anthropic.baseURL := "https://proxy.example" |}
  /\ isInitialized key_first = true
  /\ isInitialized url_first = true
  /\ baseUrl key_first = "https://proxy.example"
  /\ baseUrl url_first = "https://proxy.example"
  /\ process_env key_first = process_env url_first
  /\ process_env key_first
     = <[url_variable := "https://proxy.example"]>
         (<[key_variable := "sk-new"]> (process_env (world_of [] None)))
  /\ anthropic (snd (setApiKey "sk-new" key_first))
     = Some {| Anthropic.apiKey := "sk-new";
               Anthropic.baseURL := "https://proxy.example" |}.
Proof.
  apply (setApiKey_setBaseUrl_order "sk-new" "https://proxy.example"
           (world_of [] None)).
  - discriminate.
  - discriminate.
Defined.

Lemma client_ready_kept_witness :
  (forall key, client_ready (snd (setApiKey key two_servers)))
  /\ (forall url, client_ready (snd (setBaseUrl url two_servers)))
  /\ (forall name, client_ready (snd (setModel name two_servers)))
  /\ client_ready (snd (initAnthropicClient two_servers))
  /\ (forall messages,
        client_ready
          (snd (sendMessage (scripted talkative) messages two_servers)))
  /\ (isInitialized two_servers = true ->
      forall messages,
      exists outcome rest,
        since two_servers
          (snd (sendMessage (scripted talkative) messages two_servers))
        = EvCreate
            (request_for (modelName two_servers)
               (map to_ApiTool (getTools two_servers))
               (map to_MessageParam messages)) outcome :: rest).
Proof.
  apply (client_ready_kept (scripted talkative) two_servers).
  reflexivity.
Defined.

Lemma cleared_key_is_read_back_witness :
  let cleared :=
    snd (setApiKey EmptyString
           (snd (setApiKey "sk-new" (world_of [] None)))) in
  let w' := snd (sendMessage (scripted talkative) [question] cleared) in
  anthropic cleared = None
  /\ isInitialized cleared = false
  /\ process_env cleared !! key_variable = Some "sk-new"
  /\ anthropic w'
     = Some {| Anthropic.apiKey := "sk-new";
               Anthropic.baseURL := effective_url (world_of [] None) |}
  /\ isInitialized w' = true
  /\ exists request outcome rest,
       since cleared w' = EvCreate request outcome :: rest
       /\ CreateParams.messages request = map to_MessageParam [question].
Proof.
  apply (cleared_key_is_read_back (scripted talkative) "sk-new" [question]
           (world_of [] None)).
  discriminate.
Defined.

Lemma setModel_names_the_requests_witness :
  let named := snd (setModel "claude-3-opus" (world_of [] None)) in
  modelName named = "claude-3-opus"
  /\ setModel EmptyString (world_of [] None)
     = (Returns tt, world_of [] None)
  /\ (isInitialized (world_of [] None) = true ->
      Forall (fun request =>
                CreateParams.model (fst request) = "claude-3-opus")
        (creates
           (since named
              (snd (sendMessage (scripted talkative) [question] named)))))
  /\ (isInitialized (world_of [] None) = false ->
      forall other,
        process_env (world_of [] None) !! "MODEL_NAME" = Some other ->
        other <> EmptyString ->
        Forall (fun request => CreateParams.model (fst request) = other)
          (creates
             (since named
                (snd (sendMessage (scripted talkative) [question]
                        named))))).
Proof.
  apply (setModel_names_the_requests (scripted talkative) "claude-3-opus"
           [question] (world_of [] None)).
  discriminate.
Defined.

(** *** The chat handler *)

(** A parser that takes no text for a configuration. *)
Definition no_config (text : string) : Settled McpServerConfig :=
  Rejected "Unexpected token".

(** The client reports the calculator, and not the file server. *)
Definition calc_only : McpState.t :=
  {| McpState.connected := true;
     McpState.connectedServers := Some ["calc"];
     McpState.mcpConfig := None |}.


(** The run behind the lemma above: the file server is disconnected before
    the model is asked, and the calculator keeps its entry. *)
Example chat_disconnects_the_unreported_server :
  let run := POST_chat (scripted talkative) no_config
               (Resolved (ChatRequest.mk (Some [question]) (Some calc_only)))
               two_servers in
  getConnectedServers (snd run) = ["calc"]
  /\ map_get "files" (serverConnections (snd run))
     = Some (disconnected files)
  /\ map_get "calc" (serverConnections (snd run)) = Some calc
  /\ match fst run with
     | Returns response => Response.status response = 200
     | Throws _ => False
     end.
Proof. cbv zeta. repeat split; vm_compute; reflexivity. Qed.
